(** * Persistence layer of the command-testing tool: model and properties

    Shallow embedding of [scripts/test_persistence.py] (class
    [TestPersistence]): the SQLite store with its four tables, the
    backup manager working on the store file and the backups directory,
    the aggregation queries, the snapshot checksum and the legacy
    migration.  Beside it stand the coverage figure and the pruning of
    old reports of [scripts/html_generator.py], and the lists of names
    that [scripts/command_extractor.py] reads for the registry document.

    Conventions.
    - Python [str] and SQLite [TEXT] are [string]; a character stands for
      a code point below 256.  SQLite compares [TEXT] bytewise, which is
      [String.leb].
    - Every reading of the clock is an input of the operation that makes
      it: [CURRENT_TIMESTAMP] and [datetime.now()] are passed in as the
      text they produce.
    - Python's [None] is the [None] of an [option]. *)

From Stdlib Require Import String Ascii ZArith NArith List Lia Bool.
From Stdlib Require Import Permutation Sorted DecimalString.
From stdpp Require Import gmap strings list sorting.

Set Default Proof Using "Type".

(** ** Stable sorting

    [sorted(xs, key=...)] and the sort behind [ORDER BY] and
    [sort_keys=True]: a stable sort for a boolean "less or equal". *)

Section Sorting.
Context {A : Type} (le : A -> A -> bool).

Fixpoint insert_sorted (x : A) (l : list A) : list A :=
  match l with
  | [] => [x]
  | y :: l' => if le x y then x :: l else y :: insert_sorted x l'
  end.

Definition sort_by (l : list A) : list A := foldr insert_sorted [] l.

Definition le_prop (x y : A) : Prop := le x y = true.

End Sorting.

(** ** SHA-256 ([hashlib.sha256]) *)

Module SHA256.
Local Open Scope N_scope.

Definition mask32 : N := 0xffffffff.
Definition add32 (a b : N) : N := N.land (a + b) mask32.
Definition rotr (n x : N) : N :=
  N.lor (N.shiftr x n) (N.land (N.shiftl x (32 - n)) mask32).
Definition Ch (x y z : N) : N :=
  N.lxor (N.land x y) (N.land (N.lxor x mask32) z).
Definition Maj (x y z : N) : N :=
  N.lxor (N.land x y) (N.lxor (N.land x z) (N.land y z)).
Definition Sigma0 (x : N) : N :=
  N.lxor (rotr 2 x) (N.lxor (rotr 13 x) (rotr 22 x)).
Definition Sigma1 (x : N) : N :=
  N.lxor (rotr 6 x) (N.lxor (rotr 11 x) (rotr 25 x)).
Definition sigma0 (x : N) : N :=
  N.lxor (rotr 7 x) (N.lxor (rotr 18 x) (N.shiftr x 3)).
Definition sigma1 (x : N) : N :=
  N.lxor (rotr 17 x) (N.lxor (rotr 19 x) (N.shiftr x 10)).

(** The first [n] primes, by trial division. *)
Definition is_prime (p : N) : bool :=
  forallb (fun d => negb (p mod d =? 0))
          (map N.of_nat (seq 2 (N.to_nat p - 2))).

Definition primes (n : nat) : list N :=
  take n (List.filter is_prime (map N.of_nat (seq 2 400))).

(** The integer cube root, one bit at a time from bit [bits - 1] down. *)
Fixpoint cube_root (bits : nat) (x r : N) : N :=
  match bits with
  | O => r
  | S b =>
      let r' := r + N.shiftl 1 (N.of_nat b) in
      cube_root b x (if r' * r' * r' <=? x then r' else r)
  end.

(** The round constants: the first 32 bits of the fractional parts of
    the cube roots of the first 64 primes. *)
Definition K : list N :=
  Eval vm_compute in
    map (fun p => N.land (cube_root 36 (N.shiftl p 96) 0) mask32) (primes 64).

(** The initial hash value: the same of the square roots of the first
    8 primes. *)
Definition H0 : list N :=
  Eval vm_compute in
    map (fun p => N.land (N.sqrt (N.shiftl p 64)) mask32) (primes 8).

(** Big-endian bytes of [x], [n] of them. *)
Fixpoint be_bytes (n : nat) (x : N) : list N :=
  match n with
  | O => []
  | S n' => N.land (N.shiftr x (8 * N.of_nat n')) 0xff :: be_bytes n' x
  end.

(** The message followed by a one bit, zeros up to 56 modulo 64 and the
    bit length on eight bytes. *)
Definition pad (msg : list N) : list N :=
  let len := N.of_nat (length msg) in
  let zeros := N.to_nat ((119 - len mod 64) mod 64) in
  msg ++ 0x80 :: repeat 0 zeros ++ be_bytes 8 (8 * len).

Fixpoint words (fuel : nat) (bs : list N) : list N :=
  match fuel, bs with
  | S f, b0 :: b1 :: b2 :: b3 :: rest =>
      (N.shiftl b0 24 + N.shiftl b1 16 + N.shiftl b2 8 + b3) :: words f rest
  | _, _ => []
  end.

Fixpoint blocks (fuel : nat) (ws : list N) : list (list N) :=
  match fuel, ws with
  | S f, _ :: _ => take 16 ws :: blocks f (drop 16 ws)
  | _, _ => []
  end.

(** The message schedule, most recent word first. *)
Fixpoint schedule (n : nat) (rev_w : list N) : list N :=
  match n with
  | O => rev_w
  | S n' =>
      let w i := nth i rev_w 0 in
      schedule n'
        (add32 (add32 (sigma1 (w 1%nat)) (w 6%nat))
               (add32 (sigma0 (w 14%nat)) (w 15%nat)) :: rev_w)
  end.

Definition round (st : list N) (kw : N * N) : list N :=
  match st with
  | [a; b; c; d; e; f; g; h] =>
      let t1 :=
        add32 (add32 (add32 h (Sigma1 e)) (add32 (Ch e f g) kw.1)) kw.2 in
      let t2 := add32 (Sigma0 a) (Maj a b c) in
      [add32 t1 t2; a; b; c; add32 d t1; e; f; g]
  | _ => st
  end.

Definition compress (h : list N) (block : list N) : list N :=
  let w := rev (schedule 48 (rev block)) in
  zip_with add32 h (fold_left round (zip K w) h).

Definition digest (msg : list N) : list N :=
  let bs := pad msg in
  let ws := words (length bs) bs in
  fold_left compress (blocks (length ws) ws) H0.

Definition hex_digit (d : N) : ascii :=
  ascii_of_N (if d <? 10 then 48 + d else 87 + d).

Fixpoint hex_digits (n : nat) (x : N) : string :=
  match n with
  | O => EmptyString
  | S n' =>
      String (hex_digit (N.land (N.shiftr x (4 * N.of_nat n')) 0xf))
             (hex_digits n' x)
  end.

(** [str.encode()]: UTF-8 of code points below 256. *)
Definition utf8 (c : ascii) : list N :=
  let n := N_of_ascii c in
  if n <? 128 then [n]
  else [N.lor 0xc0 (N.shiftr n 6); N.lor 0x80 (N.land n 0x3f)].

Definition encode (s : string) : list N :=
  flat_map utf8 (list_ascii_of_string s).

(** [hashlib.sha256(s.encode()).hexdigest()] *)
Definition hexdigest (s : string) : string :=
  foldr (fun w acc => hex_digits 8 w +:+ acc) EmptyString
        (digest (encode s)).

End SHA256.


(** ** JSON values and [json.dumps] *)

(** A Python value that [json] reads or writes.  A [dict] keeps its items
  in insertion order; a float is carried as the text [repr] gives it. *)
#[local] Unset Elimination Schemes.
Inductive json : Type :=
| JNull
| JBool (b : bool)
| JInt (z : Z)
| JFloat (repr : string)
| JStr (s : string)
| JArr (items : list json)
| JObj (members : list (string * json)).
#[local] Set Elimination Schemes.

Module Json.

Definition hex4 (n : N) : string :=
  let d (k : N) :=
    let x := N.land (N.shiftr n (4 * k)) 0xf in
    ascii_of_N (if (x <? 10)%N then 48 + x else 87 + x)%N in
  String (d 3%N) (String (d 2%N) (String (d 1%N) (String (d 0%N) EmptyString))).

(** One character under [ensure_ascii=True]. *)
Definition escape_char (c : ascii) : string :=
  let n := N_of_ascii c in
  let bs := String (ascii_of_N 92) EmptyString in
  if (n =? 34)%N then bs +:+ String c EmptyString
  else if (n =? 92)%N then bs +:+ bs
  else if (n =? 10)%N then bs +:+ "n"
  else if (n =? 13)%N then bs +:+ "r"
  else if (n =? 9)%N then bs +:+ "t"
  else if (n =? 8)%N then bs +:+ "b"
  else if (n =? 12)%N then bs +:+ "f"
  else if ((32 <=? n) && (n <=? 126))%N then String c EmptyString
  else bs +:+ "u" +:+ hex4 n.

Fixpoint escape (s : string) : string :=
  match s with
  | EmptyString => EmptyString
  | String c s' => escape_char c +:+ escape s'
  end.

Definition quote (s : string) : string :=
  let dq := String (ascii_of_N 34) EmptyString in
  dq +:+ escape s +:+ dq.

Definition decimal (z : Z) : string := NilZero.string_of_int (Z.to_int z).

Fixpoint join (sep : string) (l : list string) : string :=
  match l with
  | [] => EmptyString
  | [x] => x
  | x :: l' => x +:+ sep +:+ join sep l'
  end.

Definition key_le (a b : string * string) : bool := String.leb a.1 b.1.

Definition item (kv : string * string) : string := quote kv.1 +:+ ": " +:+ kv.2.

(** [json.dumps(j, sort_keys=sort_keys)] with the default separators. *)
Fixpoint dumps (sort_keys : bool) (j : json) : string :=
  match j with
  | JNull => "null"
  | JBool true => "true"
  | JBool false => "false"
  | JInt z => decimal z
  | JFloat r => r
  | JStr s => quote s
  | JArr items => "[" +:+ join ", " (map (dumps sort_keys) items) +:+ "]"
  | JObj members =>
      let rendered := map (fun kv => (kv.1, dumps sort_keys kv.2)) members in
      let ordered := if sort_keys then sort_by key_le rendered else rendered in
      "{" +:+ join ", " (map item ordered) +:+ "}"
  end.

End Json.


Module Dict.

(** [d.get(k)] on the items of a [dict]. *)
Fixpoint get (k : string) (members : list (string * json)) : option json :=
  match members with
  | [] => None
  | (k', v) :: rest => if String.eqb k' k then Some v else get k rest
  end.

(** [k in d] *)
Definition has (k : string) (members : list (string * json)) : bool :=
  match get k members with Some _ => true | None => false end.

End Dict.

Definition opt_str (o : option string) : json :=
  match o with Some s => JStr s | None => JNull end.

(** [x or ""] for an optional text: [None] and the empty text give the
    empty text. *)
Definition or_empty (o : option string) : string :=
  match o with Some s => s | None => "" end.

(** [x or None] for an optional text: [None] and the empty text give
    [None]. *)
Definition or_none (o : option string) : option string :=
  match o with
  | Some s => if String.eqb s "" then None else Some s
  | None => None
  end.

(** ** The store: four tables *)

(** A row of [test_results].  [tested_at] is never bound by an insert and
    takes its default, the [CURRENT_TIMESTAMP] of the statement;
    [subcommand] is always bound to a text. *)
Record TestResult := {
  result_id : N;
  session_id : string;
  command : string;
  subcommand : string;
  status : string;
  tested_at : string;
  notes : option string;
  error_output : string;
  execution_time_ms : Z;
  metadata : string;
}.

(** What the model takes from SQLite and from Python's runtime.
    SQLite leaves open in which order rows with equal sort keys come out
    of a query: [scan] is the order in which the engine visits the rows
    it has selected, before the stable sort of an [ORDER BY], and may be
    any permutation.  [float_repr s n] is the text of the float that
    [AVG] gives for [n] integers of sum [s], as [repr] prints it;
    [real_text r] is the text SQLite stores when the float that [repr]
    prints as [r] is bound to a [TEXT] column. *)
Record Engine := {
  scan : list TestResult -> list TestResult;
  scan_perm : forall l, scan l ≡ₚ l;
  float_repr : Z -> Z -> string;
  real_text : string -> string;
}.

(** An engine for the examples: rows in rowid order.  Its floats are
    right where the quotient is a whole number below [10^16]; the
    examples render no other float. *)
Definition rowid_engine : Engine :=
  {| scan := fun l => l;
     scan_perm := fun l => Permutation_refl l;
     float_repr := fun s n => Json.decimal (s / n)%Z +:+ ".0";
     real_text := fun r => r |}.

(** The same, rows in reverse rowid order. *)
Definition reverse_engine : Engine :=
  {| scan := @rev TestResult;
     scan_perm := fun l => Permutation_sym (Permutation_rev l);
     float_repr := fun s n => Json.decimal (s / n)%Z +:+ ".0";
     real_text := fun r => r |}.

(** A row of [test_sessions], keyed by [session_id]; the [metadata]
    column is never written. *)
Record TestSession := {
  started_at : string;
  ended_at : option string;
  user_id : string;
  guild_id : string;
  channel_id : string;
}.

(** A row of [command_registry], keyed by [(command, subcommand)];
    [aliases] holds JSON text. *)
Record CommandRegistryEntry := {
  description : string;
  aliases : string;
  discovered_at : string;
  last_modified : string;
  is_active : bool;
}.

(** A row of [test_snapshots], keyed by its position. *)
Record TestSnapshot := {
  created_at : string;
  snapshot_data : string;
  checksum : string;
  snapshot_description : string;
}.

Record Db := {
  test_sessions : gmap string TestSession;
  test_results : list TestResult;
  command_registry : gmap (string * string) CommandRegistryEntry;
  test_snapshots : list TestSnapshot;
}.

(** The store [_init_database] leaves on a fresh file. *)
Definition empty_db : Db :=
  {| test_sessions := ∅; test_results := []; command_registry := ∅;
     test_snapshots := [] |}.

Definition set_test_sessions (v : gmap string TestSession) (db : Db) : Db :=
  {| test_sessions := v; test_results := test_results db;
     command_registry := command_registry db;
     test_snapshots := test_snapshots db |}.

Definition set_test_results (v : list TestResult) (db : Db) : Db :=
  {| test_sessions := test_sessions db; test_results := v;
     command_registry := command_registry db;
     test_snapshots := test_snapshots db |}.

Definition set_command_registry
    (v : gmap (string * string) CommandRegistryEntry) (db : Db) : Db :=
  {| test_sessions := test_sessions db; test_results := test_results db;
     command_registry := v; test_snapshots := test_snapshots db |}.

Definition set_test_snapshots (v : list TestSnapshot) (db : Db) : Db :=
  {| test_sessions := test_sessions db; test_results := test_results db;
     command_registry := command_registry db; test_snapshots := v |}.

(** What a call ends with: a value, or an exception that leaves it. *)
Inductive exn :=
| FileNotFoundError
| BadGzipFile
| EOFError
| ZlibError
| IntegrityError
| InterfaceError
| OverflowError
| AttributeError.

Inductive outcome (A : Type) :=
| Returned (a : A)
| Raised (e : exn).
Arguments Returned {A} a.
Arguments Raised {A} e.

(** ** Sessions and results *)

(** [start_session]: the identifier is the first 16 hex digits of the
    digest of the three names and [str(datetime.now())], here [now_py];
    [now] is the [CURRENT_TIMESTAMP] of the insert.  [session_id] is the
    primary key: a second insert of one raises. *)
Definition start_session (now_py now : string)
    (user_id guild_id channel_id : string) (db : Db)
    : outcome (Db * string) :=
  let session_id :=
    String.substring 0 16
      (SHA256.hexdigest (user_id +:+ guild_id +:+ channel_id +:+ now_py)) in
  match test_sessions db !! session_id with
  | Some _ => Raised IntegrityError
  | None =>
      Returned
        (set_test_sessions
           (<[session_id :=
                {| started_at := now; ended_at := None; user_id := user_id;
                   guild_id := guild_id; channel_id := channel_id |}]>
              (test_sessions db)) db,
         session_id)
  end.

(** [end_session]: an [UPDATE] of the row with that key, if any. *)
Definition end_session (now : string) (session_id : string) (db : Db) : Db :=
  set_test_sessions
    (alter (fun s =>
              {| started_at := started_at s; ended_at := Some now;
                 user_id := user_id s; guild_id := guild_id s;
                 channel_id := channel_id s |})
           session_id (test_sessions db)) db.

(** [sqlite3] binds a Python [int] as a signed integer of 64 bits. *)
Definition int64 (z : Z) : bool := ((- 2 ^ 63 <=? z) && (z <? 2 ^ 63))%Z.

(** The exception that leaves a [record_test] call, if any: binding an
    [execution_time_ms] that does not fit raises [OverflowError], before
    the statement runs. *)
Definition record_test_raises (execution_time_ms : Z) : option exn :=
  if int64 execution_time_ms then None else Some OverflowError.

(** [record_test], as the store the call leaves: one [INSERT] into
    [test_results], or nothing when the call raises.  [now] is the
    [CURRENT_TIMESTAMP] of the statement; [notes] is [None] for Python's
    [None], which the column stores as [NULL]. *)
Definition record_test (now : string) (session_id command : string)
    (subcommand : option string) (status : string) (notes : option string)
    (error_output : string) (execution_time_ms : Z)
    (metadata : option (list (string * json))) (db : Db) : Db :=
  if negb (int64 execution_time_ms) then db else
  let row :=
    {| result_id := (N.of_nat (length (test_results db)) + 1)%N;
       session_id := session_id;
       command := command;
       subcommand := or_empty subcommand;
       status := status;
       tested_at := now;
       notes := notes;
       error_output := error_output;
       execution_time_ms := execution_time_ms;
       metadata :=
         Json.dumps false
           (JObj (match metadata with Some m => m | None => [] end)) |} in
  set_test_results (test_results db ++ [row]) db.

(** The arguments of one [record_test] call, with the clock it reads. *)
Record RecordCall := {
  rc_now : string;
  rc_session_id : string;
  rc_command : string;
  rc_subcommand : option string;
  rc_status : string;
  rc_notes : option string;
  rc_error_output : string;
  rc_execution_time_ms : Z;
  rc_metadata : option (list (string * json));
}.

Definition record_call (db : Db) (c : RecordCall) : Db :=
  record_test (rc_now c) (rc_session_id c) (rc_command c) (rc_subcommand c)
    (rc_status c) (rc_notes c) (rc_error_output c) (rc_execution_time_ms c)
    (rc_metadata c) db.

Definition record_all (calls : list RecordCall) (db : Db) : Db :=
  fold_left record_call calls db.

(** ** The registry document *)

(** The document the extractor writes, [{command: {description, aliases,
    subcommands: {name: {description, aliases}}}}], each [dict] with its
    items in order.  A key the document leaves out is read with
    [.get(key, default)] everywhere: it stands here with the default,
    the empty text, list or [dict]. *)
Record SubInfo := {
  sub_description : string;
  sub_aliases : list string;
}.

Record CmdInfo := {
  cmd_description : string;
  cmd_aliases : list string;
  cmd_subcommands : list (string * SubInfo);
}.

Definition RegistryDoc := list (string * CmdInfo).

(** [test_results/discovered_commands.json] as [os.path.exists] and
    [json.load] find it: absent, no JSON, or a document of the shape
    above. *)
Inductive DocFile :=
| DocMissing
| DocMalformed
| DocLoaded (doc : RegistryDoc).

Definition doc_of (file : DocFile) : RegistryDoc :=
  match file with DocLoaded doc => doc | _ => [] end.

(** [json.dumps(aliases)] *)
Definition aliases_text (l : list string) : string :=
  Json.dumps false (JArr (map JStr l)).

(** The rows [update_command_registry] writes, in the order of its
    statements: for each command its own row, with the empty
    subcommand, then one row for each of its subcommands. *)
Definition registry_rows (commands : RegistryDoc)
    : list (string * string * string * list string) :=
  flat_map
    (fun cmd : string * CmdInfo =>
       (cmd.1, "", cmd_description cmd.2, cmd_aliases cmd.2)
       :: map (fun sub : string * SubInfo =>
                 (cmd.1, sub.1, sub_description sub.2, sub_aliases sub.2))
              (cmd_subcommands cmd.2))
    commands.

(** [INSERT OR REPLACE INTO command_registry (command, subcommand,
    description, aliases, last_modified) VALUES (?, ?, ?, ?,
    CURRENT_TIMESTAMP)]: the row with that key, if any, goes; the new
    row takes the defaults of the columns the statement leaves out,
    [discovered_at] the [CURRENT_TIMESTAMP] and [is_active] 1. *)
Definition insert_or_replace (now : string)
    (row : string * string * string * list string)
    (reg : gmap (string * string) CommandRegistryEntry)
    : gmap (string * string) CommandRegistryEntry :=
  let '(command, subcommand, description, aliases) := row in
  <[(command, subcommand) :=
      {| description := description; aliases := aliases_text aliases;
         discovered_at := now; last_modified := now; is_active := true |}]>
    reg.

(** The statements of one call, the [i]-th reading [times i] as its
    [CURRENT_TIMESTAMP]. *)
Fixpoint run_upserts (times : nat -> string) (i : nat)
    (rows : list (string * string * string * list string))
    (reg : gmap (string * string) CommandRegistryEntry)
    : gmap (string * string) CommandRegistryEntry :=
  match rows with
  | [] => reg
  | row :: rest =>
      run_upserts times (S i) rest (insert_or_replace (times i) row reg)
  end.

Definition update_command_registry (times : nat -> string)
    (commands : RegistryDoc) (db : Db) : Db :=
  set_command_registry
    (run_upserts times 0 (registry_rows commands) (command_registry db)) db.

(** ** Reading results *)

Definition is_pair (c s : string) (r : TestResult) : Prop :=
  command r = c ∧ subcommand r = s.

#[global] Instance is_pair_dec c s r : Decision (is_pair c s r).
Proof. unfold is_pair. apply _. Defined.

Definition newest_first (a b : TestResult) : bool :=
  String.leb (tested_at b) (tested_at a).

Definition status_record (r : TestResult) : json :=
  JObj [ ("status", JStr (status r));
         ("last_tested", JStr (tested_at r));
         ("notes", opt_str (notes r));
         ("error_output", JStr (error_output r));
         ("execution_time_ms", JInt (execution_time_ms r)) ].

Definition untested_record : json := JObj [ ("status", JStr "untested") ].

(** [get_test_status]: [WHERE command = ? AND subcommand = ?
    ORDER BY tested_at DESC LIMIT 1], then the [dict] of the row or the
    default. *)
Definition get_test_status (eng : Engine) (db : Db) (command : string)
    (subcommand : option string) : json :=
  match sort_by newest_first
          (scan eng (filter (is_pair command (or_empty subcommand))
                            (test_results db))) with
  | r :: _ => status_record r
  | [] => untested_record
  end.

(** [MAX] of a column of text, [None] on no row. *)
Definition max_text (l : list string) : option string :=
  foldr (fun s acc =>
           match acc with
           | None => Some s
           | Some m => Some (if String.leb m s then s else m)
           end) None l.

(** The groups of [GROUP BY command, subcommand]. *)
Definition groups (rows : list TestResult) : list (string * string) :=
  remove_dups (map (fun r => (command r, subcommand r)) rows).

(** [SELECT MAX(tested_at) FROM test_results GROUP BY command,
    subcommand]: one time for each group. *)
Definition latest_times (rows : list TestResult) : list string :=
  omap (fun g : string * string =>
          max_text (map tested_at (filter (is_pair g.1 g.2) rows)))
       (groups rows).

(** The rows with [tested_at IN (...)] of those times. *)
Definition latest_rows (rows : list TestResult) : list TestResult :=
  filter (fun r => tested_at r ∈ latest_times rows) rows.

(** [ORDER BY r.command, r.subcommand] *)
Definition pair_le (a b : TestResult) : bool :=
  String.ltb (command a) (command b)
  || (String.eqb (command a) (command b)
      && String.leb (subcommand a) (subcommand b)).

(** A record of [get_all_test_results]: the [dict] of a row of its
    query, or the one [_integrate_with_discovered_commands] makes up for
    a command that was never tested. *)
Inductive Merged :=
| Latest (command subcommand status tested_at : string)
    (notes : option string) (error_output : string)
    (execution_time_ms : Z) (description aliases : option string)
| Untested (command : string) (subcommand : option string)
    (description : string) (aliases : list string).

Definition m_command (m : Merged) : string :=
  match m with
  | Latest c _ _ _ _ _ _ _ _ => c
  | Untested c _ _ _ => c
  end.

Definition m_subcommand (m : Merged) : option string :=
  match m with
  | Latest _ s _ _ _ _ _ _ _ => Some s
  | Untested _ s _ _ => s
  end.

Definition m_status (m : Merged) : string :=
  match m with
  | Latest _ _ st _ _ _ _ _ _ => st
  | Untested _ _ _ _ => "untested"
  end.

Definition m_tested_at (m : Merged) : string :=
  match m with
  | Latest _ _ _ t _ _ _ _ _ => t
  | Untested _ _ _ _ => "Never"
  end.

(** The [dict] itself, keys in the order Python holds them. *)
Definition to_dict (m : Merged) : json :=
  match m with
  | Latest c s st t n e ms d a =>
      JObj [ ("command", JStr c); ("subcommand", JStr s);
             ("status", JStr st); ("tested_at", JStr t);
             ("notes", opt_str n); ("error_output", JStr e);
             ("execution_time_ms", JInt ms);
             ("description", opt_str d); ("aliases", opt_str a) ]
  | Untested c s d a =>
      JObj [ ("command", JStr c); ("subcommand", opt_str s);
             ("status", JStr "untested"); ("tested_at", JStr "Never");
             ("notes", JStr ""); ("description", JStr d);
             ("aliases", JArr (map JStr a));
             ("error_output", JNull); ("execution_time_ms", JNull) ]
  end.

(** A row with the [LEFT JOIN] of its registry entry. *)
Definition joined (db : Db) (r : TestResult) : Merged :=
  let entry := command_registry db !! (command r, subcommand r) in
  Latest (command r) (subcommand r) (status r) (tested_at r) (notes r)
    (error_output r) (execution_time_ms r)
    (description <$> entry) (aliases <$> entry).

(** The records the loop appends for one command of the document:
    the base command when no record has it and its description is not
    empty, then every subcommand no record has. *)
Definition synthesized (existing_pairs : list (string * option string))
    (cmd : string * CmdInfo) : list Merged :=
  (if bool_decide ((cmd.1, None) ∉ existing_pairs)
      && negb (String.eqb (cmd_description cmd.2) "")
   then [Untested cmd.1 None (cmd_description cmd.2) (cmd_aliases cmd.2)]
   else [])
  ++ flat_map
       (fun sub : string * SubInfo =>
          if bool_decide ((cmd.1, Some sub.1) ∉ existing_pairs)
          then [Untested cmd.1 (Some sub.1) (sub_description sub.2)
                  (sub_aliases sub.2)]
          else [])
       (cmd_subcommands cmd.2).

(** [_integrate_with_discovered_commands]: [existing_pairs] is built
    once, from the records of the query, and the loop appends to the
    list it was given. *)
Definition _integrate_with_discovered_commands (file : DocFile)
    (existing_results : list Merged) : list Merged :=
  match file with
  | DocMissing | DocMalformed => existing_results
  | DocLoaded discovered_commands =>
      let existing_pairs :=
        map (fun result => (m_command result, or_none (m_subcommand result)))
            existing_results in
      existing_results
      ++ flat_map (synthesized existing_pairs) discovered_commands
  end.

Definition get_all_test_results (eng : Engine) (db : Db) (file : DocFile)
    : list Merged :=
  _integrate_with_discovered_commands file
    (map (joined db)
         (sort_by pair_le (scan eng (latest_rows (test_results db))))).

(** ** Statistics and snapshots *)

Definition count_distinct (l : list string) : Z :=
  Z.of_nat (length (remove_dups l)).

(** [AVG(execution_time_ms)] and the [or 0] on it: no row gives [None]
    and a zero sum gives [0.0], and both give the integer [0]. *)
Definition avg_execution_time (eng : Engine) (rows : list TestResult)
    : json :=
  let total := foldr Z.add 0%Z (map execution_time_ms rows) in
  match rows with
  | [] => JInt 0
  | _ :: _ =>
      if (total =? 0)%Z then JInt 0
      else JFloat (float_repr eng total (Z.of_nat (length rows)))
  end.

(** [SELECT status, COUNT( * ) ... GROUP BY status] over the rows with
    [tested_at IN (...)], as the [dict] built from it. *)
Definition status_distribution (rows : list TestResult)
    : list (string * json) :=
  let picked := latest_rows rows in
  map (fun st =>
         (st, JInt (Z.of_nat (length (filter (fun r => status r = st) picked)))))
      (sort_by String.leb (remove_dups (map status picked))).

(** [get_statistics]; [day_ago] is [datetime('now', '-1 day')] as the
    query computes it. *)
Definition get_statistics (eng : Engine) (day_ago : string) (db : Db)
    : json :=
  let rows := test_results db in
  JObj [ ("total_commands",
          JInt (count_distinct
                  (map (fun r => command r +:+ ":" +:+ subcommand r) rows)));
         ("total_sessions", JInt (count_distinct (map session_id rows)));
         ("total_tests", JInt (Z.of_nat (length rows)));
         ("avg_execution_time_ms", avg_execution_time eng rows);
         ("status_distribution", JObj (status_distribution rows));
         ("tests_last_24h",
          JInt (Z.of_nat
                  (length (filter (fun r => String.ltb day_ago (tested_at r) = true)
                                  rows)))) ].

(** The [snapshot_data] of [create_snapshot]; [now_iso] is
    [datetime.now().isoformat()]. *)
Definition build_snapshot_data (eng : Engine) (now_iso day_ago : string)
    (file : DocFile) (db : Db) : json :=
  JObj [ ("timestamp", JStr now_iso);
         ("results", JArr (map to_dict (get_all_test_results eng db file)));
         ("statistics", get_statistics eng day_ago db) ].

(** [hashlib.sha256(json.dumps(snapshot_data, sort_keys=True).encode())
    .hexdigest()] *)
Definition checksum_of (snapshot_data : json) : string :=
  SHA256.hexdigest (Json.dumps true snapshot_data).

(** [create_snapshot]: the new row and its identifier; [now] is the
    [CURRENT_TIMESTAMP] of the insert. *)
Definition create_snapshot (eng : Engine) (now_iso day_ago now : string)
    (file : DocFile) (description : string) (db : Db) : Db * N :=
  let snapshot_data := build_snapshot_data eng now_iso day_ago file db in
  let row :=
    {| created_at := now;
       snapshot_data := Json.dumps false snapshot_data;
       checksum := checksum_of snapshot_data;
       snapshot_description := description |} in
  (set_test_snapshots (test_snapshots db ++ [row]) db,
   (N.of_nat (length (test_snapshots db)) + 1)%N).

(** The checksum a [create_snapshot] call computes. *)
Definition snapshot_checksum (eng : Engine) (now_iso day_ago : string)
    (file : DocFile) (db : Db) : string :=
  checksum_of (build_snapshot_data eng now_iso day_ago file db).

(** ** Migration of the legacy document *)

(** The file [migrate_from_json] is pointed at, as [open] and
    [json.load] find it. *)
Inductive JsonFile :=
| FileAbsent
| FileMalformed
| FileJson (data : json).

(** What [sqlite3] makes of a Python value bound to a [TEXT] column:
    [None] when it refuses the value, [Some None] for [NULL]. *)
Definition bind_text (eng : Engine) (v : json) : option (option string) :=
  match v with
  | JNull => Some None
  | JStr s => Some (Some s)
  | JBool b => Some (Some (if b then "1" else "0"))
  | JInt z =>
      if ((- 2 ^ 63 <=? z) && (z <? 2 ^ 63))%Z
      then Some (Some (Json.decimal z)) else None
  | JFloat r => Some (Some (real_text eng r))
  | JArr _ | JObj _ => None
  end.

(** The loop's state: the store, the number of statements run so far
    and whether an exception has left the loop. *)
Record MigrateState := {
  ms_db : Db;
  ms_count : nat;
  ms_failed : bool;
}.

(** The body of the inner loop for one item of a command's [dict]. *)
Definition migrate_info (eng : Engine) (times : nat -> string)
    (session_id command : string) (st : MigrateState)
    (item : string * json) : MigrateState :=
  if ms_failed st then st else
  match item.2 with
  | JObj info =>
      if Dict.has "status" info then
        let subcmd := if String.eqb item.1 "_self" then None else Some item.1 in
        let status_arg := default (JStr "untested") (Dict.get "status" info) in
        let notes_arg := default (JStr "") (Dict.get "notes" info) in
        match bind_text eng status_arg, bind_text eng notes_arg with
        | Some (Some status), Some notes =>
            {| ms_db :=
                 record_test (times (ms_count st)) session_id command subcmd
                   status notes "" 0 (Some [("migrated", JBool true)])
                   (ms_db st);
               ms_count := S (ms_count st);
               ms_failed := false |}
        | _, _ =>
            {| ms_db := ms_db st; ms_count := ms_count st;
               ms_failed := true |}
        end
      else st
  | _ => st
  end.

(** The body of the outer loop for one item of the document. *)
Definition migrate_command (eng : Engine) (times : nat -> string)
    (session_id : string) (st : MigrateState) (entry : string * json)
    : MigrateState :=
  match entry.2 with
  | JObj content =>
      fold_left (migrate_info eng times session_id entry.1) content st
  | _ => st
  end.

(** [migrate_from_json]: the store it leaves and the boolean it
    returns.  [times i] is the [CURRENT_TIMESTAMP] of the [i]-th
    statement of the call and [now_py] the [datetime.now()] of
    [start_session]; every exception ends in [False]. *)
Definition migrate_from_json (eng : Engine) (now_py : string)
    (times : nat -> string) (file : JsonFile) (db : Db) : Db * bool :=
  match file with
  | FileAbsent | FileMalformed => (db, false)
  | FileJson data =>
      match start_session now_py (times 0%nat) "migration" "migration"
              "migration" db with
      | Raised _ => (db, false)
      | Returned (db1, session_id) =>
          match data with
          | JObj items =>
              let st :=
                fold_left (migrate_command eng times session_id) items
                  {| ms_db := db1; ms_count := 1; ms_failed := false |} in
              if ms_failed st then (ms_db st, false)
              else (end_session (times (ms_count st)) session_id (ms_db st),
                    true)
          | _ => (db1, false)
          end
      end
  end.

(** ** The backup manager *)

(** What a file holds.  [Bytes b] is a file of the bytes [b] that does
    not begin with the two bytes [1f 8b] of a gzip member; a file that
    does is the gzip stream of some content, [Gz c], or a stream that is
    cut short or damaged, [Broken read e]: reading it gives the bytes
    [read] and then raises [e], which is [EOFError], [zlib.error] or
    [BadGzipFile]. *)
Inductive content :=
| Bytes (b : string)
| Gz (c : content)
| Broken (read : string) (e : exn).

(** Whether bytes begin with [1f 8b]. *)
Definition gzip_magic (b : string) : bool :=
  match b with
  | String c1 (String c2 _) =>
      (N_of_ascii c1 =? 31)%N && (N_of_ascii c2 =? 139)%N
  | _ => false
  end.

(** [shutil.copyfileobj(gzip.open(path, 'rb'), f_out)]: what reaches
    [f_out], and the exception that ends the copy, if any.  An empty
    file reads as an empty stream; other bytes that do not begin a gzip
    member raise [BadGzipFile] at the first read. *)
Definition gunzip (c : content) : content * option exn :=
  match c with
  | Gz c' => (c', None)
  | Bytes "" => (Bytes "", None)
  | Bytes _ => (Bytes "", Some BadGzipFile)
  | Broken read e => (Bytes read, Some e)
  end.

(** A file of the backups directory that [glob("*.db.gz")] lists. *)
Record BackupFile := {
  st_mtime : N;
  data : content;
}.

(** The files the backup manager works on: the store file
    [test_data.db], the [*.db.gz] files of the backups directory by
    name, and every other file by path. *)
Record World := {
  store : content;
  backups : gmap string BackupFile;
  others : gmap string content;
}.

Definition set_store (c : content) (w : World) : World :=
  {| store := c; backups := backups w; others := others w |}.

Definition set_backups (b : gmap string BackupFile) (w : World) : World :=
  {| store := store w; backups := b; others := others w |}.

(** A path handed to [restore_backup]: a [*.db.gz] file of the backups
    directory, or another file that is not the store file. *)
Inductive Path :=
| InBackups (name : string)
| Elsewhere (path : string).

Definition read_file (w : World) (p : Path) : option content :=
  match p with
  | InBackups name => data <$> backups w !! name
  | Elsewhere path => others w !! path
  end.

(** [Path(p).exists()] *)
Definition path_exists (w : World) (p : Path) : bool :=
  match read_file w p with Some _ => true | None => false end.

Definition older_first (a b : string * BackupFile) : bool :=
  (st_mtime a.2 <=? st_mtime b.2)%N.

(** [backups[:-keep]]; [-0] is [0], so [keep = 0] takes nothing. *)
Definition all_but_last {A : Type} (keep : nat) (l : list A) : list A :=
  match keep with
  | O => []
  | S _ => take (length l - keep) l
  end.

(** The names [_cleanup_old_backups] unlinks. *)
Definition to_unlink (keep : nat) (dir : gmap string BackupFile)
    : list string :=
  let sorted := sort_by older_first (map_to_list dir) in
  if bool_decide (keep < length sorted)
  then map fst (all_but_last keep sorted)
  else [].

(** The loop of [unlink] calls. *)
Definition unlink_all (names : list string) (dir : gmap string BackupFile)
    : gmap string BackupFile :=
  fold_left (fun dir name => delete name dir) names dir.

(** [_cleanup_old_backups] *)
Definition _cleanup_old_backups (keep : nat) (w : World) : World :=
  set_backups (unlink_all (to_unlink keep (backups w)) (backups w)) w.

Definition backup_name (backup_type timestamp : string) : string :=
  "test_data_" +:+ backup_type +:+ "_" +:+ timestamp +:+ ".db.gz".

(** [create_backup]: the world it leaves and the name of the file it
    wrote.  [timestamp] is [datetime.now().strftime("%Y%m%d_%H%M%S")]
    and [mtime] the time the file system stamps on the file. *)
Definition create_backup (backup_type timestamp : string) (mtime : N)
    (w : World) : World * string :=
  let name := backup_name backup_type timestamp in
  let written :=
    set_backups
      (<[name := {| st_mtime := mtime; data := Gz (store w) |}]> (backups w))
      w in
  (_cleanup_old_backups 10 written, name).

(** [restore_backup].  The store file is opened for writing, and so
    emptied, before the first byte of the backup is read; what the copy
    has written when an exception ends it stays in the store file. *)
Definition restore_backup (backup_path : Path) (timestamp : string)
    (mtime : N) (w : World) : World * outcome bool :=
  if negb (path_exists w backup_path) then (w, Returned false) else
  let w1 := (create_backup "pre_restore" timestamp mtime w).1 in
  match read_file w1 backup_path with
  | None => (w1, Raised FileNotFoundError)
  | Some c =>
      match gunzip c with
      | (image, None) => (set_store image w1, Returned true)
      | (written, Some e) => (set_store written w1, Raised e)
      end
  end.

(** One [create_backup] call of a run: its tag and the two readings of
    the clock. *)
Record BackupCall := {
  bc_type : string;
  bc_timestamp : string;
  bc_mtime : N;
}.

Definition backup_call (w : World) (c : BackupCall) : World :=
  (create_backup (bc_type c) (bc_timestamp c) (bc_mtime c) w).1.

Definition run_backups (calls : list BackupCall) (w : World) : World :=
  fold_left backup_call calls w.

(** ** The backup on start *)

(** [max(backups, key=lambda p: p.stat().st_mtime)] on a list that is
    not empty: the first of the files stamped latest. *)
Definition latest_of (first : string * BackupFile)
    (rest : list (string * BackupFile)) : string * BackupFile :=
  fold_left
    (fun best p => if (st_mtime best.2 <? st_mtime p.2)%N then p else best)
    rest first.

(** [_get_latest_backup].  A [datetime] without time zone is the number
    of microseconds it stands from a fixed one; [fromtimestamp] is
    [datetime.fromtimestamp], which depends on the time zone of the
    machine. *)
Definition _get_latest_backup (fromtimestamp : N -> Z) (w : World)
    : option Z :=
  match map_to_list (backups w) with
  | [] => None
  | first :: rest => Some (fromtimestamp (st_mtime (latest_of first rest).2))
  end.

(** [timedelta(hours=24)] *)
Definition hours_24 : Z := 24 * 3600 * 1000000.

(** [_auto_backup], which ends [__init__]; [now] is its
    [datetime.now()], [timestamp] and [mtime] are the readings of the
    [create_backup] it calls. *)
Definition _auto_backup (fromtimestamp : N -> Z) (now : Z)
    (timestamp : string) (mtime : N) (w : World) : World :=
  match _get_latest_backup fromtimestamp w with
  | None => (create_backup "auto" timestamp mtime w).1
  | Some latest_backup =>
      if (hours_24 <? now - latest_backup)%Z
      then (create_backup "auto" timestamp mtime w).1
      else w
  end.

(** ** The report and its directory ([scripts/html_generator.py]) *)

(** The integer a JSON value holds, zero for any other value. *)
Definition int_of (j : json) : Z :=
  match j with JInt z => z | _ => 0%Z end.

Module HTMLReportGenerator.

(** [stats.get('status_distribution', {})], where [stats] is a [dict]
    as [get_statistics] and [_calculate_stats] build it: under that key
    a [dict] of integer counts by status. *)
Definition status_distribution_of (stats : json) : list (string * json) :=
  match stats with
  | JObj members =>
      match Dict.get "status_distribution" members with
      | Some (JObj status_distribution) => status_distribution
      | _ => []
      end
  | _ => []
  end.

(** The statements [_generate_summary] starts with: [total] is the sum
    of the counts, [passed] the count of the status [passed], and
    [coverage] the percentage the summary shows, [passed * 100 // total]
    or 0 for no count. *)
Definition coverage (stats : json) : Z :=
  let status_distribution := status_distribution_of stats in
  let total :=
    foldr Z.add 0%Z (map (fun kv => int_of kv.2) status_distribution) in
  let passed :=
    match Dict.get "passed" status_distribution with
    | Some count => int_of count
    | None => 0%Z
    end in
  if (0 <? total)%Z then (passed * 100 / total)%Z else 0%Z.

(** [sort(key=os.path.getmtime, reverse=True)]: the latest first, files
    of one time in the order they had. *)
Definition latest_report_first (a b : string * N) : bool := (b.2 <=? a.2)%N.

(** [_cleanup_old_reports].  [reports] holds the files that
    [glob("test_results/report_*.html")] lists, by path, each with its
    modification time; [removable] tells of a path whether [os.remove]
    succeeds on it, the [OSError] of one that fails being passed
    over.  The line it prints is left out. *)
Definition _cleanup_old_reports (max_reports : nat)
    (removable : string -> bool) (reports : gmap string N) : gmap string N :=
  let report_files := map_to_list reports in
  if bool_decide (length report_files <= max_reports) then reports else
  let files_to_delete :=
    drop max_reports (sort_by latest_report_first report_files) in
  fold_left
    (fun dir file => if removable file.1 then delete file.1 dir else dir)
    files_to_delete reports.

End HTMLReportGenerator.

(** ** Lists of names ([scripts/command_extractor.py]) *)

Module CommandExtractor.

(** [str.isspace] on one character. *)
Definition is_space (c : ascii) : bool :=
  let n := N_of_ascii c in
  (((9 <=? n) && (n <=? 13)) || ((28 <=? n) && (n <=? 32))
   || (n =? 133) || (n =? 160))%N.

Fixpoint lstrip (p : ascii -> bool) (s : string) : string :=
  match s with
  | EmptyString => EmptyString
  | String c s' => if p c then lstrip p s' else s
  end.

Fixpoint rstrip (p : ascii -> bool) (s : string) : string :=
  match s with
  | EmptyString => EmptyString
  | String c s' =>
      match rstrip p s' with
      | EmptyString => if p c then EmptyString else String c EmptyString
      | r => String c r
      end
  end.

(** [s.strip()] with [p] for [is_space], [s.strip(chars)] with [p] for
    the characters of [chars]. *)
Definition strip (p : ascii -> bool) (s : string) : string :=
  rstrip p (lstrip p s).

(** [s.split(sep)] for a separator of one character. *)
Fixpoint split (sep : ascii) (s : string) : list string :=
  match s with
  | EmptyString => [EmptyString]
  | String c s' =>
      if Ascii.eqb c sep then EmptyString :: split sep s'
      else match split sep s' with
           | piece :: rest => String c piece :: rest
           | [] => [String c EmptyString]
           end
  end.

(** [re.sub(r'\s+', ' ', s)]; [in_run] tells that the character before
    was white space. *)
Fixpoint collapse (in_run : bool) (s : string) : string :=
  match s with
  | EmptyString => EmptyString
  | String c s' =>
      if is_space c
      then if in_run then collapse true s' else String " " (collapse true s')
      else String c (collapse false s')
  end.

(** The list [subcommands] of [_parse_single_command]: the pieces of
    the text between its commas, each stripped of white space, then of
    double quotes, then of single quotes. *)
Definition subcommands (subcmds_text : string) : list string :=
  map (fun s =>
         strip (Ascii.eqb "'")
           (strip (Ascii.eqb (ascii_of_N 34)) (strip is_space s)))
      (split "," subcmds_text).

(** The list [subcmd_names] of [_parse_command_module]: the text has
    its white space collapsed; the pieces between its commas that are
    not blank are kept, each stripped of white space, then of double
    quotes. *)
Definition subcmd_names (subcmds_text : string) : list string :=
  map (fun s => strip (Ascii.eqb (ascii_of_N 34)) (strip is_space s))
      (filter (fun s => strip is_space s <> EmptyString)
              (split "," (collapse false subcmds_text))).

End CommandExtractor.

(** ** Vocabulary of the properties *)

(** The pair a record stands for, a missing subcommand read as the empty
    one. *)
Definition pair_of (m : Merged) : string * string :=
  (m_command m, or_empty (m_subcommand m)).

(** The pairs of the [test_results] rows. *)
Definition history_pairs (db : Db) : list (string * string) :=
  map (fun r => (command r, subcommand r)) (test_results db).

(** The pairs a document declares: every command, with the empty
    subcommand, and every subcommand of it. *)
Definition declared_pairs (doc : RegistryDoc) : list (string * string) :=
  flat_map
    (fun cmd : string * CmdInfo =>
       (cmd.1, "") :: map (fun sub : string * SubInfo => (cmd.1, sub.1))
                          (cmd_subcommands cmd.2))
    doc.

(** The same without the commands whose description is empty. *)
Definition described_pairs (doc : RegistryDoc) : list (string * string) :=
  flat_map
    (fun cmd : string * CmdInfo =>
       (if String.eqb (cmd_description cmd.2) "" then [] else [(cmd.1, "")])
       ++ map (fun sub : string * SubInfo => (cmd.1, sub.1))
              (cmd_subcommands cmd.2))
    doc.

(** A document as [json.load] builds it, every [dict] with its keys
    once, in which no subcommand has the empty name. *)
Definition doc_wf (doc : RegistryDoc) : Prop :=
  NoDup (map fst doc)
  /\ Forall (fun cmd : string * CmdInfo =>
               NoDup (map fst (cmd_subcommands cmd.2))
               /\ "" ∉ map fst (cmd_subcommands cmd.2))
            doc.

#[global] Instance doc_wf_dec doc : Decision (doc_wf doc).
Proof. unfold doc_wf. apply _. Defined.

(** What a row holds besides its two times. *)
Definition entry_payload (e : CommandRegistryEntry) : string * string * bool :=
  (description e, aliases e, is_active e).

(** What a row holds besides [last_modified]. *)
Definition entry_but_last_modified (e : CommandRegistryEntry)
    : string * string * string * bool :=
  (description e, aliases e, discovered_at e, is_active e).

Definition row_key (row : string * string * string * list string)
    : string * string :=
  (row.1.1.1, row.1.1.2).

Definition row_payload (row : string * string * string * list string)
    : string * string * bool :=
  (row.1.2, aliases_text row.2, true).

(** The payload the statements leave under [k], given the one before. *)
Definition overwrite (k : string * string)
    (acc : option (string * string * bool))
    (row : string * string * string * list string)
    : option (string * string * bool) :=
  if decide (row_key row = k) then Some (row_payload row) else acc.

(** Every [dict] of the value has each of its keys once, as every
    [dict] of Python has. *)
Fixpoint unique_keys (j : json) : Prop :=
  match j with
  | JArr items => foldr (fun x acc => unique_keys x /\ acc) True items
  | JObj members =>
      NoDup (map fst members)
      /\ foldr (fun kv acc => unique_keys kv.2 /\ acc) True members
  | _ => True
  end.

(** Two values with the same content: equal but for the order in which
    their [dict]s, at any depth, hold their items. *)
#[local] Unset Elimination Schemes.
Inductive same_content : json -> json -> Prop :=
| same_null : same_content JNull JNull
| same_bool b : same_content (JBool b) (JBool b)
| same_int z : same_content (JInt z) (JInt z)
| same_float r : same_content (JFloat r) (JFloat r)
| same_str s : same_content (JStr s) (JStr s)
| same_arr l1 l2 :
    Forall2 same_content l1 l2 -> same_content (JArr l1) (JArr l2)
| same_obj m1 m m2 :
    m1 ≡ₚ m ->
    Forall2 (fun a b : string * json => a.1 = b.1 /\ same_content a.2 b.2)
            m m2 ->
    same_content (JObj m1) (JObj m2).
#[local] Set Elimination Schemes.

(** The name of the file a call writes, and the file. *)
Definition call_name (c : BackupCall) : string :=
  backup_name (bc_type c) (bc_timestamp c).

Definition call_entry (st : content) (c : BackupCall) : string * BackupFile :=
  (call_name c, {| st_mtime := bc_mtime c; data := Gz st |}).

(** The last [n] elements of a list. *)
Definition last_n {A : Type} (n : nat) (l : list A) : list A :=
  drop (length l - n) l.

(** A file of the directory stamped later than [f]. *)
Definition newer_than (f : BackupFile) (kv : string * BackupFile) : Prop :=
  (st_mtime f < st_mtime kv.2)%N.

#[global] Instance newer_than_dec f kv : Decision (newer_than f kv).
Proof. unfold newer_than. apply _. Defined.

(** A file of the directory other than [name] and no older than [f]. *)
Definition rival (name : string) (f : BackupFile) (kv : string * BackupFile)
    : Prop :=
  kv.1 <> name /\ (st_mtime f <= st_mtime kv.2)%N.

#[global] Instance rival_dec name f kv : Decision (rival name f kv).
Proof. unfold rival. apply _. Defined.

(** An item of a command's [dict] that the migration records: a
    [dict] with the key [status]. *)
Definition recordable (item : string * json) : bool :=
  match item.2 with
  | JObj info => Dict.has "status" info
  | _ => false
  end.

(** The legacy document without what the migration passes over: the
    entries whose content is no [dict], and in the others the items
    that are not recordable. *)
Definition prune_legacy (items : list (string * json))
    : list (string * json) :=
  omap (fun entry : string * json =>
          match entry.2 with
          | JObj content =>
              Some (entry.1, JObj (filter (fun item => recordable item) content))
          | _ => None
          end)
       items.

(** The identifier of the migration's session. *)
Definition migration_session_id (now_py : string) : string :=
  String.substring 0 16
    (SHA256.hexdigest ("migration" +:+ "migration" +:+ "migration" +:+ now_py)).

(** The [dict] made up for a pair without result. *)
Definition untested_dict (c : string) (s : option string) (d : string)
    (a : list string) : json :=
  JObj [ ("command", JStr c); ("subcommand", opt_str s);
         ("status", JStr "untested"); ("tested_at", JStr "Never");
         ("notes", JStr ""); ("description", JStr d);
         ("aliases", JArr (map JStr a));
         ("error_output", JNull); ("execution_time_ms", JNull) ].

(** A lower-case hexadecimal digit. *)
Definition is_hex (c : ascii) : bool :=
  let n := N_of_ascii c in
  (((48 <=? n) && (n <=? 57)) || ((97 <=? n) && (n <=? 102)))%N.

(** The entry of a statistics [dict] under a key. *)
Definition stat (key : string) (stats : json) : option json :=
  match stats with
  | JObj members => Dict.get key members
  | _ => None
  end.

(** A record that comes from a stored result. *)
Definition is_tested (m : Merged) : bool :=
  match m with
  | Latest _ _ _ _ _ _ _ _ _ => true
  | Untested _ _ _ _ => false
  end.

(** The records of stored results, and the number of those of a
    status. *)
Definition tested (results : list Merged) : list Merged :=
  filter (fun m => is_tested m = true) results.

Definition tested_with (st : string) (results : list Merged) : nat :=
  length (filter (fun m => m_status m = st) (tested results)).

(** The text holds the character. *)
Fixpoint mentions (c : ascii) (s : string) : bool :=
  match s with
  | EmptyString => false
  | String x s' => Ascii.eqb x c || mentions c s'
  end.

(** The order of [ORDER BY command, subcommand] on records. *)
Definition record_le (a b : Merged) : Prop :=
  String.ltb (m_command a) (m_command b) = true
  \/ (m_command a = m_command b
      /\ String.leb (or_empty (m_subcommand a)) (or_empty (m_subcommand b))
         = true).








(** A report other than [p] that is no older than the time [t]. *)
Definition no_older (p : string) (t : N) (q : string * N) : Prop :=
  q.1 <> p /\ (t <= q.2)%N.

#[global] Instance no_older_dec p t q : Decision (no_older p t q).
Proof. unfold no_older. apply _. Defined.

(** A text of white space only. *)
Definition blank (s : string) : Prop :=
  forallb CommandExtractor.is_space (list_ascii_of_string s) = true.

(** A [record_test] call for the pair [(c, s)] that [sqlite3] takes:
    one that adds a row of the pair. *)
Definition call_of (c s : string) (k : RecordCall) : Prop :=
  rc_command k = c /\ or_empty (rc_subcommand k) = s
  /\ int64 (rc_execution_time_ms k) = true.

#[global] Instance call_of_dec c s k : Decision (call_of c s k).
Proof. unfold call_of. apply _. Defined.

(** The row holds what the call was given and the time it read. *)
Definition row_of_call (k : RecordCall) (r : TestResult) : Prop :=
  status r = rc_status k /\ tested_at r = rc_now k /\ notes r = rc_notes k
  /\ error_output r = rc_error_output k
  /\ execution_time_ms r = rc_execution_time_ms k.

(** Whether the text [x] occurs in the text [s]. *)
Fixpoint occurs_in (x s : string) : bool :=
  String.prefix x s
  || match s with
     | EmptyString => false
     | String _ s' => occurs_in x s'
     end.

(** The value of a hexadecimal digit. *)
Definition unhex (c : ascii) : N :=
  let n := N_of_ascii c in if (n <? 58)%N then (n - 48)%N else (n - 87)%N.

(** The character that a JSON text begins with, escapes undone, and
    the rest of the text. *)
Definition unescape_head (s : string) : option (ascii * string) :=
  match s with
  | EmptyString => None
  | String c rest =>
      if (N_of_ascii c =? 92)%N then
        match rest with
        | EmptyString => None
        | String e rest' =>
            let n := N_of_ascii e in
            if (n =? 110)%N then Some (ascii_of_N 10, rest')
            else if (n =? 114)%N then Some (ascii_of_N 13, rest')
            else if (n =? 116)%N then Some (ascii_of_N 9, rest')
            else if (n =? 98)%N then Some (ascii_of_N 8, rest')
            else if (n =? 102)%N then Some (ascii_of_N 12, rest')
            else if (n =? 117)%N then
              match rest' with
              | String h3 (String h2 (String h1 (String h0 rest''))) =>
                  Some (ascii_of_N (unhex h3 * 4096 + unhex h2 * 256
                                    + unhex h1 * 16 + unhex h0), rest'')
              | _ => None
              end
            else Some (e, rest')
        end
      else Some (c, rest)
  end.

(** ** Sample data *)

Definition no_info : CmdInfo :=
  {| cmd_description := ""; cmd_aliases := []; cmd_subcommands := [] |}.

(** A document with one command, of which it gives no description. *)
Definition ping_doc : RegistryDoc := [("ping", no_info)].

(** The document of the scenario: [mod] with the subcommand [ban]; and
    [ping] without a description. *)
Definition mod_doc : RegistryDoc :=
  [ ("mod",
     {| cmd_description := "Moderation"; cmd_aliases := ["m"];
        cmd_subcommands :=
          [("ban", {| sub_description := "Ban a member";
                      sub_aliases := ["b"] |})] |});
    ("ping", no_info) ].

(** A document whose command has a subcommand with the empty name, as
    the extractor writes for a list of subcommands that ends in a
    comma. *)
Definition trailing_comma_doc : RegistryDoc :=
  [ ("trivia",
     {| cmd_description := "Trivia game"; cmd_aliases := [];
        cmd_subcommands :=
          [("", {| sub_description := ""; sub_aliases := [] |})] |}) ].

(** The store of the scenario: [trivia] passed, then failed five
    seconds later. *)
Definition trivia_calls : list RecordCall :=
  [ {| rc_now := "2026-01-01 10:00:00"; rc_session_id := "s1";
       rc_command := "trivia"; rc_subcommand := Some "";
       rc_status := "passed"; rc_notes := Some "";
       rc_error_output := ""; rc_execution_time_ms := 120;
       rc_metadata := None |};
    {| rc_now := "2026-01-01 10:00:05"; rc_session_id := "s1";
       rc_command := "trivia"; rc_subcommand := None;
       rc_status := "failed"; rc_notes := Some "";
       rc_error_output := ""; rc_execution_time_ms := 0;
       rc_metadata := None |} ].

Definition trivia_db : Db := record_all trivia_calls empty_db.

(** The same two calls within one second. *)
Definition same_second_db : Db :=
  record_test "2026-01-01 10:00:00" "s1" "trivia" None "failed" (Some "")
    "" 0 None
    (record_test "2026-01-01 10:00:00" "s1" "trivia" None "passed" (Some "")
       "" 120 None empty_db).

(** A store file and an empty backups directory. *)
Definition fresh_world : World :=
  {| store := Bytes "db"; backups := ∅; others := ∅ |}.

(** Fifteen manual backups, one a second. *)
Definition fifteen_calls : list BackupCall :=
  map (fun i : nat =>
         {| bc_type := "manual";
            bc_timestamp :=
              "20260101_1000" +:+ (if (i <? 10)%nat then "0" else "")
              +:+ Json.decimal (Z.of_nat i);
            bc_mtime := 1000 + N.of_nat i |})
      (seq 1 15).

(** Fifteen manual backups within one second. *)
Definition same_second_calls : list BackupCall :=
  map (fun i : nat =>
         {| bc_type := "manual"; bc_timestamp := "20260101_100001";
            bc_mtime := 1000 + N.of_nat i |})
      (seq 1 15).

(** The directory after ten backups. *)
Definition ten_backups_world : World :=
  run_backups (take 10 fifteen_calls) fresh_world.

(** A directory that holds eleven backups, one of them put there by
    hand. *)
Definition crowded_world : World :=
  {| store := Bytes "db";
     backups := list_to_map (map (call_entry (Bytes "db")) (take 11 fifteen_calls));
     others := ∅ |}.

(** A legacy document with one result to migrate among entries of
    other shapes. *)
Definition legacy_doc : list (string * json) :=
  [ ("ping", JObj [ ("_self", JObj [("status", JStr "passed");
                                    ("notes", JStr "ok")]);
                    ("count", JInt 3);
                    ("stub", JObj [("notes", JStr "no status")]) ]);
    ("version", JStr "1.0");
    ("tags", JArr [JStr "a"]) ].

(** A legacy document with nothing to migrate. *)
Definition hollow_doc : list (string * json) :=
  [ ("ping", JObj [ ("count", JInt 3);
                    ("stub", JObj [("notes", JStr "no status")]) ]);
    ("version", JStr "1.0") ].


(** [ping] tested twice and [mod] once, at the time of the first
    [ping]. *)
Definition shared_time_db : Db :=
  record_test "2026-01-01 10:00:00" "s1" "mod" None "passed" (Some "") "" 0 None
    (record_test "2026-01-01 10:00:05" "s1" "ping" None "failed" (Some "")
       "" 0 None
       (record_test "2026-01-01 10:00:00" "s1" "ping" None "passed" (Some "")
          "" 0 None empty_db)).

Definition trivia_info : CmdInfo :=
  {| cmd_description := "Trivia game"; cmd_aliases := ["t"];
     cmd_subcommands := [] |}.

(** A document that describes [trivia]. *)
Definition trivia_doc : RegistryDoc := [("trivia", trivia_info)].

(** A store file, no backup yet, and a plain copy of an older store
    beside them. *)
Definition plain_copy_world : World :=
  {| store := Bytes "db"; backups := ∅;
     others := {[ "old/test_data.db" := Bytes "old db" ]} |}.

(** A store file, no backup yet, and the packed copy of an older store
    beside them. *)
Definition packed_copy_world : World :=
  {| store := Bytes "db"; backups := ∅;
     others := {[ "old/test_data.db.gz" := Gz (Bytes "old db") ]} |}.

(** Seven reports, one a minute. *)
Definition seven_reports : gmap string N :=
  list_to_map
    (map (fun i : nat =>
            ("test_results/report_20260101_100" +:+ Json.decimal (Z.of_nat i)
             +:+ "00.html", (1000 + 60 * N.of_nat i)%N))
         (seq 1 7)).

(** A list of two names as [rustfmt] leaves it, a comma and a line
    break after the last. *)
Definition two_names_text : string :=
  "add, remove" +:+ String "," (String (ascii_of_N 10) "    ").

(** * Properties *)

(** ** The order on text *)

Lemma str_compare_refl (s : string) : String.compare s s = Eq.
Proof.
  induction s as [|c s IH]; simpl; [reflexivity|].
  unfold Ascii.compare. rewrite N.compare_refl. exact IH.
Qed.

Lemma str_compare_lt_trans (a b c : string) :
  String.compare a b = Lt -> String.compare b c = Lt ->
  String.compare a c = Lt.
Proof.
  revert b c. induction a as [|x a IH]; intros [|y b] [|z c]; simpl;
    try discriminate; try reflexivity.
  unfold Ascii.compare.
  destruct (N.compare_spec (N_of_ascii x) (N_of_ascii y));
    destruct (N.compare_spec (N_of_ascii y) (N_of_ascii z));
    destruct (N.compare_spec (N_of_ascii x) (N_of_ascii z));
    try discriminate; try reflexivity; try lia; eauto.
Qed.

Lemma str_leb_iff (a b : string) :
  String.leb a b = true <-> a = b \/ String.compare a b = Lt.
Proof.
  unfold String.leb. split.
  - destruct (String.compare a b) eqn:E; try discriminate; auto.
    left. now apply String.compare_eq_iff.
  - intros [-> | ->]; [now rewrite str_compare_refl | reflexivity].
Qed.

Lemma str_leb_refl (a : string) : String.leb a a = true.
Proof. apply str_leb_iff. now left. Qed.

Lemma str_leb_trans (a b c : string) :
  String.leb a b = true -> String.leb b c = true -> String.leb a c = true.
Proof.
  rewrite !str_leb_iff. intros [-> | H1] [-> | H2]; auto.
  right. eapply str_compare_lt_trans; eauto.
Qed.

(** ** Texts put together *)

Lemma str_app_assoc (a b c : string) : (a +:+ b) +:+ c = a +:+ (b +:+ c).
Proof.
  induction a as [|x a IH]; [reflexivity|].
  change (String x ((a +:+ b) +:+ c) = String x (a +:+ b +:+ c)).
  now rewrite IH.
Qed.

Lemma str_app_inv_head (a b c : string) : a +:+ b = a +:+ c -> b = c.
Proof.
  induction a as [|x a IH]; intros H; [exact H|].
  apply IH. now injection H.
Qed.

Lemma str_app_length (a b : string) :
  String.length (a +:+ b) = String.length a + String.length b.
Proof. induction a as [|x a IH]; simpl; [reflexivity|]. now rewrite IH. Qed.

Lemma prefix_app_l (x a b : string) :
  String.prefix x a = true -> String.prefix x (a +:+ b) = true.
Proof.
  revert a. induction x as [|c x IH]; intros a H.
  - now destruct (a +:+ b).
  - destruct a as [|c' a]; simpl in H; [discriminate|]. simpl.
    destruct (ascii_dec c c'); [now apply IH|discriminate].
Qed.

Lemma occurs_in_unfold (x s : string) :
  occurs_in x s
  = String.prefix x s
    || match s with EmptyString => false | String _ s' => occurs_in x s' end.
Proof. now destruct s. Qed.

Lemma occurs_in_app_r (x a b : string) :
  occurs_in x b = true -> occurs_in x (a +:+ b) = true.
Proof.
  intros H. induction a as [|c a IH]; [exact H|].
  change (String c a +:+ b) with (String c (a +:+ b)).
  rewrite occurs_in_unfold, IH. apply orb_true_r.
Qed.

Lemma occurs_in_app_l (x a b : string) :
  occurs_in x a = true -> occurs_in x (a +:+ b) = true.
Proof.
  induction a as [|c a IH]; intros H.
  - rewrite occurs_in_unfold, orb_false_r in H.
    destruct x; [|discriminate]. rewrite occurs_in_unfold.
    now destruct (EmptyString +:+ b).
  - rewrite occurs_in_unfold in H.
    change (String c a +:+ b) with (String c (a +:+ b)).
    rewrite occurs_in_unfold.
    apply orb_true_iff in H as [H | H].
    + change (String c (a +:+ b)) with (String c a +:+ b).
      now rewrite prefix_app_l.
    + rewrite (IH H). apply orb_true_r.
Qed.

Lemma occurs_in_self (x : string) : occurs_in x x = true.
Proof.
  rewrite occurs_in_unfold.
  replace (String.prefix x x) with true; [reflexivity|].
  symmetry. induction x as [|c x IH]; [reflexivity|].
  simpl. now destruct (ascii_dec c c).
Qed.

Lemma occurs_in_join (x sep : string) (l : list string) :
  x ∈ l -> occurs_in x (Json.join sep l) = true.
Proof.
  induction l as [|y l IH]; intros H; [now apply not_elem_of_nil in H|].
  apply elem_of_cons in H as [-> | H].
  - destruct l; [apply occurs_in_self|].
    apply occurs_in_app_l, occurs_in_self.
  - destruct l as [|z l]; [now apply not_elem_of_nil in H|].
    change (Json.join sep (y :: z :: l))
      with (y +:+ sep +:+ Json.join sep (z :: l)).
    now apply occurs_in_app_r, occurs_in_app_r, IH.
Qed.

(** ** Sorting *)

Section SortingFacts.
Context {A : Type} (le : A -> A -> bool).

Lemma insert_sorted_perm (x : A) (l : list A) :
  insert_sorted le x l ≡ₚ x :: l.
Proof.
  induction l as [|y l IH]; simpl; [done|].
  destruct (le x y); [done|]. rewrite IH. apply Permutation_swap.
Qed.

Lemma sort_by_perm (l : list A) : sort_by le l ≡ₚ l.
Proof.
  induction l as [|x l IH]; simpl; [done|].
  rewrite insert_sorted_perm. now rewrite IH.
Qed.

Lemma sort_by_length (l : list A) : length (sort_by le l) = length l.
Proof. now rewrite sort_by_perm. Qed.

Lemma sort_by_elem (x : A) (l : list A) : x ∈ sort_by le l <-> x ∈ l.
Proof. now rewrite sort_by_perm. Qed.

Hypothesis le_total : forall x y, le x y = true \/ le y x = true.
Hypothesis le_trans :
  forall x y z, le x y = true -> le y z = true -> le x z = true.

Lemma insert_sorted_sorted (x : A) (l : list A) :
  StronglySorted (le_prop le) l ->
  StronglySorted (le_prop le) (insert_sorted le x l).
Proof using le_total le_trans.
  induction 1 as [|y l Hs IH Hy]; simpl.
  - repeat constructor.
  - destruct (le x y) eqn:E.
    + constructor; [now constructor|].
      constructor; [exact E|].
      eapply Forall_impl; [exact Hy|]. intros z Hz. eapply le_trans; eauto.
    + constructor; [exact IH|].
      rewrite insert_sorted_perm. constructor; [|exact Hy].
      destruct (le_total x y) as [H|H]; [congruence|exact H].
Qed.

Lemma sort_by_sorted (l : list A) : StronglySorted (le_prop le) (sort_by le l).
Proof using le_total le_trans.
  induction l as [|x l IH]; simpl; [constructor|].
  now apply insert_sorted_sorted.
Qed.

(** The head of a sorted list is below every element. *)
Lemma sort_by_head (x : A) (rest l : list A) :
  sort_by le l = x :: rest -> forall y, y ∈ l -> le x y = true.
Proof using le_total le_trans.
  intros E y Hy. pose proof (sort_by_sorted l) as Hs. rewrite E in Hs.
  apply (sort_by_elem y) in Hy. rewrite E in Hy.
  apply StronglySorted_inv in Hs as [_ Hall].
  apply elem_of_cons in Hy as [-> | Hy].
  - destruct (le_total x x); assumption.
  - rewrite Forall_forall in Hall. now apply Hall.
Qed.

End SortingFacts.

(** ** The latest status of a pair *)

Lemma newest_first_total (a b : TestResult) :
  newest_first a b = true \/ newest_first b a = true.
Proof. unfold newest_first. apply String.leb_total. Qed.

Lemma newest_first_trans (a b c : TestResult) :
  newest_first a b = true -> newest_first b c = true ->
  newest_first a c = true.
Proof. unfold newest_first. intros H1 H2. eapply str_leb_trans; eauto. Qed.

(** The rows a call adds. *)
Lemma record_test_results (now sid c : string) (sub : option string)
    (st : string) (n : option string) (e : string) (ms : Z)
    (md : option (list (string * json))) (db : Db) :
  test_results (record_test now sid c sub st n e ms md db)
  = test_results db
    ++ (if int64 ms
        then [ {| result_id := (N.of_nat (length (test_results db)) + 1)%N;
                  session_id := sid; command := c;
                  subcommand := or_empty sub; status := st;
                  tested_at := now; notes := n; error_output := e;
                  execution_time_ms := ms;
                  metadata :=
                    Json.dumps false
                      (JObj (match md with Some m => m | None => [] end)) |} ]
        else []).
Proof.
  unfold record_test. destruct (int64 ms); simpl; [reflexivity|].
  now rewrite app_nil_r.
Qed.

(** The rows of a pair after a run of calls: those that were there,
    then one for each call of the pair, in the order of the calls. *)
Lemma record_all_pair (calls : list RecordCall) (db0 : Db) (c s : string) :
  exists rows,
    filter (is_pair c s) (test_results (record_all calls db0))
    = filter (is_pair c s) (test_results db0) ++ rows
    /\ Forall2 row_of_call (filter (call_of c s) calls) rows.
Proof.
  revert db0. induction calls as [|k calls IH]; intros db0.
  - exists []. simpl. rewrite app_nil_r. split; [reflexivity|constructor].
  - destruct (IH (record_call db0 k)) as (rows & Heq & Hall).
    change (record_all (k :: calls) db0)
      with (record_all calls (record_call db0 k)).
    rewrite Heq. unfold record_call at 1. rewrite record_test_results.
    rewrite filter_app, <- app_assoc.
    destruct (decide (call_of c s k)) as [Hk | Hk].
    + destruct Hk as (Hc & Hs & Hms). rewrite Hms.
      rewrite filter_cons_True by (split; assumption).
      rewrite filter_nil. eexists. split; [reflexivity|].
      rewrite filter_cons_True by (repeat split; assumption).
      constructor; [|exact Hall]. repeat split.
    + rewrite (filter_cons_False _ k calls) by exact Hk.
      exists rows. split; [|exact Hall]. f_equal.
      destruct (int64 (rc_execution_time_ms k)) eqn:Hms; [|reflexivity].
      rewrite filter_cons_False; [reflexivity|].
      intros [Hc Hs]. apply Hk. repeat split; assumption.
Qed.

Lemma Forall2_elem_r {A B : Type} (R : A -> B -> Prop) (l : list A)
    (l' : list B) (y : B) :
  Forall2 R l l' -> y ∈ l' -> exists x, x ∈ l /\ R x y.
Proof.
  induction 1 as [|a b l l' Hab _ IH]; intros Hy.
  - now apply not_elem_of_nil in Hy.
  - apply elem_of_cons in Hy as [-> | Hy].
    + exists a. split; [apply list_elem_of_here|exact Hab].
    + destruct (IH Hy) as (x & Hx & Hxy). exists x.
      split; [now apply list_elem_of_further|exact Hxy].
Qed.

Lemma Forall2_elem_l {A B : Type} (R : A -> B -> Prop) (l : list A)
    (l' : list B) (x : A) :
  Forall2 R l l' -> x ∈ l -> exists y, y ∈ l' /\ R x y.
Proof.
  induction 1 as [|a b l l' Hab _ IH]; intros Hx.
  - now apply not_elem_of_nil in Hx.
  - apply elem_of_cons in Hx as [-> | Hx].
    + exists b. split; [apply list_elem_of_here|exact Hab].
    + destruct (IH Hx) as (y & Hy & Hxy). exists y.
      split; [now apply list_elem_of_further|exact Hxy].
Qed.

(** C2.  Take any store and any run of [record_test] calls on it, for
    this pair and for others, and read the status of a pair after the
    run.  The rows of the pair are those the store held, [old], and one
    for each call of the pair that [sqlite3] took, [new] (a call whose
    [execution_time_ms] does not fit 64 bits raises and adds none).
    With neither, the result is the default [{status: untested}].
    Otherwise it is the [dict] of one of them that none of them exceeds
    in [tested_at], with the status, notes, error output and execution
    time that row holds, which for a row of the run are the arguments of
    its call, and its time of recording; which one, among several of
    that time, is the engine's choice. *)
Theorem get_test_status_latest (eng : Engine) (calls : list RecordCall)
    (db0 : Db) (c : string) (sub : option string) :
  let old := filter (is_pair c (or_empty sub)) (test_results db0) in
  let new := filter (call_of c (or_empty sub)) calls in
  let result := get_test_status eng (record_all calls db0) c sub in
  (old = [] /\ new = [] /\ result = JObj [ ("status", JStr "untested") ])
  \/ (exists r,
        r ∈ old
        /\ (forall r', r' ∈ old ->
                       String.leb (tested_at r') (tested_at r) = true)
        /\ (forall k, k ∈ new -> String.leb (rc_now k) (tested_at r) = true)
        /\ result
           = JObj [ ("status", JStr (status r));
                    ("last_tested", JStr (tested_at r));
                    ("notes", opt_str (notes r));
                    ("error_output", JStr (error_output r));
                    ("execution_time_ms", JInt (execution_time_ms r)) ])
  \/ (exists k,
        k ∈ new
        /\ (forall r', r' ∈ old ->
                       String.leb (tested_at r') (rc_now k) = true)
        /\ (forall k', k' ∈ new -> String.leb (rc_now k') (rc_now k) = true)
        /\ result
           = JObj [ ("status", JStr (rc_status k));
                    ("last_tested", JStr (rc_now k));
                    ("notes", opt_str (rc_notes k));
                    ("error_output", JStr (rc_error_output k));
                    ("execution_time_ms", JInt (rc_execution_time_ms k)) ]).
Proof.
  intros old new result. unfold result, get_test_status.
  destruct (record_all_pair calls db0 c (or_empty sub)) as (rows & -> & Hall).
  fold old new in Hall |- *.
  destruct (sort_by newest_first (scan eng (old ++ rows))) as [|r rest] eqn:E.
  - left.
    apply (f_equal length) in E. rewrite sort_by_length in E.
    rewrite (scan_perm eng), length_app in E.
    assert (rows = []) as -> by (destruct rows; [reflexivity|simpl in E; lia]).
    apply Forall2_nil_inv_r in Hall.
    split; [destruct old; [reflexivity|simpl in E; lia]|].
    split; [exact Hall|reflexivity].
  - assert (Hr : r ∈ old ++ rows).
    { rewrite <- (scan_perm eng). apply (sort_by_elem newest_first).
      rewrite E. apply list_elem_of_here. }
    assert (Hmax : forall r', r' ∈ old ++ rows ->
                              String.leb (tested_at r') (tested_at r) = true).
    { intros r' Hr'.
      apply (sort_by_head newest_first newest_first_total newest_first_trans
               r rest _ E).
      now rewrite (scan_perm eng). }
    assert (Hnew : forall k, k ∈ new ->
                             String.leb (rc_now k) (tested_at r) = true).
    { intros k Hk.
      destruct (Forall2_elem_l _ _ _ _ Hall Hk) as (r' & Hr' & _ & Ht & _).
      rewrite <- Ht. apply Hmax, elem_of_app. now right. }
    right. apply elem_of_app in Hr as [Hr | Hr].
    + left. exists r. split; [exact Hr|]. split; [|split; [exact Hnew|reflexivity]].
      intros r' Hr'. apply Hmax, elem_of_app. now left.
    + right.
      destruct (Forall2_elem_r _ _ _ _ Hall Hr) as (k & Hk & Hst & Ht & Hn & He & Hms).
      exists k. split; [exact Hk|]. rewrite <- Ht.
      split; [|split; [exact Hnew|]].
      * intros r' Hr'. apply Hmax, elem_of_app. now left.
      * unfold status_record. now rewrite Hst, Hn, He, Hms.
Qed.

(** ** The merged view of [get_all_test_results] *)

Lemma max_text_spec (l : list string) (m : string) :
  max_text l = Some m ->
  m ∈ l /\ forall x, x ∈ l -> String.leb x m = true.
Proof.
  revert m. induction l as [|s l IH]; intros m; simpl; [discriminate|].
  destruct (max_text l) as [m'|] eqn:E.
  - specialize (IH m' eq_refl) as [Hin Hmax]. intros [= <-].
    destruct (String.leb m' s) eqn:Hle.
    + split; [apply list_elem_of_here|].
      intros x [-> | Hx]%elem_of_cons; [apply str_leb_refl|].
      eapply str_leb_trans; [apply Hmax, Hx | exact Hle].
    + split; [now apply list_elem_of_further|].
      intros x [-> | Hx]%elem_of_cons; [|now apply Hmax].
      destruct (String.leb_total s m') as [H|H]; [exact H|congruence].
  - intros [= <-]. destruct l as [|s' l]; [|simpl in E; now destruct (max_text l)].
    split; [apply list_elem_of_here|].
    intros x [-> | Hx]%elem_of_cons; [apply str_leb_refl|].
    now apply not_elem_of_nil in Hx.
Qed.

Lemma max_text_is_Some (l : list string) (x : string) :
  x ∈ l -> is_Some (max_text l).
Proof.
  destruct l as [|s l]; [intros H; now apply not_elem_of_nil in H|].
  intros _. simpl. destruct (max_text l); eauto.
Qed.

Lemma latest_rows_subset (rows : list TestResult) (r : TestResult) :
  r ∈ latest_rows rows -> r ∈ rows.
Proof. unfold latest_rows. rewrite list_elem_of_filter. tauto. Qed.

(** Every pair of the history has a row among the latest ones. *)
Lemma latest_rows_cover (rows : list TestResult) (r : TestResult) :
  r ∈ rows ->
  exists r', r' ∈ latest_rows rows /\ is_pair (command r) (subcommand r) r'.
Proof.
  intros Hr.
  set (g := (command r, subcommand r)).
  set (ts := map tested_at (filter (is_pair g.1 g.2) rows)).
  assert (Hrg : r ∈ filter (is_pair g.1 g.2) rows).
  { apply list_elem_of_filter. split; [split; reflexivity|exact Hr]. }
  destruct (max_text_is_Some ts (tested_at r)) as [m Hm].
  { apply list_elem_of_fmap. eauto. }
  destruct (max_text_spec ts m Hm) as [Hin _].
  apply list_elem_of_fmap in Hin as (r' & -> & Hr').
  apply list_elem_of_filter in Hr' as [Hp Hr'].
  exists r'. split; [|exact Hp].
  apply list_elem_of_filter. split; [|exact Hr'].
  unfold latest_times. apply list_elem_of_omap. exists g. split; [|exact Hm].
  unfold groups. apply elem_of_remove_dups, list_elem_of_fmap. eauto.
Qed.

Lemma NoDup_fmap_eq {A B : Type} (f : A -> B) (l : list A) (x y : A) :
  NoDup (map f l) -> x ∈ l -> y ∈ l -> f x = f y -> x = y.
Proof.
  induction l as [|a l IH]; simpl; intros Hnd Hx Hy Hxy.
  - now apply not_elem_of_nil in Hx.
  - apply NoDup_cons in Hnd as [Ha Hnd].
    apply elem_of_cons in Hx as [-> | Hx]; apply elem_of_cons in Hy as [-> | Hy];
      auto.
    + exfalso. apply Ha. rewrite Hxy. now apply list_elem_of_fmap_2.
    + exfalso. apply Ha. rewrite <- Hxy. now apply list_elem_of_fmap_2.
Qed.

(** When no two rows share a time, a latest row is the newest of its
    own pair. *)
Lemma latest_rows_newest (rows : list TestResult) (r : TestResult) :
  NoDup (map tested_at rows) ->
  r ∈ latest_rows rows ->
  forall r', r' ∈ rows -> is_pair (command r) (subcommand r) r' ->
             String.leb (tested_at r') (tested_at r) = true.
Proof.
  intros Hnd Hr r' Hr' Hp.
  apply list_elem_of_filter in Hr as [Ht Hr].
  unfold latest_times in Ht.
  apply list_elem_of_omap in Ht as (g & _ & Hm).
  apply max_text_spec in Hm as [Hin Hmax].
  apply list_elem_of_fmap in Hin as (r0 & Ht0 & Hr0).
  apply list_elem_of_filter in Hr0 as [[Hc0 Hs0] Hr0].
  assert (r = r0) as <- by (eapply NoDup_fmap_eq; eauto).
  apply Hmax. apply list_elem_of_fmap. exists r'. split; [reflexivity|].
  apply list_elem_of_filter. split; [|exact Hr'].
  destruct Hp as [Hc Hs]. split; congruence.
Qed.

Lemma latest_rows_one_per_pair (rows : list TestResult) (r1 r2 : TestResult) :
  NoDup (map tested_at rows) ->
  r1 ∈ latest_rows rows -> r2 ∈ latest_rows rows ->
  (command r1, subcommand r1) = (command r2, subcommand r2) -> r1 = r2.
Proof.
  intros Hnd H1 H2 [= Hc Hs].
  pose proof (latest_rows_subset _ _ H1) as H1'.
  pose proof (latest_rows_subset _ _ H2) as H2'.
  eapply NoDup_fmap_eq; eauto.
  apply String.leb_antisym.
  - apply (latest_rows_newest rows r2 Hnd H2 r1 H1'). now split.
  - apply (latest_rows_newest rows r1 Hnd H1 r2 H2'). now split.
Qed.

Lemma elem_of_flat_map {A B : Type} (f : A -> list B) (l : list A) (y : B) :
  y ∈ flat_map f l <-> exists x, x ∈ l /\ y ∈ f x.
Proof.
  rewrite list_elem_of_In, in_flat_map. split; intros (x & Hx & Hy); exists x.
  - now rewrite !list_elem_of_In.
  - now rewrite <- !list_elem_of_In.
Qed.

Lemma elem_of_map {A B : Type} (f : A -> B) (l : list A) (y : B) :
  y ∈ map f l <-> exists x, y = f x /\ x ∈ l.
Proof. apply list_elem_of_fmap. Qed.

Lemma or_none_None (o : option string) : or_none o = None <-> or_empty o = "".
Proof.
  destruct o as [s|]; simpl; [|tauto].
  destruct (String.eqb_spec s ""); split; congruence.
Qed.

Lemma or_none_Some (o : option string) (s : string) :
  or_none o = Some s <-> or_empty o = s /\ s <> "".
Proof.
  destruct o as [s'|]; simpl.
  - destruct (String.eqb_spec s' ""); split.
    + discriminate.
    + intros [-> ?]. congruence.
    + intros [= ->]. auto.
    + intros [-> ?]. reflexivity.
  - split; [discriminate|]. intros [<- H]. congruence.
Qed.

Section Merging.
Context (eng : Engine) (db : Db).

(** The records of the query, before the document is looked at. *)
Let existing : list Merged :=
  map (joined db) (sort_by pair_le (scan eng (latest_rows (test_results db)))).

Let existing_pairs : list (string * option string) :=
  map (fun result => (m_command result, or_none (m_subcommand result)))
      existing.

Lemma selected_perm :
  sort_by pair_le (scan eng (latest_rows (test_results db)))
  ≡ₚ latest_rows (test_results db).
Proof. rewrite sort_by_perm. apply scan_perm. Qed.

Lemma existing_elem (m : Merged) :
  m ∈ existing <-> exists r, m = joined db r /\ r ∈ latest_rows (test_results db).
Proof.
  unfold existing. rewrite elem_of_map.
  split; intros (r & -> & Hr); exists r; (split; [reflexivity|]).
  - now rewrite <- selected_perm.
  - now rewrite selected_perm.
Qed.

Lemma existing_pairs_history (p : string * string) :
  p ∈ map pair_of existing <-> p ∈ history_pairs db.
Proof.
  unfold history_pairs. rewrite !elem_of_map. split.
  - intros (m & -> & Hm). apply existing_elem in Hm as (r & -> & Hr).
    exists r. split; [reflexivity|]. now apply latest_rows_subset.
  - intros (r & -> & Hr).
    destruct (latest_rows_cover _ r Hr) as (r' & Hr' & Hc & Hs).
    exists (joined db r'). split.
    + unfold pair_of. simpl. congruence.
    + apply existing_elem. eauto.
Qed.

Lemma existing_pairs_base (c : string) :
  (c, None) ∈ existing_pairs <-> (c, "") ∈ map pair_of existing.
Proof using Type.
  unfold existing_pairs. rewrite !elem_of_map.
  split; intros (m & [= Hc Hs] & Hm); exists m; (split; [|exact Hm]).
  - unfold pair_of. symmetry in Hs. apply or_none_None in Hs. congruence.
  - symmetry in Hs. apply or_none_None in Hs. congruence.
Qed.

Lemma existing_pairs_sub (c s : string) :
  (c, Some s) ∈ existing_pairs <-> ((c, s) ∈ map pair_of existing /\ s <> "").
Proof using Type.
  unfold existing_pairs. rewrite !elem_of_map. split.
  - intros (m & [= Hc Hs] & Hm). symmetry in Hs.
    apply or_none_Some in Hs as [Hs Hne]. split; [|exact Hne].
    exists m. split; [|exact Hm]. unfold pair_of. congruence.
  - intros [(m & [= Hc Hs] & Hm) Hne]. exists m. split; [|exact Hm].
    assert (or_none (m_subcommand m) = Some s) as ->
      by (apply or_none_Some; auto).
    congruence.
Qed.

(** What the loop appends for one command. *)
Lemma synthesized_elem (cmd : string * CmdInfo) (m : Merged) :
  m ∈ synthesized existing_pairs cmd <->
  (m = Untested cmd.1 None (cmd_description cmd.2) (cmd_aliases cmd.2)
   /\ ((cmd.1, None) ∉ existing_pairs) /\ cmd_description cmd.2 <> "")
  \/ (exists sub,
        sub ∈ cmd_subcommands cmd.2
        /\ m = Untested cmd.1 (Some sub.1) (sub_description sub.2)
                 (sub_aliases sub.2)
        /\ ((cmd.1, Some sub.1) ∉ existing_pairs)).
Proof using Type.
  unfold synthesized. rewrite elem_of_app, elem_of_flat_map. split.
  - intros [H | (sub & Hsub & H)].
    + left.
      destruct (bool_decide ((cmd.1, None) ∉ existing_pairs)) eqn:E1;
        destruct (String.eqb (cmd_description cmd.2) "") eqn:E2;
        simpl in H; try (now apply not_elem_of_nil in H).
      apply list_elem_of_singleton in H. split; [exact H|]. split.
      * now apply bool_decide_eq_true in E1.
      * now apply String.eqb_neq in E2.
    + right. exists sub. split; [exact Hsub|].
      destruct (bool_decide ((cmd.1, Some sub.1) ∉ existing_pairs)) eqn:E;
        [|now apply not_elem_of_nil in H].
      apply list_elem_of_singleton in H. split; [exact H|].
      now apply bool_decide_eq_true in E.
  - intros [(-> & H1 & H2) | (sub & Hsub & -> & H)].
    + left. rewrite bool_decide_eq_true_2 by exact H1.
      apply String.eqb_neq in H2. rewrite H2. apply list_elem_of_here.
    + right. exists sub. split; [exact Hsub|].
      rewrite bool_decide_eq_true_2 by exact H. apply list_elem_of_here.
Qed.

Lemma results_split (file : DocFile) :
  get_all_test_results eng db file
  = existing ++ flat_map (synthesized existing_pairs) (doc_of file).
Proof using Type.
  unfold get_all_test_results, _integrate_with_discovered_commands.
  fold existing. destruct file; simpl; try (now rewrite app_nil_r).
  reflexivity.
Qed.

Lemma synthesized_described (doc : RegistryDoc) (m : Merged) :
  m ∈ flat_map (synthesized existing_pairs) doc ->
  pair_of m ∈ described_pairs doc.
Proof using Type.
  rewrite elem_of_flat_map. intros (cmd & Hcmd & Hm).
  unfold described_pairs. apply elem_of_flat_map. exists cmd.
  split; [exact Hcmd|]. apply elem_of_app.
  apply synthesized_elem in Hm as [(-> & _ & Hd) | (sub & Hsub & -> & _)].
  - left. apply String.eqb_neq in Hd. rewrite Hd. apply list_elem_of_here.
  - right. apply elem_of_map. exists sub. split; [reflexivity|exact Hsub].
Qed.

Lemma described_synthesized (doc : RegistryDoc) (p : string * string) :
  p ∈ described_pairs doc ->
  p ∉ map pair_of existing ->
  p ∈ map pair_of (flat_map (synthesized existing_pairs) doc).
Proof using Type.
  unfold described_pairs. rewrite elem_of_flat_map.
  intros (cmd & Hcmd & Hp) Hnot. apply elem_of_app in Hp as [Hp | Hp].
  - destruct (String.eqb (cmd_description cmd.2) "") eqn:Hd;
      [now apply not_elem_of_nil in Hp|].
    apply list_elem_of_singleton in Hp as ->.
    apply elem_of_map.
    exists (Untested cmd.1 None (cmd_description cmd.2) (cmd_aliases cmd.2)).
    split; [reflexivity|]. apply elem_of_flat_map. exists cmd.
    split; [exact Hcmd|]. apply synthesized_elem. left.
    split; [reflexivity|]. split; [|now apply String.eqb_neq].
    now rewrite existing_pairs_base.
  - apply elem_of_map in Hp as (sub & -> & Hsub).
    apply elem_of_map.
    exists (Untested cmd.1 (Some sub.1) (sub_description sub.2)
              (sub_aliases sub.2)).
    split; [reflexivity|]. apply elem_of_flat_map. exists cmd.
    split; [exact Hcmd|]. apply synthesized_elem. right. exists sub.
    split; [exact Hsub|]. split; [reflexivity|].
    rewrite existing_pairs_sub. tauto.
Qed.

(** The pairs of the view: those of the history and those the document
    declares, a command without description apart. *)
Lemma results_pairs (file : DocFile) (p : string * string) :
  p ∈ map pair_of (get_all_test_results eng db file) <->
  p ∈ history_pairs db \/ p ∈ described_pairs (doc_of file).
Proof using Type.
  rewrite results_split, map_app, elem_of_app, existing_pairs_history.
  split.
  - intros [H | H]; [now left|right].
    apply elem_of_map in H as (m & -> & Hm). now apply synthesized_described.
  - intros [H | H]; [now left|].
    destruct (decide (p ∈ map pair_of existing)) as [Hin | Hnot].
    + left. now apply existing_pairs_history.
    + right. now apply described_synthesized.
Qed.

Lemma existing_pairs_NoDup :
  NoDup (map tested_at (test_results db)) -> NoDup (map pair_of existing).
Proof using Type.
  intros Hnd. unfold existing. rewrite map_map.
  apply (NoDup_fmap_2_strong (fun r => pair_of (joined db r))).
  - intros r1 r2 H1 H2 Heq. rewrite selected_perm in H1, H2.
    eapply latest_rows_one_per_pair; eauto.
  - rewrite selected_perm. apply NoDup_filter.
    apply (NoDup_fmap_1 tested_at). exact Hnd.
Qed.

Lemma synthesized_NoDup (cmd : string * CmdInfo) :
  NoDup (map fst (cmd_subcommands cmd.2)) ->
  "" ∉ map fst (cmd_subcommands cmd.2) ->
  NoDup (map pair_of (synthesized existing_pairs cmd)).
Proof using Type.
  intros Hnd Hne. unfold synthesized. rewrite map_app. apply NoDup_app.
  split; [|split].
  - destruct (_ && _); simpl; [apply NoDup_singleton|apply NoDup_nil_2].
  - intros p Hp Hq.
    assert (p = (cmd.1, "")) as ->.
    { destruct (_ && _); simpl in Hp;
        [now apply list_elem_of_singleton in Hp|now apply not_elem_of_nil in Hp]. }
    apply elem_of_map in Hq as (m & Hpm & Hm).
    apply elem_of_flat_map in Hm as (sub & Hsub & Hm).
    destruct (bool_decide _); [|now apply not_elem_of_nil in Hm].
    apply list_elem_of_singleton in Hm as ->. injection Hpm as Hs.
    apply Hne. rewrite Hs. apply elem_of_map. eauto.
  - induction (cmd_subcommands cmd.2) as [|sub subs IH]; simpl;
      [apply NoDup_nil_2|].
    simpl in Hnd, Hne. apply NoDup_cons in Hnd as [Hsub Hnd].
    rewrite map_app. apply NoDup_app. split; [|split].
    + destruct (bool_decide _); simpl; [apply NoDup_singleton|apply NoDup_nil_2].
    + intros p Hp Hq.
      destruct (bool_decide _); [|now apply not_elem_of_nil in Hp].
      apply list_elem_of_singleton in Hp as ->.
      apply elem_of_map in Hq as (m & Hpm & Hm).
      apply elem_of_flat_map in Hm as (sub' & Hsub' & Hm).
      destruct (bool_decide _); [|now apply not_elem_of_nil in Hm].
      apply list_elem_of_singleton in Hm as ->. injection Hpm as Hs.
      apply Hsub. rewrite Hs. apply elem_of_map. eauto.
    + apply IH; [exact Hnd|].
      intros H. apply Hne. now apply list_elem_of_further.
Qed.

Lemma synthesized_command (cmd : string * CmdInfo) (m : Merged) :
  m ∈ synthesized existing_pairs cmd -> m_command m = cmd.1.
Proof using Type.
  intros [(-> & _) | (sub & _ & -> & _)]%synthesized_elem; reflexivity.
Qed.

Lemma appended_NoDup (doc : RegistryDoc) :
  doc_wf doc ->
  NoDup (map pair_of (flat_map (synthesized existing_pairs) doc)).
Proof using Type.
  intros [Hkeys Hsubs]. induction doc as [|cmd doc IH]; simpl;
    [apply NoDup_nil_2|].
  simpl in Hkeys. apply NoDup_cons in Hkeys as [Hcmd Hkeys].
  apply Forall_cons in Hsubs as [[Hnd Hne] Hsubs].
  rewrite map_app. apply NoDup_app. split; [|split].
  - now apply synthesized_NoDup.
  - intros p Hp Hq.
    apply elem_of_map in Hp as (m & -> & Hm).
    apply elem_of_map in Hq as (m' & Heq & Hm').
    apply elem_of_flat_map in Hm' as (cmd' & Hcmd' & Hm').
    apply synthesized_command in Hm, Hm'.
    apply Hcmd. apply elem_of_map. exists cmd'. split; [|exact Hcmd'].
    injection Heq as Hc _. congruence.
  - now apply IH.
Qed.

(** At most one record for a pair, when no two rows share a time. *)
Lemma results_NoDup (file : DocFile) :
  NoDup (map tested_at (test_results db)) ->
  doc_wf (doc_of file) ->
  NoDup (map pair_of (get_all_test_results eng db file)).
Proof using Type.
  intros Hnd Hwf. rewrite results_split, map_app. apply NoDup_app.
  split; [now apply existing_pairs_NoDup|]. split; [|now apply appended_NoDup].
  intros p Hp Hq.
  apply elem_of_map in Hq as (m & -> & Hm).
  apply elem_of_flat_map in Hm as (cmd & Hcmd & Hm).
  apply synthesized_elem in Hm as [(-> & Hnot & _) | (sub & Hsub & -> & Hnot)].
  - apply Hnot. now apply existing_pairs_base.
  - apply Hnot. apply existing_pairs_sub. split; [exact Hp|].
    destruct Hwf as [_ Hwf]. rewrite Forall_forall in Hwf.
    destruct (Hwf cmd Hcmd) as [_ Hne].
    intros Hempty. apply Hne. apply elem_of_map. exists sub.
    split; [|exact Hsub]. simpl in Hempty. congruence.
Qed.

End Merging.

(** C1, as the code has it.  The pairs of the records
    [get_all_test_results] returns, a missing subcommand read as the
    empty one, are those of the [test_results] rows together with those
    the registry document declares, a command counting only when its
    description is not empty; a missing or malformed document declares
    nothing.  When no two rows share their [tested_at] and the document
    is well formed, the list holds at most one record for a pair. *)
Theorem get_all_test_results_pairs (eng : Engine) (db : Db) (file : DocFile) :
  let results := get_all_test_results eng db file in
  (forall p, p ∈ map pair_of results <->
             p ∈ history_pairs db \/ p ∈ described_pairs (doc_of file))
  /\ (NoDup (map tested_at (test_results db)) ->
      doc_wf (doc_of file) ->
      NoDup (map pair_of results)).
Proof.
  split.
  - intros p. apply results_pairs.
  - apply results_NoDup.
Qed.

(** The claim as the specification words it fails where the document
    declares a command without a description: [ping] is declared, and
    no record of the view has its pair. *)
Lemma undescribed_command_has_no_record :
  ("ping", "") ∈ history_pairs trivia_db ++ declared_pairs mod_doc
  /\ ("ping", "") ∉ map pair_of
                      (get_all_test_results rowid_engine trivia_db
                         (DocLoaded mod_doc)).
Proof. split; compute_done. Qed.

Lemma get_all_test_results_pairs_witness :
  NoDup (map pair_of
           (get_all_test_results rowid_engine trivia_db (DocLoaded mod_doc))).
Proof.
  apply (proj2 (get_all_test_results_pairs rowid_engine trivia_db
                  (DocLoaded mod_doc))); compute_done.
Defined.

(** Two results of one pair recorded within one second both carry the
    latest time of the pair, and the view has both. *)
Example same_second_results_both_listed :
  map pair_of (get_all_test_results rowid_engine same_second_db DocMissing)
  = [("trivia", ""); ("trivia", "")].
Proof. vm_compute. reflexivity. Qed.

(** ** Commands that were never tested *)

Lemma history_pairs_latest (eng : Engine) (db : Db) (c s : string) :
  (c, s) ∉ history_pairs db ->
  (c, s) ∉ map pair_of
             (map (joined db)
                (sort_by pair_le (scan eng (latest_rows (test_results db))))).
Proof. intros H Hin. apply H. now apply (existing_pairs_history eng db). Qed.

(** Every record of the view is in the text a snapshot stores. *)
Lemma snapshot_data_holds (eng : Engine) (now_iso day_ago : string)
    (file : DocFile) (db : Db) (d : json) :
  d ∈ map to_dict (get_all_test_results eng db file) ->
  occurs_in (Json.dumps false d)
    (Json.dumps false (build_snapshot_data eng now_iso day_ago file db)) = true.
Proof.
  intros Hd. unfold build_snapshot_data.
  set (results := map to_dict _) in *.
  set (stats := get_statistics _ _ _).
  change (Json.dumps false (JObj [ ("timestamp", JStr now_iso);
                                   ("results", JArr results);
                                   ("statistics", stats) ]))
    with ("{" +:+ (Json.item ("timestamp", Json.dumps false (JStr now_iso))
                   +:+ ", "
                   +:+ (Json.quote "results" +:+ ": "
                           +:+ ("[" +:+ Json.join ", "
                                       (map (Json.dumps false) results)
                             +:+ "]"))
                   +:+ ", " +:+ Json.item ("statistics", Json.dumps false stats))
          +:+ "}").
  apply occurs_in_app_r, occurs_in_app_l.
  apply occurs_in_app_r, occurs_in_app_r, occurs_in_app_l.
  apply occurs_in_app_r, occurs_in_app_r.
  apply occurs_in_app_r, occurs_in_app_l.
  apply occurs_in_join. apply elem_of_map. now exists d.
Qed.

Lemma to_dict_untested (m : Merged) (c : string) (s : option string)
    (d : string) (a : list string) :
  to_dict m = untested_dict c s d a -> m = Untested c s d a.
Proof.
  destruct m as [c' s' st t n e ms d' a'|c' s' d' a'];
    unfold to_dict, untested_dict; intros H; [discriminate|].
  injection H as Hc Hs Hd Ha.
  assert (s' = s) as -> by (destruct s', s; simpl in Hs; congruence).
  assert (a' = a) as ->.
  { revert a Ha. induction a' as [|x a' IH]; intros [|y a] Ha; simpl in Ha;
      try discriminate; [reflexivity|].
    injection Ha as -> Ha. f_equal. now apply IH. }
  congruence.
Qed.

(** C3, as the code has it.  With the document loaded, a subcommand it
    declares, and a command it declares with a description that is not
    empty, has in the view the made-up [dict] of status [untested] and
    time [Never] with the document's description and aliases whenever
    [test_results] has no row of the pair; a command it declares with
    an empty description has no made-up [dict] of its own.  The made-up
    records do reach the store: [create_snapshot] leaves
    [test_results], [test_sessions] and [command_registry] as they
    were, and the text it stores in the [snapshot_data] of its new row
    holds every [dict] of the view, the made-up ones with the others. *)
Theorem untested_synthesized (eng : Engine) (db : Db) (doc : RegistryDoc)
    (c : string) (info : CmdInfo) :
  let dicts := map to_dict (get_all_test_results eng db (DocLoaded doc)) in
  (c, info) ∈ doc ->
  (cmd_description info <> "" ->
   (c, "") ∉ history_pairs db ->
   untested_dict c None (cmd_description info) (cmd_aliases info) ∈ dicts)
  /\ (forall s si,
        (s, si) ∈ cmd_subcommands info ->
        (c, s) ∉ history_pairs db ->
        untested_dict c (Some s) (sub_description si) (sub_aliases si)
        ∈ dicts)
  /\ (cmd_description info = "" ->
      NoDup (map fst doc) ->
      forall d a, untested_dict c None d a ∉ dicts)
  /\ (forall now_iso day_ago now desc,
        let db' :=
          (create_snapshot eng now_iso day_ago now (DocLoaded doc) desc db).1 in
        test_results db' = test_results db
        /\ test_sessions db' = test_sessions db
        /\ command_registry db' = command_registry db
        /\ exists row,
             test_snapshots db' = test_snapshots db ++ [row]
             /\ forall d, d ∈ dicts ->
                          occurs_in (Json.dumps false d) (snapshot_data row)
                          = true).
Proof.
  intros dicts Hc. split; [|split; [|split]].
  - unfold dicts. rewrite results_split. simpl doc_of.
    intros Hd Hno. apply elem_of_map.
    exists (Untested c None (cmd_description info) (cmd_aliases info)).
    split; [reflexivity|]. apply elem_of_app. right.
    apply elem_of_flat_map. exists (c, info). split; [exact Hc|].
    apply synthesized_elem. left. split; [reflexivity|]. split; [|exact Hd].
    rewrite existing_pairs_base. now apply history_pairs_latest.
  - unfold dicts. rewrite results_split. simpl doc_of.
    intros s si Hs Hno. apply elem_of_map.
    exists (Untested c (Some s) (sub_description si) (sub_aliases si)).
    split; [reflexivity|]. apply elem_of_app. right.
    apply elem_of_flat_map. exists (c, info). split; [exact Hc|].
    apply synthesized_elem. right. exists (s, si). split; [exact Hs|].
    split; [reflexivity|]. rewrite existing_pairs_sub. simpl.
    intros [Hin _]. now apply (history_pairs_latest eng db c s).
  - intros Hempty Hnd d a Hin. unfold dicts in Hin.
    apply elem_of_map in Hin as (m & Hm & Hin). symmetry in Hm.
    apply to_dict_untested in Hm. subst m.
    rewrite results_split in Hin. simpl doc_of in Hin.
    apply elem_of_app in Hin as [Hin | Hin].
    + apply existing_elem in Hin as (r & Hr & _). discriminate.
    + apply elem_of_flat_map in Hin as (cmd & Hcmd & Hin).
      apply synthesized_elem in Hin as [(Heq & _ & Hd) | (sub & _ & Heq & _)];
        [|discriminate].
      injection Heq as Hname _ _.
      assert (cmd = (c, info)) as ->
        by (apply (NoDup_fmap_eq fst doc); auto).
      now apply Hd.
  - intros now_iso day_ago now desc db'.
    do 3 (split; [reflexivity|]).
    eexists. split; [reflexivity|]. cbn [snapshot_data].
    intros d Hd. now apply snapshot_data_holds.
Qed.

(** The scenario of the specification: [mod ban] was never tested. *)
Lemma untested_synthesized_witness :
  untested_dict "mod" (Some "ban") "Ban a member" ["b"]
  ∈ map to_dict (get_all_test_results rowid_engine trivia_db (DocLoaded mod_doc)).
Proof.
  apply (proj1 (proj2 (untested_synthesized rowid_engine trivia_db mod_doc "mod"
                  {| cmd_description := "Moderation"; cmd_aliases := ["m"];
                     cmd_subcommands :=
                       [("ban", {| sub_description := "Ban a member";
                                   sub_aliases := ["b"] |})] |}
                  (list_elem_of_here _ _)))
           "ban" {| sub_description := "Ban a member"; sub_aliases := ["b"] |}).
  - apply list_elem_of_here.
  - compute_done.
Defined.

(** The claim as the specification words it fails twice.  For a
    command the document gives no description of: [ping] is declared
    and was never tested, and the view is empty.  And for the store:
    [mod ban] is declared and was never tested, and the row that
    [create_snapshot] adds to [test_snapshots] holds the [dict] made up
    for it. *)
Lemma untested_missing_or_stored :
  (("ping", "") ∈ declared_pairs ping_doc
   /\ history_pairs empty_db = []
   /\ get_all_test_results rowid_engine empty_db (DocLoaded ping_doc) = [])
  /\ (("mod", "ban") ∈ declared_pairs mod_doc
      /\ (("mod", "ban") ∉ history_pairs trivia_db)
      /\ map (fun t =>
                occurs_in
                  (Json.dumps false
                     (untested_dict "mod" (Some "ban") "Ban a member" ["b"]))
                  (snapshot_data t))
             (test_snapshots
                (create_snapshot rowid_engine "2026-11-03T09:46:00.123456"
                   "2026-11-02 09:46:00" "2026-11-03 09:46:00"
                   (DocLoaded mod_doc) "" trivia_db).1)
         = [true]).
Proof.
  split; [split; [compute_done|split; reflexivity]|].
  split; [compute_done|]. split; [compute_done|]. vm_compute. reflexivity.
Qed.

(** ** The empty subcommand *)

(** No subcommand and the empty subcommand are one to [record_test]
    and to [get_test_status]. *)
Lemma subcommand_normalized (eng : Engine) now sid c st n e ms md db :
  record_test now sid c None st n e ms md db
  = record_test now sid c (Some "") st n e ms md db
  /\ get_test_status eng db c None = get_test_status eng db c (Some "").
Proof. split; reflexivity. Qed.

(** A command that has a result, recorded with no subcommand or with
    the empty one, gets no made-up record for itself. *)
Lemma base_command_matched (eng : Engine) (db : Db) (doc : RegistryDoc)
    (c d : string) (a : list string) :
  (c, "") ∈ history_pairs db ->
  Untested c None d a ∉ get_all_test_results eng db (DocLoaded doc).
Proof.
  intros Hin. rewrite results_split. simpl doc_of.
  intros [H | H]%elem_of_app.
  - apply existing_elem in H as (r & Hr & _). discriminate.
  - apply elem_of_flat_map in H as (cmd & _ & H).
    apply synthesized_elem in H as [(Heq & Hnot & _) | (sub & _ & Heq & _)];
      [|discriminate].
    injection Heq as Hc _ _. apply Hnot. rewrite <- Hc.
    apply existing_pairs_base. now apply existing_pairs_history.
Qed.

Lemma base_command_matched_witness :
  Untested "trivia" None "Trivia game" []
  ∉ get_all_test_results rowid_engine trivia_db (DocLoaded trailing_comma_doc).
Proof. apply base_command_matched. compute_done. Defined.

(** C8 at the failing input.  [trivia] has results, recorded with the
    empty subcommand and with none, and the document declares for it a
    subcommand with the empty name: the name is compared as it stands
    with the pairs of the records, where the empty subcommand has become
    [None], so the pair counts as never tested and the view has it
    twice. *)
Theorem empty_subcommand_not_matched :
  let results :=
    get_all_test_results rowid_engine trivia_db (DocLoaded trailing_comma_doc) in
  map pair_of results = [("trivia", ""); ("trivia", "")]
  /\ map m_status results = ["failed"; "untested"]
  /\ map m_tested_at results = ["2026-01-01 10:00:05"; "Never"].
Proof. vm_compute. repeat split; reflexivity. Qed.

(** ** Applying a registry document twice *)

Lemma run_upserts_payload times i rows reg k :
  entry_payload <$> (run_upserts times i rows reg !! k)
  = fold_left (overwrite k) rows (entry_payload <$> (reg !! k)).
Proof.
  revert i reg. induction rows as [|row rows IH]; intros i reg; simpl;
    [reflexivity|].
  rewrite IH. f_equal. unfold insert_or_replace, overwrite, row_key, row_payload.
  destruct row as [[[c s] d] a]. simpl.
  destruct (decide ((c, s) = k)) as [<- | Hne].
  - now rewrite lookup_insert_eq.
  - now rewrite lookup_insert_ne.
Qed.

Lemma overwrite_fold k rows acc :
  fold_left (overwrite k) rows acc
  = match fold_left (overwrite k) rows None with
    | Some v => Some v
    | None => acc
    end.
Proof.
  revert acc. induction rows as [|row rows IH]; intros acc; simpl;
    [reflexivity|].
  rewrite (IH (overwrite k acc row)), (IH (overwrite k None row)).
  destruct (fold_left (overwrite k) rows None); [reflexivity|].
  unfold overwrite. now destruct (decide (row_key row = k)).
Qed.

Lemma overwrite_fold_twice k rows acc :
  fold_left (overwrite k) rows (fold_left (overwrite k) rows acc)
  = fold_left (overwrite k) rows acc.
Proof.
  rewrite (overwrite_fold k rows (fold_left _ _ acc)).
  rewrite (overwrite_fold k rows acc).
  now destruct (fold_left (overwrite k) rows None).
Qed.

(** What a second [update_command_registry] with the same document
    does keep: the description, the aliases and [is_active] of every
    row of [command_registry], and the other tables. *)
Lemma update_command_registry_twice (times1 times2 : nat -> string)
    (commands : RegistryDoc) (db : Db) (k : string * string) :
  let db1 := update_command_registry times1 commands db in
  let db2 := update_command_registry times2 commands db1 in
  entry_payload <$> (command_registry db2 !! k)
  = entry_payload <$> (command_registry db1 !! k)
  /\ test_results db2 = test_results db1
  /\ test_sessions db2 = test_sessions db1
  /\ test_snapshots db2 = test_snapshots db1.
Proof.
  simpl. split; [|repeat split].
  rewrite !run_upserts_payload. apply overwrite_fold_twice.
Qed.

(** C5 at the failing input.  The document that declares [ping] is
    applied to the empty store, and again a day later.  The row of
    [ping] has the description and the aliases of the document after
    both calls; its [discovered_at], a column the statement does not
    name, has moved with [last_modified] to the time of the second
    call, where the claim has every field but [last_modified] stay:
    [INSERT OR REPLACE] deletes the row and the new row takes the
    default of the column. *)
Theorem second_update_resets_discovered_at :
  let db1 :=
    update_command_registry (fun _ => "2026-01-01 10:00:00") ping_doc empty_db in
  let db2 :=
    update_command_registry (fun _ => "2026-01-02 10:00:00") ping_doc db1 in
  command_registry db1 !! ("ping", "")
  = Some {| description := ""; aliases := "[]";
            discovered_at := "2026-01-01 10:00:00";
            last_modified := "2026-01-01 10:00:00"; is_active := true |}
  /\ command_registry db2 !! ("ping", "")
     = Some {| description := ""; aliases := "[]";
               discovered_at := "2026-01-02 10:00:00";
               last_modified := "2026-01-02 10:00:00"; is_active := true |}
  /\ entry_but_last_modified <$> (command_registry db2 !! ("ping", ""))
     <> entry_but_last_modified <$> (command_registry db1 !! ("ping", "")).
Proof. vm_compute. split; [reflexivity|]. split; [reflexivity|discriminate]. Qed.

(** ** The checksum of a snapshot *)

Fixpoint json_ind' (P : json -> Prop)
    (Hnull : P JNull) (Hbool : forall b, P (JBool b))
    (Hint : forall z, P (JInt z)) (Hfloat : forall r, P (JFloat r))
    (Hstr : forall s, P (JStr s))
    (Harr : forall l, Forall P l -> P (JArr l))
    (Hobj : forall m, Forall (fun kv : string * json => P kv.2) m -> P (JObj m))
    (j : json) {struct j} : P j :=
  let go := json_ind' P Hnull Hbool Hint Hfloat Hstr Harr Hobj in
  match j with
  | JNull => Hnull
  | JBool b => Hbool b
  | JInt z => Hint z
  | JFloat r => Hfloat r
  | JStr s => Hstr s
  | JArr l =>
      Harr l
        ((fix all (l : list json) : Forall P l :=
            match l with
            | [] => Forall_nil_2 P
            | x :: l' => Forall_cons_2 P x l' (go x) (all l')
            end) l)
  | JObj m =>
      Hobj m
        ((fix all (m : list (string * json))
            : Forall (fun kv : string * json => P kv.2) m :=
            match m with
            | [] => Forall_nil_2 _
            | kv :: m' => Forall_cons_2 _ kv m' (go kv.2) (all m')
            end) m)
  end.

Lemma unique_keys_arr (l : list json) :
  unique_keys (JArr l) <-> Forall unique_keys l.
Proof.
  simpl. induction l as [|x l IH]; simpl.
  - split; auto.
  - rewrite Forall_cons, IH. reflexivity.
Qed.

Lemma unique_keys_obj (m : list (string * json)) :
  unique_keys (JObj m) <->
  NoDup (map fst m) /\ Forall (fun kv => unique_keys kv.2) m.
Proof.
  simpl. apply and_iff_compat_l. induction m as [|kv m IH]; simpl.
  - split; auto.
  - rewrite Forall_cons, IH. reflexivity.
Qed.

Section SortedUnique.
Context {A : Type} (le : A -> A -> bool).
Hypothesis le_total : forall x y, le x y = true \/ le y x = true.
Hypothesis le_trans :
  forall x y z, le x y = true -> le y z = true -> le x z = true.

(** A list has one sorted arrangement when no two of its elements are
    each below the other. *)
Lemma sorted_perm_eq (l1 l2 : list A) :
  StronglySorted (le_prop le) l1 -> StronglySorted (le_prop le) l2 ->
  l1 ≡ₚ l2 ->
  (forall x y, x ∈ l1 -> y ∈ l1 -> le x y = true -> le y x = true -> x = y) ->
  l1 = l2.
Proof using Type.
  revert l2. induction l1 as [|x l1 IH]; intros l2 Hs1 Hs2 Hp Hanti.
  - now apply Permutation_nil in Hp.
  - destruct l2 as [|y l2]; [now apply Permutation_sym, Permutation_nil in Hp|].
    apply StronglySorted_inv in Hs1 as [Hs1 Hx].
    apply StronglySorted_inv in Hs2 as [Hs2 Hy].
    rewrite Forall_forall in Hx, Hy.
    assert (x = y) as <-.
    { assert (Hxin : x ∈ y :: l2) by (rewrite <- Hp; apply list_elem_of_here).
      assert (Hyin : y ∈ x :: l1) by (rewrite Hp; apply list_elem_of_here).
      apply elem_of_cons in Hxin as [Hxy | Hxin]; [exact Hxy|].
      apply elem_of_cons in Hyin as [Hyx | Hyin]; [now symmetry|].
      apply Hanti; [apply list_elem_of_here|now apply list_elem_of_further
                   |now apply Hx|now apply Hy]. }
    f_equal. apply IH; auto.
    + now apply Permutation_cons_inv in Hp.
    + intros a b Ha Hb. apply Hanti; now apply list_elem_of_further.
Qed.

Lemma sort_by_perm_eq (l1 l2 : list A) :
  l1 ≡ₚ l2 ->
  (forall x y, x ∈ l1 -> y ∈ l1 -> le x y = true -> le y x = true -> x = y) ->
  sort_by le l1 = sort_by le l2.
Proof using le_total le_trans.
  intros Hp Hanti. apply sorted_perm_eq.
  - now apply sort_by_sorted.
  - now apply sort_by_sorted.
  - now rewrite !sort_by_perm.
  - intros x y Hx Hy. apply Hanti; now apply (sort_by_elem le).
Qed.

End SortedUnique.

Lemma key_le_total (a b : string * string) :
  Json.key_le a b = true \/ Json.key_le b a = true.
Proof. apply String.leb_total. Qed.

Lemma key_le_trans (a b c : string * string) :
  Json.key_le a b = true -> Json.key_le b c = true -> Json.key_le a c = true.
Proof. apply str_leb_trans. Qed.

(** [sort_keys=True] makes the text the same for the same content. *)
Lemma dumps_sorted_same (j1 : json) :
  unique_keys j1 ->
  forall j2, same_content j1 j2 -> Json.dumps true j1 = Json.dumps true j2.
Proof.
  induction j1 as [| | | | |l1 IH|m1 IH] using json_ind'; intros Hu j2 Hsame;
    inversion Hsame; subst; clear Hsame; try reflexivity.
  - (* lists *)
    simpl. do 3 f_equal.
    apply unique_keys_arr in Hu.
    match goal with H : Forall2 same_content _ _ |- _ => rename H into Hall end.
    induction Hall as [|x y l1 l2 Hxy Hall IHall]; simpl; [reflexivity|].
    apply Forall_cons in IH as [IHx IH]. apply Forall_cons in Hu as [Hux Hu].
    f_equal; [now apply IHx|]. apply IHall; auto.
  - (* dicts *)
    apply unique_keys_obj in Hu as [Hnd Hu].
    match goal with H : m1 ≡ₚ _ |- _ => rename H into Hp end.
    match goal with H : Forall2 _ _ _ |- _ => rename H into Hall end.
    simpl. do 4 f_equal.
    assert (Hr : map (fun kv : string * json => (kv.1, Json.dumps true kv.2)) m
                 = map (fun kv : string * json => (kv.1, Json.dumps true kv.2)) m2).
    { rewrite Hp in IH, Hu. clear Hp Hnd.
      induction Hall as [|a b m m2 [Hk Hab] Hall IHall]; simpl; [reflexivity|].
      apply Forall_cons in IH as [IHa IH]. apply Forall_cons in Hu as [Hua Hu].
      f_equal; [|now apply IHall].
      rewrite Hk. f_equal. now apply IHa. }
    rewrite <- Hr.
    apply (sort_by_perm_eq Json.key_le key_le_total key_le_trans).
    + now apply Permutation_map.
    + intros a b Ha Hb Hab Hba.
      apply (NoDup_fmap_eq fst
               (map (fun kv : string * json => (kv.1, Json.dumps true kv.2)) m1)
               a b); auto.
      * rewrite map_map. simpl. exact Hnd.
      * now apply String.leb_antisym.
Qed.

Lemma build_snapshot_data_snapshots (eng : Engine) (now_iso day_ago : string)
    (file : DocFile) (v : list TestSnapshot) (db : Db) :
  build_snapshot_data eng now_iso day_ago file (set_test_snapshots v db)
  = build_snapshot_data eng now_iso day_ago file db.
Proof. reflexivity. Qed.

(** [json.dumps] escapes a text so that it can be read back. *)
Lemma unescape_head_escape (c : ascii) (s : string) :
  unescape_head (Json.escape_char c +:+ s) = Some (c, s).
Proof. destruct c as [[] [] [] [] [] [] [] []]; reflexivity. Qed.

Lemma escape_char_length (c : ascii) : 1 <= String.length (Json.escape_char c).
Proof.
  destruct (Json.escape_char c) eqn:E; [|simpl; lia].
  pose proof (unescape_head_escape c "") as H. rewrite E in H. discriminate.
Qed.

Lemma escape_inj_tail (a b t : string) :
  Json.escape a +:+ t = Json.escape b +:+ t -> a = b.
Proof.
  revert b. induction a as [|c a IH]; intros [|c' b] H.
  - reflexivity.
  - exfalso. apply (f_equal String.length) in H.
    change (Json.escape (String c' b))
      with (Json.escape_char c' +:+ Json.escape b) in H.
    change (Json.escape EmptyString +:+ t) with t in H.
    rewrite !str_app_length in H.
    pose proof (escape_char_length c'). lia.
  - exfalso. apply (f_equal String.length) in H.
    change (Json.escape (String c a))
      with (Json.escape_char c +:+ Json.escape a) in H.
    change (Json.escape EmptyString +:+ t) with t in H.
    rewrite !str_app_length in H.
    pose proof (escape_char_length c). lia.
  - change (Json.escape (String c a))
      with (Json.escape_char c +:+ Json.escape a) in H.
    change (Json.escape (String c' b))
      with (Json.escape_char c' +:+ Json.escape b) in H.
    rewrite !str_app_assoc in H.
    apply (f_equal unescape_head) in H.
    rewrite !unescape_head_escape in H.
    injection H as -> H. f_equal. now apply IH.
Qed.

(** The text that is hashed ends with the time of the call. *)
Lemma hashed_text (eng : Engine) (day_ago : string) (file : DocFile)
    (db : Db) :
  exists before,
    forall now_iso,
      Json.dumps true (build_snapshot_data eng now_iso day_ago file db)
      = before +:+ Json.quote now_iso +:+ "}".
Proof.
  unfold build_snapshot_data.
  set (results := JArr _). set (stats := get_statistics _ _ _).
  exists ("{" +:+ Json.item ("results", Json.dumps true results) +:+ ", "
          +:+ Json.item ("statistics", Json.dumps true stats) +:+ ", "
          +:+ Json.quote "timestamp" +:+ ": ").
  intros now.
  assert (E : Json.dumps true
                (JObj [ ("timestamp", JStr now); ("results", results);
                        ("statistics", stats) ])
              = "{" +:+ Json.join ", "
                          [ Json.item ("results", Json.dumps true results);
                            Json.item ("statistics", Json.dumps true stats);
                            Json.quote "timestamp" +:+ ": " +:+ Json.quote now ]
                +:+ "}") by reflexivity.
  rewrite E. cbn [Json.join]. rewrite !str_app_assoc. reflexivity.
Qed.

Lemma hashed_text_differs (eng : Engine) (now1 now2 day_ago : string)
    (file : DocFile) (db : Db) :
  now1 <> now2 ->
  Json.dumps true (build_snapshot_data eng now1 day_ago file db)
  <> Json.dumps true (build_snapshot_data eng now2 day_ago file db).
Proof.
  intros Hne H. apply Hne.
  destruct (hashed_text eng day_ago file db) as (before & Hb).
  rewrite !Hb in H. apply str_app_inv_head in H.
  unfold Json.quote in H. cbv zeta in H.
  rewrite !str_app_assoc in H. apply str_app_inv_head in H.
  now apply escape_inj_tail in H.
Qed.

(** C4, as the code has it.  The checksum is a function of the content
    of [snapshot_data]: two values with the same content, whatever the
    order of the keys of their [dict]s, have one checksum.  That content
    holds the time of the call.  Two [create_snapshot] calls with no
    write between them other than the first call's own row store the
    same checksum when they read the same timestamp and the same
    cutoff of the last day; when they read two timestamps, and the same
    cutoff, the texts they hash differ. *)
Theorem snapshot_checksum_reproducible :
  (forall d1 d2 : json,
     unique_keys d1 -> same_content d1 d2 -> checksum_of d1 = checksum_of d2)
  /\ (forall (eng : Engine) (now_iso day_ago now1 now2 : string)
        (file : DocFile) (desc1 desc2 : string) (db : Db),
       let db1 := (create_snapshot eng now_iso day_ago now1 file desc1 db).1 in
       let db2 := (create_snapshot eng now_iso day_ago now2 file desc2 db1).1 in
       map checksum (test_snapshots db2)
       = map checksum (test_snapshots db)
         ++ [ snapshot_checksum eng now_iso day_ago file db;
              snapshot_checksum eng now_iso day_ago file db ])
  /\ (forall (eng : Engine) (now_iso1 now_iso2 day_ago now1 : string)
        (file : DocFile) (desc1 : string) (db : Db),
       now_iso1 <> now_iso2 ->
       let db1 := (create_snapshot eng now_iso1 day_ago now1 file desc1 db).1 in
       Json.dumps true (build_snapshot_data eng now_iso1 day_ago file db)
       <> Json.dumps true (build_snapshot_data eng now_iso2 day_ago file db1)).
Proof.
  split; [|split].
  - intros d1 d2 Hu Hsame. unfold checksum_of.
    now rewrite (dumps_sorted_same d1 Hu d2 Hsame).
  - intros. unfold db2, db1, create_snapshot. cbn [fst test_snapshots set_test_snapshots].
    rewrite build_snapshot_data_snapshots.
    rewrite !map_app, <- app_assoc. reflexivity.
  - intros eng now_iso1 now_iso2 day_ago now1 file desc1 db Hne db1.
    unfold db1, create_snapshot. cbn [fst].
    rewrite build_snapshot_data_snapshots. now apply hashed_text_differs.
Qed.

(** The same content built in two orders. *)
Lemma snapshot_checksum_reproducible_witness :
  checksum_of
    (JObj [ ("timestamp", JStr "2026-11-03T09:46:00.123456");
            ("results", JArr [JObj [("command", JStr "ping");
                                    ("status", JStr "passed")]]) ])
  = checksum_of
      (JObj [ ("results", JArr [JObj [("status", JStr "passed");
                                      ("command", JStr "ping")]]);
              ("timestamp", JStr "2026-11-03T09:46:00.123456") ]).
Proof.
  apply (proj1 snapshot_checksum_reproducible).
  - apply unique_keys_obj. split; [compute_done|].
    repeat constructor; compute_done.
  - eapply same_obj; [apply Permutation_swap|].
    repeat constructor.
    eapply same_obj; [apply Permutation_swap|]. repeat constructor.
Defined.

(** The claim as the specification words it fails: two calls on the
    empty store, half a millisecond apart, with one cutoff and with
    nothing written between them, store two checksums. *)
Lemma successive_snapshots_differ :
  let db1 :=
    (create_snapshot rowid_engine "2026-11-03T09:46:00.123456"
       "2026-11-02 09:46:00" "2026-11-03 09:46:00" DocMissing "" empty_db).1 in
  let db2 :=
    (create_snapshot rowid_engine "2026-11-03T09:46:00.123999"
       "2026-11-02 09:46:00" "2026-11-03 09:46:00" DocMissing "" db1).1 in
  map checksum (test_snapshots db2)
  = [ "955f25e27f7a231f7ac880772a70ea877249563932868d9cbd78153e0ce381ab";
      "cd8da59ffaf13adb7dd04d6bfee0014d1fa4efa033e9140bbd13218b87012474" ]
  /\ "955f25e27f7a231f7ac880772a70ea877249563932868d9cbd78153e0ce381ab"
     <> "cd8da59ffaf13adb7dd04d6bfee0014d1fa4efa033e9140bbd13218b87012474".
Proof. split; [vm_compute; reflexivity|discriminate]. Qed.

(** ** The digest *)

Example sha256_abc :
  SHA256.hexdigest "abc"
  = "ba7816bf8f01cfea414140de5dae2223b00361a396177a9cb410ff61f20015ad".
Proof. vm_compute. reflexivity. Qed.

Example sha256_two_blocks :
  SHA256.hexdigest "abcdbcdecdefdefgefghfghighijhijkijkljklmklmnlmnomnopnopq"
  = "248d6a61d20638b8e5c026930c3e6039a33ce45964ff2167f6ecedd419db06c1".
Proof. vm_compute. reflexivity. Qed.

(** ** Backups *)

Lemma older_first_total (a b : string * BackupFile) :
  older_first a b = true \/ older_first b a = true.
Proof. unfold older_first. rewrite !N.leb_le. lia. Qed.

Lemma older_first_trans (a b c : string * BackupFile) :
  older_first a b = true -> older_first b c = true -> older_first a c = true.
Proof. unfold older_first. rewrite !N.leb_le. lia. Qed.

Lemma unlink_all_lookup (names : list string) (dir : gmap string BackupFile)
    (k : string) :
  unlink_all names dir !! k = if decide (k ∈ names) then None else dir !! k.
Proof.
  revert dir. induction names as [|n names IH]; intros dir.
  - destruct (decide (k ∈ [])) as [H | _]; [now apply not_elem_of_nil in H|].
    reflexivity.
  - change (unlink_all (n :: names) dir) with (unlink_all names (delete n dir)).
    rewrite IH, lookup_delete.
    destruct (decide (n = k)) as [-> | Hne];
      destruct (decide (k ∈ names)) as [Hin | Hnot];
      destruct (decide (k ∈ _ :: names)) as [Hin' | Hnot']; try reflexivity.
    + exfalso. apply Hnot'. apply list_elem_of_here.
    + exfalso. apply Hnot'. apply list_elem_of_here.
    + exfalso. apply Hnot'. now apply list_elem_of_further.
    + exfalso. apply elem_of_cons in Hin' as [? | ?]; congruence.
Qed.

Lemma unlink_all_size (names : list string) (dir : gmap string BackupFile) :
  NoDup names -> (forall n, n ∈ names -> is_Some (dir !! n)) ->
  size (unlink_all names dir) = size dir - length names.
Proof.
  revert dir. induction names as [|n names IH]; intros dir Hnd Hin;
    [simpl; lia|].
  apply NoDup_cons in Hnd as [Hn Hnd].
  change (unlink_all (n :: names) dir) with (unlink_all names (delete n dir)).
  rewrite IH; [|exact Hnd|].
  - rewrite map_size_delete_Some by (apply Hin, list_elem_of_here).
    simpl. lia.
  - intros m Hm. rewrite lookup_delete_ne by congruence.
    apply Hin. now apply list_elem_of_further.
Qed.

Lemma sorted_dir_perm (dir : gmap string BackupFile) :
  sort_by older_first (map_to_list dir) ≡ₚ map_to_list dir.
Proof. apply sort_by_perm. Qed.

Lemma to_unlink_spec (k : nat) (dir : gmap string BackupFile) :
  let sorted := sort_by older_first (map_to_list dir) in
  to_unlink (S k) dir = map fst (take (length sorted - S k) sorted).
Proof.
  intros sorted. unfold to_unlink. fold sorted. case_bool_decide as H; [reflexivity|].
  replace (length sorted - S k) with 0 by lia. reflexivity.
Qed.

Lemma to_unlink_NoDup (k : nat) (dir : gmap string BackupFile) :
  NoDup (to_unlink (S k) dir).
Proof.
  rewrite to_unlink_spec.
  assert (Hnd : NoDup (map fst (sort_by older_first (map_to_list dir)))).
  { rewrite sorted_dir_perm. apply NoDup_fst_map_to_list. }
  revert Hnd. generalize (sort_by older_first (map_to_list dir)). intros l Hnd.
  rewrite <- (take_drop (length l - S k) l) in Hnd at 1.
  rewrite map_app in Hnd. apply NoDup_app in Hnd. tauto.
Qed.

Lemma to_unlink_present (k : nat) (dir : gmap string BackupFile) (n : string) :
  n ∈ to_unlink (S k) dir -> is_Some (dir !! n).
Proof.
  rewrite to_unlink_spec. intros ([n' f] & -> & H)%elem_of_map.
  apply elem_of_take in H as (i & H & _). apply list_elem_of_lookup_2 in H.
  apply (proj1 (sort_by_elem older_first _ _)) in H.
  apply elem_of_map_to_list in H. eauto.
Qed.

Lemma to_unlink_length (k : nat) (dir : gmap string BackupFile) :
  length (to_unlink (S k) dir) = size dir - S k.
Proof.
  rewrite to_unlink_spec, length_map, length_take, sort_by_length, length_map_to_list.
  lia.
Qed.

Lemma cleanup_size (k : nat) (w : World) :
  size (backups (_cleanup_old_backups (S k) w)) = min (S k) (size (backups w)).
Proof.
  unfold _cleanup_old_backups. cbn [backups set_backups].
  rewrite unlink_all_size.
  - rewrite to_unlink_length. lia.
  - apply to_unlink_NoDup.
  - apply to_unlink_present.
Qed.

Lemma cleanup_lookup (k : nat) (w : World) (n : string) :
  backups (_cleanup_old_backups (S k) w) !! n
  = if decide (n ∈ to_unlink (S k) (backups w)) then None else backups w !! n.
Proof. apply unlink_all_lookup. Qed.

Lemma sorted_app_le {A : Type} (R : A -> A -> Prop) (l1 l2 : list A) (x y : A) :
  StronglySorted R (l1 ++ l2) -> x ∈ l1 -> y ∈ l2 -> R x y.
Proof.
  induction l1 as [|a l1 IH]; simpl; intros Hs Hx Hy.
  - now apply not_elem_of_nil in Hx.
  - apply StronglySorted_inv in Hs as [Hs Ha].
    apply elem_of_cons in Hx as [-> | Hx]; [|now apply IH].
    rewrite Forall_forall in Ha. apply Ha, elem_of_app. now right.
Qed.

(** What goes is no newer than what stays. *)
Lemma cleanup_oldest_first (k : nat) (w : World) (kept deleted : string)
    (f f' : BackupFile) :
  backups (_cleanup_old_backups (S k) w) !! kept = Some f ->
  backups w !! deleted = Some f' ->
  backups (_cleanup_old_backups (S k) w) !! deleted = None ->
  (st_mtime f' <= st_mtime f)%N.
Proof.
  rewrite !cleanup_lookup. intros Hk Hd Hgone.
  destruct (decide (kept ∈ _)) as [|Hkept]; [discriminate|].
  destruct (decide (deleted ∈ _)) as [Hdel|]; [|congruence].
  rewrite to_unlink_spec in Hkept, Hdel.
  set (sorted := sort_by older_first (map_to_list (backups w))) in *.
  assert (Hs : StronglySorted (le_prop older_first) sorted)
    by (apply sort_by_sorted; [apply older_first_total|apply older_first_trans]).
  rewrite <- (take_drop (length sorted - S k) sorted) in Hs.
  apply elem_of_map in Hdel as ([d fd] & Heq & Hdel). simpl in Heq. subst d.
  assert (fd = f') as ->.
  { assert (H : (deleted, fd) ∈ sorted).
    { rewrite <- (take_drop (length sorted - S k) sorted). apply elem_of_app. now left. }
    apply (proj1 (sort_by_elem older_first _ _)) in H.
    apply elem_of_map_to_list in H. congruence. }
  assert (Hin : (kept, f) ∈ drop (length sorted - S k) sorted).
  { assert (H : (kept, f) ∈ sorted).
    { apply (sort_by_elem older_first). now apply elem_of_map_to_list. }
    rewrite <- (take_drop (length sorted - S k) sorted) in H.
    apply elem_of_app in H as [H | H]; [|exact H].
    exfalso. apply Hkept. apply elem_of_map. exists (kept, f). now split. }
  pose proof (sorted_app_le _ _ _ _ _ Hs Hdel Hin) as Hle.
  unfold le_prop, older_first in Hle. simpl in Hle. now apply N.leb_le in Hle.
Qed.

Lemma last_n_snoc {A : Type} (n : nat) (l : list A) (x : A) :
  last_n (S n) (l ++ [x])
  = drop (length (last_n (S n) l) + 1 - S n) (last_n (S n) l ++ [x]).
Proof.
  unfold last_n. rewrite length_app, length_drop. simpl length.
  destruct (decide (length l <= n)) as [Hle | Hgt].
  - replace (length l - S n) with 0 by lia. rewrite drop_0.
    replace (length l + 1 - S n) with 0 by lia.
    replace (length l - 0 + 1 - S n) with 0 by lia. reflexivity.
  - replace (length l - (length l - S n) + 1 - S n) with 1 by lia.
    rewrite !drop_app_le by (rewrite ?length_drop; lia).
    rewrite drop_drop. f_equal. f_equal. lia.
Qed.

Lemma unlink_take (k : nat) (T : list (string * BackupFile)) :
  NoDup (map fst T) ->
  unlink_all (map fst (take k T)) (list_to_map T) = list_to_map (drop k T).
Proof.
  intros Hnd. apply map_eq. intros i. rewrite unlink_all_lookup.
  rewrite <- (take_drop k T) in Hnd. rewrite map_app in Hnd.
  apply NoDup_app in Hnd as (_ & Hdisj & _).
  destruct (decide (i ∈ map fst (take k T))) as [Hin | Hnot].
  - symmetry. apply not_elem_of_list_to_map_1. now apply Hdisj.
  - assert (Heq : (list_to_map T : gmap string BackupFile)
                  = list_to_map (take k T ++ drop k T))
      by now rewrite take_drop.
    rewrite Heq, list_to_map_app, lookup_union_r; [reflexivity|].
    now apply not_elem_of_list_to_map_1.
Qed.

Lemma map_drop {A B : Type} (f : A -> B) (n : nat) (l : list A) :
  map f (drop n l) = drop n (map f l).
Proof. apply fmap_drop. Qed.

Lemma entries_names (st : content) (l : list BackupCall) :
  map fst (map (call_entry st) l) = map call_name l.
Proof. rewrite map_map. reflexivity. Qed.

Lemma entries_sorted (st : content) (l : list BackupCall) :
  StronglySorted N.lt (map bc_mtime l) ->
  StronglySorted (le_prop older_first) (map (call_entry st) l).
Proof.
  induction l as [|c l IH]; simpl; intros Hs; [constructor|].
  apply StronglySorted_inv in Hs as [Hs Hc]. constructor; [now apply IH|].
  rewrite Forall_forall in Hc. apply Forall_forall.
  intros e (c' & -> & Hc')%elem_of_map.
  unfold le_prop, older_first. simpl. apply N.leb_le.
  apply N.lt_le_incl, Hc. apply elem_of_map. eauto.
Qed.

Lemma sorted_lt_NoDup (l : list N) : StronglySorted N.lt l -> NoDup l.
Proof.
  induction 1 as [|x l Hs IH Hx]; [apply NoDup_nil_2|].
  apply NoDup_cons. split; [|exact IH].
  intros Hin. rewrite Forall_forall in Hx. specialize (Hx x Hin). lia.
Qed.

Lemma run_backups_snoc (calls : list BackupCall) (c : BackupCall) (w : World) :
  run_backups (calls ++ [c]) w = backup_call (run_backups calls w) c.
Proof. unfold run_backups. now rewrite fold_left_app. Qed.

Lemma sorted_entries_fixed (st : content) (l : list BackupCall)
    (dir : gmap string BackupFile) :
  NoDup (map call_name l) ->
  StronglySorted N.lt (map bc_mtime l) ->
  dir = list_to_map (map (call_entry st) l) ->
  sort_by older_first (map_to_list dir) = map (call_entry st) l.
Proof.
  intros Hnd Hs ->.
  assert (Hperm : map_to_list (list_to_map (map (call_entry st) l)
                                 : gmap string BackupFile)
                  ≡ₚ map (call_entry st) l).
  { apply map_to_list_to_map. now rewrite entries_names. }
  apply (sorted_perm_eq older_first).
  - apply sort_by_sorted; [apply older_first_total|apply older_first_trans].
  - now apply entries_sorted.
  - now rewrite sort_by_perm.
  - intros x y Hx Hy Hxy Hyx.
    apply (proj1 (sort_by_elem older_first _ _)) in Hx, Hy.
    rewrite Hperm in Hx, Hy.
    apply elem_of_map in Hx as (cx & -> & Hcx).
    apply elem_of_map in Hy as (cy & -> & Hcy).
    unfold older_first in Hxy, Hyx. simpl in Hxy, Hyx.
    apply N.leb_le in Hxy, Hyx.
    f_equal. apply (NoDup_fmap_eq bc_mtime l); auto.
    + now apply sorted_lt_NoDup.
    + lia.
Qed.

(** The directory after a run of backups with distinct names and a
    clock that advances: the last ten of them. *)
Lemma run_backups_window (calls : list BackupCall) (w : World) :
  backups w = ∅ ->
  NoDup (map call_name calls) ->
  StronglySorted N.lt (map bc_mtime calls) ->
  store (run_backups calls w) = store w
  /\ backups (run_backups calls w)
     = list_to_map (map (call_entry (store w)) (last_n 10 calls)).
Proof.
  intros Hempty. induction calls as [|c calls IH] using rev_ind; intros Hnd Hs.
  - split; [reflexivity|]. exact Hempty.
  - rewrite map_app in Hnd, Hs.
    destruct IH as [IHst IHb].
    { apply NoDup_app in Hnd. tauto. }
    { now apply StronglySorted_app_1_l in Hs. }
    rewrite run_backups_snoc. unfold backup_call, create_backup.
    cbn [fst]. split; [exact IHst|].
    set (w1 := run_backups calls w) in *.
    set (L := last_n 10 calls) in *.
    set (T := map (call_entry (store w)) (L ++ [c])).
    assert (Hsuffix : L ++ [c] = drop (length calls - 10) (calls ++ [c])).
    { unfold L, last_n. rewrite drop_app_le by lia. reflexivity. }
    assert (HndT : NoDup (map call_name (L ++ [c]))).
    { rewrite Hsuffix, map_drop. rewrite <- map_app in Hnd.
      eapply sublist_NoDup; [exact Hnd|]. apply sublist_drop. }
    assert (HsT : StronglySorted N.lt (map bc_mtime (L ++ [c]))).
    { rewrite Hsuffix. rewrite <- map_app in Hs.
      rewrite <- (take_drop (length calls - 10) (calls ++ [c])), map_app in Hs.
      now apply StronglySorted_app_1_r in Hs. }
    assert (Hwritten :
      <[backup_name (bc_type c) (bc_timestamp c) :=
          {| st_mtime := bc_mtime c; data := Gz (store w1) |}]> (backups w1)
      = list_to_map T).
    { rewrite IHb, IHst. unfold T.
      rewrite <- (list_to_map_cons _ _ _).
      apply list_to_map_proper.
      - simpl. rewrite entries_names.
        rewrite (Permutation_app_comm L [c]) in HndT. exact HndT.
      - rewrite map_app. simpl. fold (call_entry (store w) c).
        apply Permutation_cons_append. }
    unfold _cleanup_old_backups. cbn [backups set_backups].
    rewrite Hwritten.
    rewrite to_unlink_spec.
    rewrite (sorted_entries_fixed (store w) (L ++ [c]) (list_to_map T) HndT HsT eq_refl).
    fold T. rewrite unlink_take by (unfold T; now rewrite entries_names).
    unfold T. rewrite <- map_drop, length_map.
    rewrite length_app. simpl length.
    unfold L. rewrite <- (last_n_snoc 9 calls c). reflexivity.
Qed.

Lemma filter_none {A : Type} (P : A -> Prop) `{!forall x, Decision (P x)}
    (l : list A) :
  (forall x, x ∈ l -> ~ P x) -> filter P l = [].
Proof.
  induction l as [|a l IH]; intros Hall; [reflexivity|].
  rewrite filter_cons_False by (apply Hall, list_elem_of_here).
  apply IH. intros x Hx. apply Hall. now apply list_elem_of_further.
Qed.

(** A file with [S k] newer files beside it goes. *)
Lemma old_file_unlinked (k : nat) (dir : gmap string BackupFile)
    (name : string) (f : BackupFile) :
  dir !! name = Some f ->
  S k <= length (filter (newer_than f) (map_to_list dir)) ->
  name ∈ to_unlink (S k) dir.
Proof.
  intros Hf Hnewer. rewrite to_unlink_spec.
  set (sorted := sort_by older_first (map_to_list dir)).
  assert (Hin : (name, f) ∈ sorted).
  { apply (sort_by_elem older_first). now apply elem_of_map_to_list. }
  assert (Hs : StronglySorted (le_prop older_first) sorted)
    by (apply sort_by_sorted; [apply older_first_total|apply older_first_trans]).
  assert (Hlen : length (filter (newer_than f) sorted)
                 = length (filter (newer_than f) (map_to_list dir))).
  { apply Permutation_length. unfold sorted. now rewrite sort_by_perm. }
  apply list_elem_of_split in Hin as (l1 & l2 & Hsplit).
  rewrite Hsplit in Hs, Hlen.
  assert (Hl1 : filter (newer_than f) l1 = []).
  { apply filter_none. intros x Hx Hnew.
    assert (Hle : le_prop older_first x (name, f)).
    { eapply StronglySorted_app_1_elem_of; [exact Hs|exact Hx|apply list_elem_of_here]. }
    unfold le_prop, older_first in Hle. simpl in Hle. apply N.leb_le in Hle.
    unfold newer_than in Hnew. lia. }
  rewrite filter_app, Hl1, filter_cons_False in Hlen
    by (unfold newer_than; simpl; lia).
  simpl in Hlen. pose proof (length_filter (newer_than f) l2) as Hl2.
  apply elem_of_map. exists (name, f). split; [reflexivity|].
  apply elem_of_take. exists (length l1). split.
  - rewrite Hsplit. apply list_lookup_middle. reflexivity.
  - rewrite Hsplit, length_app. simpl. lia.
Qed.

Lemma create_backup_written (backup_type timestamp : string) (mtime : N)
    (w : World) :
  (create_backup backup_type timestamp mtime w).1
  = _cleanup_old_backups 10
      (set_backups
         (<[backup_name backup_type timestamp :=
              {| st_mtime := mtime; data := Gz (store w) |}]> (backups w)) w).
Proof. reflexivity. Qed.

(** C6, as the code has it.  After every [create_backup] at most ten
    files are left in the directory; those left are files of the
    directory as the call wrote it, and none of them is older than a
    file that went.  After a run of calls from an empty directory, each
    writing a file of its own name while the clock advances, the
    directory holds the files of the last ten calls: ten of them after
    fifteen calls. *)
Theorem backup_retention :
  (forall (backup_type timestamp : string) (mtime : N) (w : World),
     let written :=
       <[backup_name backup_type timestamp :=
           {| st_mtime := mtime; data := Gz (store w) |}]> (backups w) in
     let w' := (create_backup backup_type timestamp mtime w).1 in
     size (backups w') <= 10
     /\ (forall n f, backups w' !! n = Some f -> written !! n = Some f)
     /\ (forall kept deleted f f',
           backups w' !! kept = Some f ->
           written !! deleted = Some f' ->
           backups w' !! deleted = None ->
           (st_mtime f' <= st_mtime f)%N))
  /\ (forall (calls : list BackupCall) (w : World),
        backups w = ∅ ->
        NoDup (map call_name calls) ->
        StronglySorted N.lt (map bc_mtime calls) ->
        backups (run_backups calls w)
        = list_to_map (map (call_entry (store w)) (last_n 10 calls))
        /\ size (backups (run_backups calls w)) = min 10 (length calls)).
Proof.
  split.
  - intros backup_type timestamp mtime w written w'. unfold w'.
    rewrite create_backup_written. fold written. split; [|split].
    + rewrite cleanup_size. lia.
    + intros n f. rewrite cleanup_lookup. cbn [backups set_backups].
      now destruct (decide (n ∈ _)).
    + intros kept deleted f f' Hk Hd Hgone.
      eapply cleanup_oldest_first; [exact Hk|exact Hd|exact Hgone].
  - intros calls w Hempty Hnd Hs.
    destruct (run_backups_window calls w Hempty Hnd Hs) as [_ Hb].
    split; [exact Hb|]. rewrite Hb, map_size_list_to_map.
    + rewrite length_map. unfold last_n. rewrite length_drop. lia.
    + rewrite entries_names. unfold last_n. rewrite map_drop.
      eapply sublist_NoDup; [exact Hnd|]. apply sublist_drop.
Qed.

(** Fifteen backups, one a second: the last ten are left. *)
Lemma backup_retention_witness :
  backups (run_backups fifteen_calls fresh_world)
  = list_to_map (map (call_entry (Bytes "db")) (drop 5 fifteen_calls))
  /\ size (backups (run_backups fifteen_calls fresh_world)) = 10.
Proof.
  apply (proj2 backup_retention fifteen_calls fresh_world).
  - reflexivity.
  - compute_done.
  - compute_done.
Defined.

(** The claim as the specification words it fails when the calls come
    within one second: they write one file fifteen times, and one file
    is left. *)
Lemma same_second_backups_leave_one :
  length same_second_calls = 15
  /\ size (backups (run_backups same_second_calls fresh_world)) = 1.
Proof. split; vm_compute; reflexivity. Qed.

(** ** Restoring *)

(** A path that does not exist: [False], and nothing is touched. *)
Lemma restore_backup_missing (p : Path) (timestamp : string) (mtime : N)
    (w : World) :
  path_exists w p = false ->
  restore_backup p timestamp mtime w = (w, Returned false).
Proof. unfold restore_backup. now intros ->. Qed.

(** When the safety backup has left the file in place, the store
    becomes what the file unpacks to. *)
Lemma restore_backup_unpacks (p : Path) (timestamp : string) (mtime : N)
    (w : World) (image : content) :
  path_exists w p = true ->
  read_file (create_backup "pre_restore" timestamp mtime w).1 p
  = Some (Gz image) ->
  restore_backup p timestamp mtime w
  = (set_store image (create_backup "pre_restore" timestamp mtime w).1,
     Returned true).
Proof. unfold restore_backup. now intros -> ->. Qed.

Lemma filter_all {A : Type} (P : A -> Prop) `{!forall x, Decision (P x)}
    (l : list A) :
  (forall x, x ∈ l -> P x) -> filter P l = l.
Proof.
  induction l as [|a l IH]; intros Hall; [reflexivity|].
  rewrite filter_cons_True by (apply Hall, list_elem_of_here).
  f_equal. apply IH. intros x Hx. apply Hall. now apply list_elem_of_further.
Qed.

(** A file that goes has [S k] rivals. *)
Lemma unlinked_has_rivals (k : nat) (dir : gmap string BackupFile)
    (name : string) (f : BackupFile) :
  dir !! name = Some f ->
  name ∈ to_unlink (S k) dir ->
  S k <= length (filter (rival name f) (map_to_list dir)).
Proof.
  intros Hf Hin. rewrite to_unlink_spec in Hin.
  set (sorted := sort_by older_first (map_to_list dir)) in *.
  assert (Hperm : sorted ≡ₚ map_to_list dir) by apply sort_by_perm.
  rewrite <- (Permutation_length (filter_Permutation (rival name f) _ _ Hperm)).
  apply elem_of_map in Hin as ([n f'] & Heq & Hin). simpl in Heq. subst n.
  apply elem_of_take in Hin as (i & Hi & Hlt).
  assert (f' = f) as ->.
  { apply list_elem_of_lookup_2 in Hi. rewrite Hperm in Hi.
    apply elem_of_map_to_list in Hi. congruence. }
  assert (Hs : StronglySorted (le_prop older_first) sorted)
    by (apply sort_by_sorted; [apply older_first_total|apply older_first_trans]).
  assert (Hnd : NoDup (map fst sorted))
    by (rewrite Hperm; apply NoDup_fst_map_to_list).
  rewrite <- (take_drop (S i) sorted) in Hs, Hnd.
  rewrite map_app in Hnd. apply NoDup_app in Hnd as (_ & Hdisj & _).
  assert (Hhere : (name, f) ∈ take (S i) sorted).
  { apply elem_of_take. exists i. split; [exact Hi|lia]. }
  rewrite <- (take_drop (S i) sorted) at 1.
  rewrite filter_app, length_app.
  rewrite (filter_all (rival name f) (drop (S i) sorted)).
  - rewrite length_drop. lia.
  - intros x Hx. split.
    + intros Hname. apply (Hdisj name).
      * apply elem_of_map. exists (name, f). now split.
      * apply elem_of_map. exists x. now split.
    + pose proof (StronglySorted_app_1_elem_of _ _ _ _ _ Hs Hhere Hx) as Hle.
      unfold le_prop, older_first in Hle. simpl in Hle. now apply N.leb_le in Hle.
Qed.

Lemma kept_if_few_rivals (k : nat) (w : World) (name : string) (f : BackupFile) :
  backups w !! name = Some f ->
  length (filter (rival name f) (map_to_list (backups w))) < S k ->
  backups (_cleanup_old_backups (S k) w) !! name = Some f.
Proof.
  intros Hf Hfew. rewrite cleanup_lookup.
  destruct (decide (name ∈ to_unlink (S k) (backups w))) as [Hin | _];
    [|exact Hf].
  pose proof (unlinked_has_rivals k _ name f Hf Hin). lia.
Qed.

Lemma one_key_short {B : Type} (l : list (string * B)) (key : string) :
  NoDup (map fst l) -> (forall x, x ∈ l -> x.1 = key) -> length l <= 1.
Proof.
  intros Hnd Hall. destruct l as [|a [|b l]]; simpl; try lia.
  exfalso. simpl in Hnd. apply NoDup_cons in Hnd as [Ha _]. apply Ha.
  rewrite (Hall a) by apply list_elem_of_here.
  rewrite <- (Hall b) by apply list_elem_of_further, list_elem_of_here.
  apply list_elem_of_here.
Qed.

(** A backup taken when every file of the directory is older, and
    restored right away under another name than the safety backup's,
    gives the store back as it was. *)
Theorem backup_restore_round_trip (backup_type timestamp1 timestamp2 : string)
    (mtime1 mtime2 : N) (w : World) :
  (forall n f, backups w !! n = Some f -> (st_mtime f < mtime1)%N) ->
  backup_name backup_type timestamp1 <> backup_name "pre_restore" timestamp2 ->
  let w1 := (create_backup backup_type timestamp1 mtime1 w).1 in
  let r := restore_backup (InBackups (backup_name backup_type timestamp1))
             timestamp2 mtime2 w1 in
  r.2 = Returned true /\ store r.1 = store w.
Proof.
  intros Hold Hne w1 r.
  set (F := backup_name backup_type timestamp1) in *.
  set (P := backup_name "pre_restore" timestamp2) in *.
  set (file := {| st_mtime := mtime1; data := Gz (store w) |}).
  assert (Hrivals : forall dir : gmap string BackupFile,
            (forall n g, dir !! n = Some g -> n <> F -> n <> P ->
                         backups w !! n = Some g) ->
            forall x, x ∈ filter (rival F file) (map_to_list dir) -> x.1 = P).
  { intros dir Hdir [n g] [[Hn Hle] Hx]%list_elem_of_filter. simpl in *.
    apply elem_of_map_to_list in Hx.
    destruct (decide (n = P)) as [-> | HnP]; [reflexivity|].
    specialize (Hold n g (Hdir n g Hx Hn HnP)). lia. }
  assert (Hfew : forall dir : gmap string BackupFile,
            (forall n g, dir !! n = Some g -> n <> F -> n <> P ->
                         backups w !! n = Some g) ->
            length (filter (rival F file) (map_to_list dir)) < 10).
  { intros dir Hdir.
    enough (length (filter (rival F file) (map_to_list dir)) <= 1) by lia.
    apply (one_key_short _ P); [|now apply Hrivals].
    eapply sublist_NoDup; [apply (NoDup_fst_map_to_list dir)|].
    apply (fmap_sublist fst), sublist_filter; apply _. }
  assert (Hw1 : backups w1 !! F = Some file).
  { unfold w1. rewrite create_backup_written.
    apply kept_if_few_rivals; cbn [backups set_backups].
    - apply lookup_insert_eq.
    - apply Hfew. intros n g Hg HnF _. now rewrite lookup_insert_ne in Hg. }
  assert (Hw1_files : forall n g, backups w1 !! n = Some g -> n <> F ->
                                  backups w !! n = Some g).
  { unfold w1. rewrite create_backup_written. intros n g Hg HnF.
    rewrite cleanup_lookup in Hg. cbn [backups set_backups] in Hg.
    destruct (decide (n ∈ _)); [discriminate|].
    now rewrite lookup_insert_ne in Hg. }
  assert (Hst : store w1 = store w) by reflexivity.
  unfold r, restore_backup.
  assert (Hexists : path_exists w1 (InBackups F) = true).
  { unfold path_exists, read_file. now rewrite Hw1. }
  rewrite Hexists. cbn [negb]. rewrite create_backup_written.
  assert (Hread :
    read_file
      (_cleanup_old_backups 10
         (set_backups
            (<[P := {| st_mtime := mtime2; data := Gz (store w1) |}]> (backups w1))
            w1)) (InBackups F) = Some (Gz (store w))).
  { unfold read_file. rewrite (kept_if_few_rivals 9 _ F file); [reflexivity| |].
    - cbn [backups set_backups]. rewrite lookup_insert_ne by congruence. exact Hw1.
    - cbn [backups set_backups]. apply Hfew. intros n g Hg HnF HnP.
      rewrite lookup_insert_ne in Hg by congruence. now apply Hw1_files. }
  fold P. rewrite Hread. cbn [gunzip]. split; reflexivity.
Qed.

(** A backup of the directory of ten, restored five seconds later. *)
Lemma backup_restore_round_trip_witness :
  (restore_backup (InBackups (backup_name "manual" "20260101_103000"))
     "20260101_103005" 2005
     (create_backup "manual" "20260101_103000" 2000 ten_backups_world).1).2
  = Returned true
  /\ store
       (restore_backup (InBackups (backup_name "manual" "20260101_103000"))
          "20260101_103005" 2005
          (create_backup "manual" "20260101_103000" 2000 ten_backups_world).1).1
     = store ten_backups_world.
Proof.
  apply (backup_restore_round_trip "manual" "20260101_103000" "20260101_103005"
           2000 2005 ten_backups_world).
  - intros n f H.
    apply (map_Forall_lookup_1 (fun _ g => (st_mtime g < 2000)%N)
             (backups ten_backups_world) n f); [compute_done|exact H].
  - compute_done.
Defined.

Lemma restore_backup_missing_witness :
  restore_backup (Elsewhere "lost.db.gz") "20260101_103005" 2005 ten_backups_world
  = (ten_backups_world, Returned false).
Proof. apply restore_backup_missing. reflexivity. Defined.

(** C9.  A backup that exists when [restore_backup] is called, and that
    has nine or more newer backups beside it in the directory, is among
    the files that the pruning unlinks once the safety backup, itself
    newer and under a fresh name, is written: the file is gone when the
    call comes to read it, the call raises [FileNotFoundError] where it
    should return a boolean, and it leaves the world as
    [create_backup("pre_restore")] made it, the store as it was and the
    file no longer in the directory.  The safety backup is there when
    it was stamped after every file of the directory. *)
Theorem restore_backup_prunes_its_source (name timestamp : string)
    (mtime : N) (w : World) (f : BackupFile) :
  backups w !! name = Some f ->
  backups w !! backup_name "pre_restore" timestamp = None ->
  (st_mtime f < mtime)%N ->
  9 <= length (filter (newer_than f) (map_to_list (backups w))) ->
  let r := restore_backup (InBackups name) timestamp mtime w in
  let safety := {| st_mtime := mtime; data := Gz (store w) |} in
  let written :=
    set_backups (<[backup_name "pre_restore" timestamp := safety]> (backups w))
      w in
  path_exists w (InBackups name) = true
  /\ r.2 = Raised FileNotFoundError
  /\ store r.1 = store w
  /\ name ∈ to_unlink 10 (backups written)
  /\ r.1 = _cleanup_old_backups 10 written
  /\ backups r.1 !! name = None
  /\ ((forall n g, backups w !! n = Some g -> (st_mtime g < mtime)%N) ->
      backups r.1 !! backup_name "pre_restore" timestamp = Some safety).
Proof.
  intros Hf Hfresh Hnew Hnine r safety written.
  assert (Hexists : path_exists w (InBackups name) = true).
  { unfold path_exists, read_file. now rewrite Hf. }
  assert (Hunlinked : name ∈ to_unlink 10 (backups written)).
  { apply (old_file_unlinked 9 (backups written) name f).
    - unfold written. cbn [backups set_backups].
      rewrite lookup_insert_ne; [exact Hf|]. congruence.
    - unfold written. cbn [backups set_backups].
      rewrite (Permutation_length
                 (filter_Permutation (newer_than f) _ _
                    (map_to_list_insert _ _ safety Hfresh))).
      rewrite filter_cons_True by exact Hnew. simpl. lia. }
  assert (Hgone : backups (_cleanup_old_backups 10 written) !! name = None).
  { rewrite cleanup_lookup. now rewrite decide_True by exact Hunlinked. }
  assert (Hr : r = (_cleanup_old_backups 10 written, Raised FileNotFoundError)).
  { unfold r, restore_backup. rewrite Hexists. cbn [negb].
    rewrite create_backup_written. fold safety. fold written.
    unfold read_file. now rewrite Hgone. }
  rewrite Hr. cbn [fst snd].
  split; [exact Hexists|]. split; [reflexivity|]. split; [reflexivity|].
  split; [exact Hunlinked|]. split; [reflexivity|]. split; [exact Hgone|].
  intros Hold. apply kept_if_few_rivals.
  - unfold written. cbn [backups set_backups]. apply lookup_insert_eq.
  - unfold written. cbn [backups set_backups].
    rewrite filter_none; [simpl; lia|].
    intros [n g] Hin%elem_of_map_to_list [Hn Hle]. simpl in Hn, Hle.
    rewrite lookup_insert_ne in Hin by congruence.
    apply Hold in Hin. unfold safety in Hle. simpl in Hle. lia.
Qed.

(** Eleven backups in the directory, and the second oldest is the one
    to restore. *)
Lemma restore_backup_prunes_its_source_witness :
  let name := "test_data_manual_20260101_100002.db.gz" in
  let r := restore_backup (InBackups name) "20260101_110000" 5000 crowded_world in
  let safety := {| st_mtime := 5000; data := Gz (store crowded_world) |} in
  let written :=
    set_backups
      (<[backup_name "pre_restore" "20260101_110000" := safety]>
         (backups crowded_world))
      crowded_world in
  path_exists crowded_world (InBackups name) = true
  /\ r.2 = Raised FileNotFoundError
  /\ store r.1 = store crowded_world
  /\ name ∈ to_unlink 10 (backups written)
  /\ r.1 = _cleanup_old_backups 10 written
  /\ backups r.1 !! name = None
  /\ ((forall n g, backups crowded_world !! n = Some g ->
                   (st_mtime g < 5000)%N) ->
      backups r.1 !! backup_name "pre_restore" "20260101_110000" = Some safety).
Proof.
  apply (restore_backup_prunes_its_source
           "test_data_manual_20260101_100002.db.gz" "20260101_110000" 5000
           crowded_world {| st_mtime := 1002; data := Gz (Bytes "db") |}).
  - vm_compute. reflexivity.
  - vm_compute. reflexivity.
  - reflexivity.
  - vm_compute. lia.
Defined.

(** In that directory the safety backup is the newest file, and it is
    there after the call. *)
Example restore_backup_leaves_safety_backup :
  backups
    (restore_backup (InBackups "test_data_manual_20260101_100002.db.gz")
       "20260101_110000" 5000 crowded_world).1
    !! backup_name "pre_restore" "20260101_110000"
  = Some {| st_mtime := 5000; data := Gz (Bytes "db") |}.
Proof. vm_compute. reflexivity. Qed.

(** C7 at the failing input.  The directory holds the ten backups the
    code keeps and the oldest of them is the one to restore: the path
    exists, the safety backup is the eleventh file and the pruning
    unlinks the oldest, so the call raises where the claim has it
    return. *)
Theorem restore_oldest_of_ten_raises :
  path_exists ten_backups_world
    (InBackups "test_data_manual_20260101_100001.db.gz") = true
  /\ (restore_backup (InBackups "test_data_manual_20260101_100001.db.gz")
        "20260101_110000" 5000 ten_backups_world).2
     = Raised FileNotFoundError.
Proof. split; vm_compute; reflexivity. Qed.

(** ** Migration *)

Lemma migrate_info_skip (eng : Engine) (times : nat -> string)
    (session_id command : string) (st : MigrateState) (item : string * json) :
  recordable item = false ->
  migrate_info eng times session_id command st item = st.
Proof.
  unfold recordable, migrate_info. intros H.
  destruct (ms_failed st); [reflexivity|].
  destruct item.2; try reflexivity. now rewrite H.
Qed.

Lemma migrate_infos_pruned (eng : Engine) (times : nat -> string)
    (session_id command : string) (content : list (string * json))
    (st : MigrateState) :
  fold_left (migrate_info eng times session_id command) content st
  = fold_left (migrate_info eng times session_id command)
      (filter (fun item => recordable item) content) st.
Proof.
  revert st. induction content as [|item content IH]; intros st;
    [reflexivity|].
  destruct (recordable item) eqn:E.
  - rewrite filter_cons_True by now rewrite E. simpl. apply IH.
  - rewrite filter_cons_False by now rewrite E. simpl.
    rewrite migrate_info_skip by exact E. apply IH.
Qed.

Lemma migrate_commands_pruned (eng : Engine) (times : nat -> string)
    (session_id : string) (items : list (string * json)) (st : MigrateState) :
  fold_left (migrate_command eng times session_id) items st
  = fold_left (migrate_command eng times session_id) (prune_legacy items) st.
Proof.
  revert st. induction items as [|[k v] items IH]; intros st; [reflexivity|].
  unfold prune_legacy. cbn [omap list_omap]. fold (prune_legacy items).
  destruct v; cbn [fold_left snd fst]; try apply IH.
  rewrite IH. f_equal. unfold migrate_command. cbn [snd fst].
  apply migrate_infos_pruned.
Qed.

Lemma migrate_infos_hollow (eng : Engine) (times : nat -> string)
    (session_id command : string) (content : list (string * json))
    (st : MigrateState) :
  (forall item, item ∈ content -> recordable item = false) ->
  fold_left (migrate_info eng times session_id command) content st = st.
Proof.
  revert st. induction content as [|item content IH]; intros st H;
    [reflexivity|].
  simpl. rewrite migrate_info_skip by apply H, list_elem_of_here.
  apply IH. intros i Hi. apply H. now apply list_elem_of_further.
Qed.

Lemma migrate_commands_hollow (eng : Engine) (times : nat -> string)
    (session_id : string) (items : list (string * json)) (st : MigrateState) :
  (forall entry content item,
     entry ∈ items -> entry.2 = JObj content -> item ∈ content ->
     recordable item = false) ->
  fold_left (migrate_command eng times session_id) items st = st.
Proof.
  revert st. induction items as [|[k v] items IH]; intros st H;
    [reflexivity|].
  cbn [fold_left]. rewrite IH.
  - unfold migrate_command. cbn [snd fst]. destruct v; try reflexivity.
    apply migrate_infos_hollow. intros item Hitem.
    eapply H; [apply list_elem_of_here|reflexivity|exact Hitem].
  - intros e c i He. apply H. now apply list_elem_of_further.
Qed.

(** C10.  [migrate_from_json] on a document leaves the store and
    returns the boolean that it does on the document without the
    entries whose content is no [dict] and without the items that are
    no [dict] with a [status]; and on a document made of such entries
    and items only it returns [True], when its session identifier is
    new, and leaves [test_results] as it was. *)
Theorem migrate_skips_malformed (eng : Engine) (now_py : string)
    (times : nat -> string) (items : list (string * json)) (db : Db) :
  migrate_from_json eng now_py times (FileJson (JObj items)) db
  = migrate_from_json eng now_py times (FileJson (JObj (prune_legacy items))) db
  /\ ((forall entry content item,
         entry ∈ items -> entry.2 = JObj content -> item ∈ content ->
         recordable item = false) ->
      test_sessions db !! migration_session_id now_py = None ->
      (migrate_from_json eng now_py times (FileJson (JObj items)) db).2 = true
      /\ test_results
           (migrate_from_json eng now_py times (FileJson (JObj items)) db).1
         = test_results db).
Proof.
  split.
  - unfold migrate_from_json.
    destruct (start_session _ _ _ _ _ db) as [[db1 sid]|e]; [|reflexivity].
    now rewrite migrate_commands_pruned.
  - intros Hhollow Hfresh. unfold migrate_from_json, start_session.
    fold (migration_session_id now_py). rewrite Hfresh.
    rewrite migrate_commands_hollow by exact Hhollow. simpl. split; reflexivity.
Qed.

(** A document of two entries with nothing to migrate in them. *)
Lemma migrate_skips_malformed_witness :
  (migrate_from_json rowid_engine "2026-01-01 10:00:00.000001"
     (fun _ => "2026-01-01 10:00:00") (FileJson (JObj hollow_doc)) trivia_db).2
  = true
  /\ test_results
       (migrate_from_json rowid_engine "2026-01-01 10:00:00.000001"
          (fun _ => "2026-01-01 10:00:00") (FileJson (JObj hollow_doc))
          trivia_db).1
     = test_results trivia_db.
Proof.
  apply (proj2 (migrate_skips_malformed rowid_engine
                  "2026-01-01 10:00:00.000001"
                  (fun _ => "2026-01-01 10:00:00") hollow_doc trivia_db)).
  - intros entry content item He Hc Hi.
    repeat (apply elem_of_cons in He as [-> | He]; simpl in Hc;
            [try discriminate|]); [|now apply not_elem_of_nil in He].
    injection Hc as <-.
    repeat (apply elem_of_cons in Hi as [-> | Hi]; [reflexivity|]).
    now apply not_elem_of_nil in Hi.
  - vm_compute. reflexivity.
Defined.

(** The one well-formed item of a document is migrated and the others
    are passed over in silence. *)
Example migrate_legacy_doc :
  let r :=
    migrate_from_json rowid_engine "2026-01-01 10:00:00.000001"
      (fun _ => "2026-01-01 10:00:00") (FileJson (JObj legacy_doc)) empty_db in
  r.2 = true
  /\ map (fun t => (command t, subcommand t, status t, notes t))
         (test_results r.1)
     = [("ping", "", "passed", Some "ok")].
Proof. vm_compute. split; reflexivity. Qed.

(** ** The scenarios of the specification *)

(** [trivia] passed and then, five seconds later, failed: the status is
    that of the later result, whatever the order of the scan. *)
Example trivia_latest_status :
  get_test_status rowid_engine trivia_db "trivia" None
  = JObj [ ("status", JStr "failed");
           ("last_tested", JStr "2026-01-01 10:00:05");
           ("notes", JStr ""); ("error_output", JStr "");
           ("execution_time_ms", JInt 0) ]
  /\ get_test_status reverse_engine trivia_db "trivia" (Some "")
     = get_test_status rowid_engine trivia_db "trivia" None.
Proof. split; vm_compute; reflexivity. Qed.

(** Two results of one pair within one second: which one is the status
    depends on the scan. *)
Example same_second_status_is_either :
  Dict.get "status"
    (match get_test_status rowid_engine same_second_db "trivia" None with
     | JObj d => d | _ => [] end) = Some (JStr "passed")
  /\ Dict.get "status"
       (match get_test_status reverse_engine same_second_db "trivia" None with
        | JObj d => d | _ => [] end) = Some (JStr "failed").
Proof. split; vm_compute; reflexivity. Qed.

(** ** Sessions *)

Lemma end_session_unknown (now sid : string) (db : Db) :
  test_sessions db !! sid = None -> end_session now sid db = db.
Proof.
  intros H. unfold end_session, set_test_sessions.
  destruct db as [s r c n]. simpl in *.
  f_equal. apply map_eq. intros k. rewrite lookup_alter.
  case_decide; subst; [now rewrite H|reflexivity].
Qed.

Lemma end_session_twice (now1 now2 sid : string) (db : Db) :
  end_session now2 sid (end_session now1 sid db) = end_session now2 sid db.
Proof.
  unfold end_session, set_test_sessions. simpl. f_equal.
  apply map_eq. intros k. destruct (decide (sid = k)) as [-> | Hne].
  - rewrite !lookup_alter_eq. now destruct (test_sessions db !! k).
  - now rewrite !lookup_alter_ne.
Qed.

Lemma round_length (st : list N) (kw : N * N) :
  length (SHA256.round st kw) = length st.
Proof.
  destruct st as [|a [|b [|c [|d [|e [|f [|g [|h [|i st]]]]]]]]]; reflexivity.
Qed.

Lemma rounds_length (kws : list (N * N)) (st : list N) :
  length (fold_left SHA256.round kws st) = length st.
Proof.
  revert st. induction kws as [|kw kws IH]; intros st; simpl; [reflexivity|].
  now rewrite IH, round_length.
Qed.

Lemma compress_length (h block : list N) :
  length (SHA256.compress h block) = length h.
Proof.
  unfold SHA256.compress. rewrite length_zip_with, rounds_length. lia.
Qed.

Lemma digest_length (msg : list N) : length (SHA256.digest msg) = 8.
Proof.
  unfold SHA256.digest. cbv zeta.
  generalize
    (SHA256.blocks
       (length (SHA256.words (length (SHA256.pad msg)) (SHA256.pad msg)))
       (SHA256.words (length (SHA256.pad msg)) (SHA256.pad msg))).
  intros bs.
  assert (H : forall h, length (fold_left SHA256.compress bs h) = length h).
  { induction bs as [|b bs IH]; intros h; simpl; [reflexivity|].
    now rewrite IH, compress_length. }
  now rewrite H.
Qed.

Lemma hex_digit_is_hex (x : N) :
  is_hex (SHA256.hex_digit (N.land x 0xf)) = true.
Proof.
  assert (H : (N.land x 0xf < 16)%N).
  { change 0xf%N with (N.ones 4). rewrite N.land_ones. now apply N.mod_lt. }
  destruct (N.land x 0xf) as [|p]; [reflexivity|].
  do 4 (destruct p as [p|p|]; try reflexivity; try lia).
Qed.

Lemma hex_digits_is_hex (n : nat) (x : N) :
  forallb is_hex (list_ascii_of_string (SHA256.hex_digits n x)) = true.
Proof.
  induction n as [|n IH]; [reflexivity|].
  cbn [SHA256.hex_digits list_ascii_of_string forallb].
  now rewrite hex_digit_is_hex, IH.
Qed.

Lemma hex_digits_length (n : nat) (x : N) :
  String.length (SHA256.hex_digits n x) = n.
Proof. induction n as [|n IH]; simpl; [reflexivity|now rewrite IH]. Qed.

Lemma substring_prefix (a b : string) :
  String.substring 0 (String.length a) (a +:+ b) = a.
Proof.
  induction a as [|c a IH]; simpl.
  - now destruct b.
  - now rewrite IH.
Qed.

Lemma session_id_shape (s : string) :
  exists w1 w2 : N,
    String.substring 0 16 (SHA256.hexdigest s)
    = SHA256.hex_digits 8 w1 +:+ SHA256.hex_digits 8 w2.
Proof.
  unfold SHA256.hexdigest. pose proof (digest_length (SHA256.encode s)) as H.
  destruct (SHA256.digest (SHA256.encode s))
    as [|w1 [|w2 rest]]; try discriminate.
  exists w1, w2. cbn [foldr].
  set (tail := foldr _ _ rest).
  replace (SHA256.hex_digits 8 w1 +:+ SHA256.hex_digits 8 w2 +:+ tail)
    with ((SHA256.hex_digits 8 w1 +:+ SHA256.hex_digits 8 w2) +:+ tail).
  - apply (substring_prefix
             (SHA256.hex_digits 8 w1 +:+ SHA256.hex_digits 8 w2)).
  - reflexivity.
Qed.

Lemma all_hex_app (a b : string) :
  forallb is_hex (list_ascii_of_string a) = true ->
  forallb is_hex (list_ascii_of_string b) = true ->
  forallb is_hex (list_ascii_of_string (a +:+ b)) = true.
Proof.
  intros Ha Hb. induction a as [|c a IH]; simpl in *; [exact Hb|].
  apply andb_true_iff in Ha as [Hc Ha]. rewrite Hc. now apply IH.
Qed.

Lemma session_id_hex (s : string) :
  let sid := String.substring 0 16 (SHA256.hexdigest s) in
  String.length sid = 16
  /\ forallb is_hex (list_ascii_of_string sid) = true.
Proof.
  intros sid. destruct (session_id_shape s) as (w1 & w2 & E).
  unfold sid. rewrite E. split.
  - reflexivity.
  - apply all_hex_app; apply hex_digits_is_hex.
Qed.

(** X5.  The identifier [start_session] returns is made of sixteen
    lower-case hexadecimal digits; it was the key of no session, and now
    keys an open session with the three names given, every other row of
    the store being as it was. *)
Theorem start_session_opens (now_py now u g c : string) (db db' : Db)
    (sid : string) :
  start_session now_py now u g c db = Returned (db', sid) ->
  String.length sid = 16
  /\ forallb is_hex (list_ascii_of_string sid) = true
  /\ test_sessions db !! sid = None
  /\ test_sessions db' !! sid
     = Some {| started_at := now; ended_at := None; user_id := u;
               guild_id := g; channel_id := c |}
  /\ (forall k, k <> sid -> test_sessions db' !! k = test_sessions db !! k)
  /\ test_results db' = test_results db
  /\ command_registry db' = command_registry db
  /\ test_snapshots db' = test_snapshots db.
Proof.
  unfold start_session.
  destruct (session_id_hex (u +:+ g +:+ c +:+ now_py)) as [Hlen Hhex].
  set (id := String.substring 0 16 _) in *.
  destruct (test_sessions db !! id) eqn:E; [discriminate|].
  intros [= <- <-]. cbn [test_sessions set_test_sessions test_results
                          command_registry test_snapshots].
  repeat split; try assumption.
  - apply lookup_insert_eq.
  - intros k Hk. now apply lookup_insert_ne.
Qed.

Lemma start_session_opens_witness :
  exists db' sid,
    start_session "2026-01-01 10:00:00.000001" "2026-01-01 10:00:00"
      "u" "g" "c" empty_db = Returned (db', sid)
    /\ String.length sid = 16
    /\ test_sessions db' !! sid
       = Some {| started_at := "2026-01-01 10:00:00"; ended_at := None;
                 user_id := "u"; guild_id := "g"; channel_id := "c" |}.
Proof.
  eexists _, _. 
  assert (H : start_session "2026-01-01 10:00:00.000001" "2026-01-01 10:00:00"
      "u" "g" "c" empty_db = Returned (_, _)) by (vm_compute; reflexivity).
  split; [exact H|].
  pose proof (start_session_opens _ _ _ _ _ _ _ _ H) as (H1 & _ & _ & H4 & _).
  split; assumption.
Defined.

(** X6.  The identifier hashes the three names run together: two calls
    whose names run together to the same text, made at one reading of
    the clock, get one identifier, and the second raises on the primary
    key. *)
Theorem start_session_collision (now_py now1 now2 u1 g1 c1 u2 g2 c2 : string)
    (db db1 : Db) (sid : string) :
  u1 +:+ g1 +:+ c1 = u2 +:+ g2 +:+ c2 ->
  start_session now_py now1 u1 g1 c1 db = Returned (db1, sid) ->
  start_session now_py now2 u2 g2 c2 db1 = Raised IntegrityError.
Proof.
  intros Hcat H1.
  assert (E : u2 +:+ g2 +:+ c2 +:+ now_py = u1 +:+ g1 +:+ c1 +:+ now_py).
  { assert (Hcat4 : forall u g c, u +:+ g +:+ c +:+ now_py
                                  = (u +:+ g +:+ c) +:+ now_py)
      by (intros; now rewrite !str_app_assoc).
    now rewrite (Hcat4 u2), (Hcat4 u1), Hcat. }
  unfold start_session in *. rewrite E.
  destruct (test_sessions db !! _); [discriminate|].
  injection H1 as <- <-. cbn [test_sessions set_test_sessions] in *.
  now rewrite lookup_insert_eq.
Qed.

Lemma start_session_collision_witness :
  exists db1 sid,
    start_session "2026-01-01 10:00:00.000001" "2026-01-01 10:00:00"
      "ab" "c" "x" empty_db = Returned (db1, sid)
    /\ start_session "2026-01-01 10:00:00.000001" "2026-01-01 10:00:01"
         "a" "bc" "x" db1 = Raised IntegrityError.
Proof.
  eexists _, _.
  assert (H : start_session "2026-01-01 10:00:00.000001" "2026-01-01 10:00:00"
                "ab" "c" "x" empty_db = Returned (_, _))
    by (vm_compute; reflexivity).
  split; [exact H|].
  apply (start_session_collision _ _ _ "ab" "c" "x" "a" "bc" "x" _ _ _
           eq_refl H).
Defined.

(** X7.  [end_session] with an identifier that keys no session leaves
    the store as it is, and raises nothing; a second [end_session] of
    one session puts its time in the place of the first. *)
Theorem end_session_unknown_or_again (now1 now2 sid : string) (db : Db) :
  (test_sessions db !! sid = None -> end_session now1 sid db = db)
  /\ end_session now2 sid (end_session now1 sid db) = end_session now2 sid db.
Proof.
  split; [apply end_session_unknown|apply end_session_twice].
Qed.

(** ** Recording and reading back *)

Lemma str_ltb_not_leb (a b : string) :
  String.ltb a b = true -> String.leb b a = false.
Proof.
  unfold String.ltb, String.leb. intros H.
  destruct (String.compare a b) eqn:E; try discriminate.
  now rewrite (String.compare_antisym b a), E.
Qed.

(** X8.  A result whose execution time fits 64 bits, recorded at a time
    later than every stored result of its pair, is the status of the
    pair at once, whichever way the subcommand of a base command is
    written. *)
Theorem record_test_round_trip (eng : Engine) (now sid c : string)
    (sub sub' : option string) (st : string) (notes : option string)
    (err : string) (ms : Z) (md : option (list (string * json))) (db : Db) :
  or_empty sub' = or_empty sub ->
  (- 2 ^ 63 <= ms < 2 ^ 63)%Z ->
  (forall r, r ∈ test_results db -> is_pair c (or_empty sub) r ->
             String.ltb (tested_at r) now = true) ->
  get_test_status eng (record_test now sid c sub st notes err ms md db) c sub'
  = JObj [ ("status", JStr st); ("last_tested", JStr now);
           ("notes", opt_str notes); ("error_output", JStr err);
           ("execution_time_ms", JInt ms) ].
Proof.
  intros Hsub Hms Hold. unfold get_test_status.
  rewrite record_test_results.
  replace (int64 ms) with true by (symmetry; unfold int64; lia).
  rewrite Hsub, filter_app.
  set (row := {| result_id := _ |}).
  rewrite (filter_cons_True _ row []) by (split; reflexivity).
  rewrite filter_nil.
  set (old := filter (is_pair c (or_empty sub)) (test_results db)).
  destruct (sort_by newest_first (scan eng (old ++ [row]))) as [|r rest] eqn:E.
  - apply (f_equal length) in E. rewrite sort_by_length in E.
    rewrite (scan_perm eng), length_app in E. simpl in E. lia.
  - assert (Hr : r ∈ old ++ [row]).
    { rewrite <- (scan_perm eng). apply (sort_by_elem newest_first).
      rewrite E. apply list_elem_of_here. }
    assert (Hnew : newest_first r row = true).
    { apply (sort_by_head newest_first newest_first_total newest_first_trans
               r rest _ E).
      rewrite (scan_perm eng). apply elem_of_app. right.
      apply list_elem_of_here. }
    apply elem_of_app in Hr as [Hr | Hr].
    + exfalso. apply list_elem_of_filter in Hr as [Hp Hr].
      apply Hold in Hr; [|exact Hp]. apply str_ltb_not_leb in Hr.
      unfold newest_first in Hnew. simpl in Hnew. congruence.
    + apply list_elem_of_singleton in Hr. subst r. reflexivity.
Qed.

Lemma record_test_round_trip_witness :
  get_test_status rowid_engine
    (record_test "2026-01-01 10:00:09" "s1" "trivia" None "passed" (Some "ok")
       "" 7 None trivia_db) "trivia" (Some "")
  = JObj [ ("status", JStr "passed");
           ("last_tested", JStr "2026-01-01 10:00:09");
           ("notes", opt_str (Some "ok")); ("error_output", JStr "");
           ("execution_time_ms", JInt 7) ].
Proof.
  apply (record_test_round_trip rowid_engine "2026-01-01 10:00:09" "s1" "trivia"
           None (Some "") "passed" (Some "ok") "" 7 None trivia_db eq_refl).
  - lia.
  - intros r Hr _.
    repeat (apply elem_of_cons in Hr as [-> | Hr]; [reflexivity|]).
    now apply not_elem_of_nil in Hr.
Defined.

(** An execution time of [2^63] does not fit: the call raises, and the
    status of the pair is what it was. *)
Example record_test_overflow :
  record_test_raises (2 ^ 63) = Some OverflowError
  /\ record_test "2026-01-01 10:00:09" "s1" "trivia" None "passed" (Some "ok")
       "" (2 ^ 63) None trivia_db
     = trivia_db
  /\ record_test_raises (2 ^ 63 - 1) = None.
Proof. repeat split. Qed.

(** X9.  Recording a result of one pair leaves the status of every
    other pair as it was. *)
Theorem record_test_other_pair (eng : Engine) (now sid c : string)
    (sub : option string) (st : string) (notes : option string)
    (err : string) (ms : Z) (md : option (list (string * json))) (db : Db)
    (c' : string) (sub' : option string) :
  (c', or_empty sub') <> (c, or_empty sub) ->
  get_test_status eng (record_test now sid c sub st notes err ms md db) c' sub'
  = get_test_status eng db c' sub'.
Proof.
  intros Hne. unfold get_test_status.
  rewrite record_test_results, filter_app.
  destruct (int64 ms); [|now rewrite filter_nil, app_nil_r].
  rewrite (filter_cons_False _ _ []).
  - now rewrite filter_nil, app_nil_r.
  - intros [H1 H2]. simpl in H1, H2. apply Hne. congruence.
Qed.

Lemma record_test_other_pair_witness :
  get_test_status rowid_engine
    (record_test "2026-01-01 10:00:09" "s1" "trivia" (Some "hard") "passed"
       (Some "") "" 7 None trivia_db) "trivia" None
  = get_test_status rowid_engine trivia_db "trivia" None.
Proof.
  apply (record_test_other_pair rowid_engine "2026-01-01 10:00:09" "s1" "trivia"
           (Some "hard") "passed" (Some "") "" 7 None trivia_db "trivia" None).
  discriminate.
Defined.

(** ** Statistics *)

Lemma synthesized_untested (pairs : list (string * option string))
    (doc : RegistryDoc) (m : Merged) :
  m ∈ flat_map (synthesized pairs) doc -> is_tested m = false.
Proof.
  intros (cmd & _ & Hm)%elem_of_flat_map. unfold synthesized in Hm.
  apply elem_of_app in Hm as [Hm | Hm].
  - destruct (_ && _); [|now apply not_elem_of_nil in Hm].
    apply list_elem_of_singleton in Hm. now subst.
  - apply elem_of_flat_map in Hm as (sub & _ & Hm).
    destruct (bool_decide _); [|now apply not_elem_of_nil in Hm].
    apply list_elem_of_singleton in Hm. now subst.
Qed.

(** The records of stored results are those of the query. *)
Lemma tested_results (eng : Engine) (db : Db) (file : DocFile) :
  tested (get_all_test_results eng db file)
  = map (joined db)
        (sort_by pair_le (scan eng (latest_rows (test_results db)))).
Proof.
  rewrite results_split. unfold tested. rewrite filter_app.
  rewrite (filter_none _ (flat_map _ _)).
  - rewrite app_nil_r. apply filter_all.
    intros m (r & -> & _)%elem_of_map. reflexivity.
  - intros m Hm. apply synthesized_untested in Hm. congruence.
Qed.

Lemma count_joined (db : Db) (st : string) (l : list TestResult) :
  length (filter (fun m => m_status m = st) (map (joined db) l))
  = length (filter (fun r => status r = st) l).
Proof.
  induction l as [|r l IH]; [reflexivity|].
  cbn [map]. destruct (decide (status r = st)) as [H | H].
  - rewrite !filter_cons_True by exact H. simpl. now rewrite IH.
  - rewrite !filter_cons_False by exact H. exact IH.
Qed.

Lemma tested_with_latest (eng : Engine) (db : Db) (file : DocFile)
    (st : string) :
  tested_with st (get_all_test_results eng db file)
  = length (filter (fun r => status r = st) (latest_rows (test_results db))).
Proof.
  unfold tested_with. rewrite tested_results, count_joined.
  apply Permutation_length, filter_Permutation.
  rewrite sort_by_perm. apply scan_perm.
Qed.

Lemma dict_get_map (f : string -> json) (keys : list string) (k : string) :
  Dict.get k (map (fun st => (st, f st)) keys)
  = if decide (k ∈ keys) then Some (f k) else None.
Proof.
  induction keys as [|x keys IH]; simpl.
  - destruct (decide (k ∈ [])) as [H|]; [now apply not_elem_of_nil in H|].
    reflexivity.
  - destruct (String.eqb_spec x k) as [-> | Hne].
    + rewrite decide_True by apply list_elem_of_here. reflexivity.
    + rewrite IH. destruct (decide (k ∈ keys)) as [H | H].
      * rewrite decide_True by now apply list_elem_of_further. reflexivity.
      * rewrite decide_False; [reflexivity|].
        intros [? | ?]%elem_of_cons; congruence.
Qed.

Lemma sum_indicator (k : string) (keys : list string) :
  NoDup keys -> k ∈ keys ->
  foldr Z.add 0%Z (map (fun x => if decide (k = x) then 1 else 0)%Z keys) = 1%Z.
Proof.
  induction keys as [|x keys IH]; intros Hnd Hin.
  - now apply not_elem_of_nil in Hin.
  - apply NoDup_cons in Hnd as [Hx Hnd]. simpl.
    destruct (decide (k = x)) as [-> | Hne].
    + assert (H : foldr Z.add 0%Z
                (map (fun y => if decide (x = y) then 1 else 0)%Z keys) = 0%Z).
      { clear IH Hin Hnd. induction keys as [|y keys IH]; [reflexivity|].
        simpl. rewrite decide_False.
        - rewrite IH; [reflexivity|]. intros H. apply Hx.
          now apply list_elem_of_further.
        - intros ->. apply Hx, list_elem_of_here. }
      rewrite H. reflexivity.
    + apply elem_of_cons in Hin as [? | Hin]; [congruence|].
      now rewrite IH.
Qed.

Lemma count_partition {A : Type} (f : A -> string) (keys : list string)
    (l : list A) :
  NoDup keys -> (forall x, x ∈ l -> f x ∈ keys) ->
  foldr Z.add 0%Z
    (map (fun k => Z.of_nat (length (filter (fun x => f x = k) l))) keys)
  = Z.of_nat (length l).
Proof.
  intros Hnd. induction l as [|a l IH]; intros Hin.
  - simpl. clear. induction keys as [|k keys IH]; [reflexivity|].
    simpl. rewrite IH. reflexivity.
  - assert (Hsplit : forall ks,
      foldr Z.add 0%Z
        (map (fun k => Z.of_nat (length (filter (fun x => f x = k) (a :: l))))
             ks)
      = (foldr Z.add 0%Z
           (map (fun k => Z.of_nat (length (filter (fun x => f x = k) l))) ks)
         + foldr Z.add 0%Z
             (map (fun k => if decide (f a = k) then 1 else 0) ks))%Z).
    { induction ks as [|k ks IHk]; [reflexivity|].
      cbn [map foldr]. rewrite IHk.
      destruct (decide (f a = k)) as [H | H].
      - rewrite filter_cons_True by exact H. simpl length. lia.
      - rewrite filter_cons_False by exact H. lia. }
    rewrite Hsplit, IH.
    + rewrite sum_indicator; [simpl length; lia|exact Hnd|].
      apply Hin, list_elem_of_here.
    + intros x Hx. apply Hin. now apply list_elem_of_further.
Qed.

Lemma distribution_keys (rows : list TestResult) (st : string) :
  st ∈ sort_by String.leb (remove_dups (map status (latest_rows rows)))
  <-> st ∈ map status (latest_rows rows).
Proof. now rewrite sort_by_elem, elem_of_remove_dups. Qed.

(** The entry of a status in the distribution. *)
Lemma distribution_entry (eng : Engine) (db : Db) (file : DocFile)
    (st : string) :
  Dict.get st (status_distribution (test_results db))
  = match tested_with st (get_all_test_results eng db file) with
    | O => None
    | S n => Some (JInt (Z.of_nat (S n)))
    end.
Proof.
  rewrite tested_with_latest. unfold status_distribution.
  set (picked := latest_rows (test_results db)).
  rewrite (dict_get_map
             (fun st => JInt (Z.of_nat (length (filter (fun r => status r = st)
                                                  picked))))).
  destruct (decide (st ∈ _)) as [Hin | Hout].
  - apply distribution_keys, elem_of_map in Hin as (r & -> & Hr).
    destruct (filter _ picked) as [|x l] eqn:E; [|reflexivity].
    assert (H : r ∈ filter (fun r0 => status r0 = status r) picked)
      by now apply list_elem_of_filter.
    rewrite E in H. now apply not_elem_of_nil in H.
  - destruct (filter _ picked) as [|x l] eqn:E; [reflexivity|].
    exfalso. apply Hout, distribution_keys, elem_of_map. exists x.
    assert (H : x ∈ filter (fun r0 => status r0 = st) picked)
      by (rewrite E; apply list_elem_of_here).
    apply list_elem_of_filter in H as [H1 H2]. now split.
Qed.

(** The entries of the distribution add up to the number of records
    of stored results. *)
Lemma distribution_total (eng : Engine) (db : Db) (file : DocFile) :
  foldr Z.add 0%Z
    (map (fun kv => int_of kv.2) (status_distribution (test_results db)))
  = Z.of_nat (length (tested (get_all_test_results eng db file))).
Proof.
  unfold status_distribution.
  set (picked := latest_rows (test_results db)).
  rewrite map_map. cbn [snd int_of].
  rewrite (count_partition status _ picked).
  - rewrite tested_results, length_map, sort_by_length.
    now rewrite (scan_perm eng).
  - rewrite sort_by_perm. apply NoDup_remove_dups.
  - intros r Hr. apply distribution_keys, elem_of_map. now exists r.
Qed.

(** X10.  The [status_distribution] of [get_statistics] counts the
    records of [get_all_test_results] that come from a stored result,
    status by status: a status has an entry when such a record has it,
    the entry is their number, and the entries add up to the number of
    these records.  The records made up for commands never tested are
    counted nowhere. *)
Theorem status_distribution_counts (eng : Engine) (day_ago : string)
    (db : Db) (file : DocFile) :
  let results := get_all_test_results eng db file in
  exists dist,
    stat "status_distribution" (get_statistics eng day_ago db)
    = Some (JObj dist)
    /\ (forall st,
          Dict.get st dist
          = match tested_with st results with
            | O => None
            | S n => Some (JInt (Z.of_nat (S n)))
            end)
    /\ foldr Z.add 0%Z (map (fun kv => int_of kv.2) dist)
       = Z.of_nat (length (tested results)).
Proof.
  intros results. exists (status_distribution (test_results db)).
  split; [reflexivity|]. split.
  - intros st. apply distribution_entry.
  - apply distribution_total.
Qed.

(** ** The coverage of the report *)

(** X11.  The test coverage [_generate_summary] shows for the
    statistics of a store is the share, in whole per cent rounded down,
    of the records of stored results that have the status [passed]; the
    commands never tested do not count, and the coverage is 0 when
    nothing was tested.  It lies between 0 and 100. *)
Theorem coverage_of_tested (eng : Engine) (day_ago : string) (db : Db)
    (file : DocFile) :
  let results := get_all_test_results eng db file in
  let shown := HTMLReportGenerator.coverage (get_statistics eng day_ago db) in
  shown
  = (if decide (tested results = []) then 0
     else Z.of_nat (tested_with "passed" results) * 100
          / Z.of_nat (length (tested results)))%Z
  /\ (0 <= shown <= 100)%Z.
Proof.
  intros results shown.
  assert (Hle : tested_with "passed" results <= length (tested results))
    by apply length_filter.
  assert (E : shown
              = if (0 <? Z.of_nat (length (tested results)))%Z
                then (Z.of_nat (tested_with "passed" results) * 100
                      / Z.of_nat (length (tested results)))%Z
                else 0%Z).
  { unfold shown, HTMLReportGenerator.coverage.
    change (HTMLReportGenerator.status_distribution_of
              (get_statistics eng day_ago db))
      with (status_distribution (test_results db)).
    cbv zeta. rewrite (distribution_total eng db file).
    rewrite (distribution_entry eng db file "passed"). fold results.
    now destruct (tested_with "passed" results). }
  rewrite E. destruct (decide (tested results = [])) as [Hnil | Hsome].
  - rewrite Hnil. simpl. split; [reflexivity|lia].
  - assert (Hpos : (0 < Z.of_nat (length (tested results)))%Z).
    { destruct (tested results); [congruence|simpl; lia]. }
    destruct (Z.ltb_spec 0 (Z.of_nat (length (tested results)))); [|lia].
    split; [reflexivity|]. split.
    + apply Z.div_pos; lia.
    + apply Z.div_le_upper_bound; lia.
Qed.

Lemma remove_dups_map_le {A B : Type} `{EqDecision A, EqDecision B}
    (f : A -> B) (l : list A) :
  length (remove_dups (map f l)) <= length (remove_dups l).
Proof.
  rewrite <- (length_map f (remove_dups l)).
  apply submseteq_length, NoDup_submseteq; [apply NoDup_remove_dups|].
  intros y (x & -> & Hx)%elem_of_remove_dups%elem_of_map.
  apply elem_of_map. exists x. split; [reflexivity|].
  now rewrite elem_of_remove_dups.
Qed.

Lemma remove_dups_map_inj {A B : Type} `{EqDecision A, EqDecision B}
    (f : A -> B) (l : list A) :
  (forall x y, x ∈ l -> y ∈ l -> f x = f y -> x = y) ->
  length (remove_dups (map f l)) = length (remove_dups l).
Proof.
  intros Hinj. rewrite <- (length_map f (remove_dups l)).
  apply Permutation_length, NoDup_Permutation.
  - apply NoDup_remove_dups.
  - apply (NoDup_fmap_2_strong f); [|apply NoDup_remove_dups].
    intros x y Hx Hy Hf. rewrite elem_of_remove_dups in Hx, Hy.
    apply Hinj; assumption.
  - intros y. rewrite elem_of_remove_dups, !elem_of_map.
    split; intros (x & -> & Hx); exists x; (split; [reflexivity|]).
    + now rewrite elem_of_remove_dups.
    + now rewrite elem_of_remove_dups in Hx.
Qed.

Lemma colon_key_inj (c1 s1 c2 s2 : string) :
  mentions ":" c1 = false -> mentions ":" c2 = false ->
  c1 +:+ ":" +:+ s1 = c2 +:+ ":" +:+ s2 -> c1 = c2 /\ s1 = s2.
Proof.
  revert c2. induction c1 as [|x c1 IH]; intros [|y c2] H1 H2 E.
  - now injection E.
  - exfalso. injection E as Hy _. subst y. simpl in H2. discriminate.
  - exfalso. injection E as Hx _. subst x. simpl in H1. discriminate.
  - injection E as -> E. simpl in H1, H2.
    apply orb_false_iff in H1 as [_ H1]. apply orb_false_iff in H2 as [_ H2].
    destruct (IH c2 H1 H2 E) as [-> ->]. now split.
Qed.

(** X12.  [total_commands] never exceeds the number of pairs that have a
    result, and is that number when no command name holds a colon: the
    query counts the texts [command:subcommand], which two pairs can
    share otherwise. *)
Theorem total_commands_pairs (eng : Engine) (day_ago : string) (db : Db) :
  exists n,
    stat "total_commands" (get_statistics eng day_ago db) = Some (JInt n)
    /\ (n <= Z.of_nat (length (groups (test_results db))))%Z
    /\ ((forall r, r ∈ test_results db -> mentions ":" (command r) = false) ->
        n = Z.of_nat (length (groups (test_results db)))).
Proof.
  eexists. split; [reflexivity|]. unfold count_distinct, groups.
  set (rows := test_results db).
  assert (E : map (fun r => command r +:+ ":" +:+ subcommand r) rows
              = map (fun p : string * string => p.1 +:+ ":" +:+ p.2)
                    (map (fun r => (command r, subcommand r)) rows))
    by now rewrite map_map.
  rewrite E. split.
  - apply inj_le, remove_dups_map_le.
  - intros Hcolon. f_equal. apply remove_dups_map_inj.
    intros [c1 s1] [c2 s2] (r1 & [= -> ->] & Hr1)%elem_of_map
      (r2 & [= -> ->] & Hr2)%elem_of_map Hkey. simpl in Hkey.
    apply colon_key_inj in Hkey as [-> ->]; auto.
Qed.

Lemma total_commands_pairs_witness :
  exists n,
    stat "total_commands" (get_statistics rowid_engine "2026-01-01" trivia_db)
    = Some (JInt n)
    /\ n = Z.of_nat (length (groups (test_results trivia_db))).
Proof.
  destruct (total_commands_pairs rowid_engine "2026-01-01" trivia_db)
    as (n & Hn & _ & Heq).
  exists n. split; [exact Hn|]. apply Heq.
  intros r Hr.
  repeat (apply elem_of_cons in Hr as [-> | Hr]; [reflexivity|]).
  now apply not_elem_of_nil in Hr.
Defined.

(** Two pairs with one text [command:subcommand] count as one
    command. *)
Example total_commands_shared_text :
  let db :=
    record_test "2026-01-01 10:00:01" "s1" "a" (Some "b:c") "passed" (Some "")
      "" 0 None
      (record_test "2026-01-01 10:00:00" "s1" "a:b" (Some "c") "passed"
         (Some "") "" 0 None empty_db) in
  stat "total_commands" (get_statistics rowid_engine "2026-01-01" db)
  = Some (JInt 1)
  /\ length (groups (test_results db)) = 2.
Proof. vm_compute. split; reflexivity. Qed.


(** ** The text of a snapshot *)

(** X13.  The row [create_snapshot] adds holds the text of the snapshot
    with its keys as they were built, and the digest of another text,
    the one with the keys sorted: the digest of the stored text is not
    what [checksum] holds it against. *)
Theorem snapshot_text_not_hashed (eng : Engine) (now_iso day_ago now : string)
    (file : DocFile) (description : string) (db : Db) :
  let data := build_snapshot_data eng now_iso day_ago file db in
  let db' := (create_snapshot eng now_iso day_ago now file description db).1 in
  exists row,
    test_snapshots db' = test_snapshots db ++ [row]
    /\ snapshot_data row = Json.dumps false data
    /\ checksum row = SHA256.hexdigest (Json.dumps true data)
    /\ Json.dumps false data <> Json.dumps true data.
Proof.
  intros data db'. eexists. split; [reflexivity|].
  split; [reflexivity|]. split; [reflexivity|].
  intros E. apply (f_equal (String.get 2)) in E.
  revert E. unfold data, build_snapshot_data. lazy. discriminate.
Qed.

(** ** The two readers *)

(** X14.  When no two rows of [test_results] share their [tested_at],
    the two readers agree: every record of [get_all_test_results] that
    comes from a stored result is the join of the row whose [dict]
    [get_test_status] returns for the pair of the record. *)
Theorem readers_agree (eng : Engine) (db : Db) (file : DocFile) (m : Merged) :
  NoDup (map tested_at (test_results db)) ->
  m ∈ get_all_test_results eng db file -> is_tested m = true ->
  exists r,
    r ∈ test_results db /\ m = joined db r
    /\ get_test_status eng db (m_command m) (m_subcommand m) = status_record r.
Proof.
  intros Hnd Hm Ht.
  assert (Hq : m ∈ tested (get_all_test_results eng db file))
    by now apply list_elem_of_filter.
  rewrite tested_results in Hq. apply elem_of_map in Hq as (r & -> & Hr).
  rewrite sort_by_elem, (scan_perm eng) in Hr.
  pose proof (latest_rows_subset _ _ Hr) as Hr'.
  exists r. split; [exact Hr'|]. split; [reflexivity|].
  cbn [joined m_command m_subcommand]. unfold get_test_status.
  cbn [or_empty].
  set (mine := filter (is_pair (command r) (subcommand r)) (test_results db)).
  assert (Hmine : r ∈ mine)
    by (apply list_elem_of_filter; split; [split; reflexivity|exact Hr']).
  destruct (sort_by newest_first (scan eng mine)) as [|r0 rest] eqn:E.
  - exfalso. apply (f_equal length) in E.
    rewrite sort_by_length, (scan_perm eng) in E.
    destruct mine; [now apply not_elem_of_nil in Hmine|discriminate].
  - assert (H0 : r0 ∈ mine).
    { rewrite <- (scan_perm eng). apply (sort_by_elem newest_first).
      rewrite E. apply list_elem_of_here. }
    assert (Hle : newest_first r0 r = true).
    { apply (sort_by_head newest_first newest_first_total newest_first_trans
               r0 rest _ E). now rewrite (scan_perm eng). }
    apply list_elem_of_filter in H0 as [Hp0 H0].
    pose proof (latest_rows_newest _ r Hnd Hr r0 H0 Hp0) as Hge.
    unfold newest_first in Hle.
    assert (r0 = r) as ->; [|reflexivity].
    eapply NoDup_fmap_eq; eauto. now apply String.leb_antisym.
Qed.

Lemma readers_agree_witness :
  exists r,
    r ∈ test_results trivia_db
    /\ joined trivia_db
         {| result_id := 2; session_id := "s1"; command := "trivia";
            subcommand := ""; status := "failed";
            tested_at := "2026-01-01 10:00:05"; notes := Some "";
            error_output := ""; execution_time_ms := 0; metadata := "{}" |}
       = joined trivia_db r
    /\ get_test_status rowid_engine trivia_db "trivia" (Some "")
       = status_record r.
Proof.
  apply (readers_agree rowid_engine trivia_db DocMissing
           (joined trivia_db
              {| result_id := 2; session_id := "s1"; command := "trivia";
                 subcommand := ""; status := "failed";
                 tested_at := "2026-01-01 10:00:05"; notes := Some "";
                 error_output := ""; execution_time_ms := 0;
                 metadata := "{}" |})).
  - compute_done.
  - vm_compute. apply list_elem_of_here.
  - reflexivity.
Defined.

(** A row that is not the latest of its pair is listed beside the
    latest when another pair has its latest result at the time of the
    row: the times of the subquery are not tied to their pairs. *)
Example stale_record_listed :
  map (fun m => (m_command m, m_status m, m_tested_at m))
      (get_all_test_results rowid_engine shared_time_db DocMissing)
  = [ ("mod", "passed", "2026-01-01 10:00:00");
      ("ping", "passed", "2026-01-01 10:00:00");
      ("ping", "failed", "2026-01-01 10:00:05") ].
Proof. vm_compute. reflexivity. Qed.


(** ** The order of the merged view *)

Lemma str_ltb_leb (a b : string) :
  String.ltb a b = true -> String.leb a b = true.
Proof. unfold String.ltb, String.leb. now destruct (String.compare a b). Qed.

Lemma str_ltb_trans (a b c : string) :
  String.ltb a b = true -> String.ltb b c = true -> String.ltb a c = true.
Proof.
  unfold String.ltb. intros H1 H2.
  destruct (String.compare a b) eqn:E1; try discriminate.
  destruct (String.compare b c) eqn:E2; try discriminate.
  now rewrite (str_compare_lt_trans a b c E1 E2).
Qed.

Lemma pair_le_total (a b : TestResult) :
  pair_le a b = true \/ pair_le b a = true.
Proof.
  unfold pair_le, String.ltb.
  destruct (String.compare (command a) (command b)) eqn:E.
  - apply String.compare_eq_iff in E.
    rewrite E, str_compare_refl, String.eqb_refl. simpl.
    apply String.leb_total.
  - now left.
  - right. now rewrite (String.compare_antisym (command b) (command a)), E.
Qed.

Lemma pair_le_trans (a b c : TestResult) :
  pair_le a b = true -> pair_le b c = true -> pair_le a c = true.
Proof.
  unfold pair_le. intros H1 H2.
  apply orb_true_iff in H1 as [H1 | [H1 H1']%andb_true_iff];
    apply orb_true_iff in H2 as [H2 | [H2 H2']%andb_true_iff].
  - now rewrite (str_ltb_trans _ _ _ H1 H2).
  - apply String.eqb_eq in H2. rewrite <- H2, H1. reflexivity.
  - apply String.eqb_eq in H1. rewrite H1, H2. reflexivity.
  - apply String.eqb_eq in H1, H2. rewrite H1, H2, String.eqb_refl.
    rewrite (str_leb_trans _ _ _ H1' H2'). apply orb_true_r.
Qed.

(** X15.  [get_all_test_results] returns the records of stored results
    first, in ascending order of command and then subcommand, and after
    them the records it makes up for what was never tested. *)
Theorem results_order (eng : Engine) (db : Db) (file : DocFile) :
  exists stored made_up,
    get_all_test_results eng db file = stored ++ made_up
    /\ Forall (fun m => is_tested m = true) stored
    /\ Forall (fun m => is_tested m = false) made_up
    /\ StronglySorted record_le stored.
Proof.
  rewrite results_split.
  eexists _, _. split; [reflexivity|]. split; [|split].
  - apply Forall_forall. intros m (r & -> & _)%elem_of_map. reflexivity.
  - apply Forall_forall. intros m Hm. now apply synthesized_untested in Hm.
  - pose proof (sort_by_sorted pair_le pair_le_total pair_le_trans
                  (scan eng (latest_rows (test_results db)))) as Hs.
    induction Hs as [|r l Hs IH Hall]; [constructor|].
    cbn [map]. constructor; [exact IH|].
    apply Forall_forall. intros m (r' & -> & Hr')%elem_of_map.
    rewrite Forall_forall in Hall. specialize (Hall r' Hr').
    unfold le_prop, pair_le in Hall. unfold record_le.
    cbn [joined m_command m_subcommand or_empty].
    apply orb_true_iff in Hall as [H | [H H']%andb_true_iff]; [now left|].
    right. apply String.eqb_eq in H. now split.
Qed.


(** ** The readers and the order of the scan *)

Lemma pair_le_antisym (a b : TestResult) :
  pair_le a b = true -> pair_le b a = true ->
  (command a, subcommand a) = (command b, subcommand b).
Proof.
  unfold pair_le. intros H1 H2.
  apply orb_true_iff in H1 as [H1 | [H1 H1']%andb_true_iff];
    apply orb_true_iff in H2 as [H2 | [H2 H2']%andb_true_iff].
  - apply str_ltb_not_leb in H1. apply str_ltb_leb in H2. congruence.
  - apply String.eqb_eq in H2. rewrite H2 in H1.
    apply str_ltb_not_leb in H1. now rewrite str_leb_refl in H1.
  - apply String.eqb_eq in H1. rewrite H1 in H2.
    apply str_ltb_not_leb in H2. now rewrite str_leb_refl in H2.
  - apply String.eqb_eq in H1. f_equal; [exact H1|].
    now apply String.leb_antisym.
Qed.

(** X16.  When no two rows of [test_results] share their [tested_at],
    what the two readers return does not depend on the order in which
    SQLite scans the rows. *)
Theorem readers_scan_independent (eng1 eng2 : Engine) (db : Db)
    (file : DocFile) (c : string) (sub : option string) :
  NoDup (map tested_at (test_results db)) ->
  get_all_test_results eng1 db file = get_all_test_results eng2 db file
  /\ get_test_status eng1 db c sub = get_test_status eng2 db c sub.
Proof.
  intros Hnd. split.
  - unfold get_all_test_results. do 2 f_equal.
    apply (sort_by_perm_eq pair_le pair_le_total pair_le_trans).
    + now rewrite !scan_perm.
    + intros x y Hx Hy Hxy Hyx. rewrite scan_perm in Hx, Hy.
      apply (latest_rows_one_per_pair _ _ _ Hnd Hx Hy).
      now apply pair_le_antisym.
  - unfold get_test_status.
    rewrite (sort_by_perm_eq newest_first newest_first_total newest_first_trans
               (scan eng1 _) (scan eng2 (filter (is_pair c (or_empty sub))
                                           (test_results db)))).
    + reflexivity.
    + now rewrite !scan_perm.
    + intros x y Hx Hy Hxy Hyx. rewrite scan_perm in Hx, Hy.
      apply list_elem_of_filter in Hx as [_ Hx].
      apply list_elem_of_filter in Hy as [_ Hy].
      eapply NoDup_fmap_eq; eauto. unfold newest_first in *.
      now apply String.leb_antisym.
Qed.

Lemma readers_scan_independent_witness :
  get_all_test_results rowid_engine trivia_db (DocLoaded mod_doc)
  = get_all_test_results reverse_engine trivia_db (DocLoaded mod_doc)
  /\ get_test_status rowid_engine trivia_db "trivia" None
     = get_test_status reverse_engine trivia_db "trivia" None.
Proof.
  apply (readers_scan_independent rowid_engine reverse_engine trivia_db
           (DocLoaded mod_doc) "trivia" None).
  compute_done.
Defined.

(** ** The registry after an update *)

Lemma registry_rows_keys (doc : RegistryDoc) :
  map row_key (registry_rows doc) = declared_pairs doc.
Proof.
  unfold registry_rows, declared_pairs.
  induction doc as [|cmd doc IH]; [reflexivity|].
  cbn [flat_map]. rewrite map_app, IH. f_equal.
  cbn [map]. f_equal. rewrite map_map. reflexivity.
Qed.

Lemma run_upserts_other (times : nat -> string) (i : nat)
    (rows : list (string * string * string * list string))
    (reg : gmap (string * string) CommandRegistryEntry) (k : string * string) :
  k ∉ map row_key rows -> run_upserts times i rows reg !! k = reg !! k.
Proof.
  revert i reg. induction rows as [|row rows IH]; intros i reg Hk;
    [reflexivity|].
  cbn [run_upserts]. rewrite IH.
  - destruct row as [[[c s] d] a]. unfold insert_or_replace.
    apply lookup_insert_ne. intros <-. apply Hk. apply list_elem_of_here.
  - intros H. apply Hk. now apply list_elem_of_further.
Qed.

Lemma run_upserts_stays (times : nat -> string) (i : nat)
    (rows : list (string * string * string * list string))
    (reg : gmap (string * string) CommandRegistryEntry) (k : string * string) :
  is_Some (reg !! k) -> is_Some (run_upserts times i rows reg !! k).
Proof.
  revert i reg. induction rows as [|row rows IH]; intros i reg Hk;
    [exact Hk|].
  cbn [run_upserts]. apply IH.
  destruct row as [[[c s] d] a]. unfold insert_or_replace.
  destruct (decide ((c, s) = k)) as [<- | Hne].
  - rewrite lookup_insert_eq. eauto.
  - now rewrite lookup_insert_ne.
Qed.

Lemma run_upserts_active (times : nat -> string) (i : nat)
    (rows : list (string * string * string * list string))
    (reg : gmap (string * string) CommandRegistryEntry) :
  map_Forall (fun _ e => is_active e = true) reg ->
  map_Forall (fun _ e => is_active e = true) (run_upserts times i rows reg).
Proof.
  revert i reg. induction rows as [|row rows IH]; intros i reg Hall;
    [exact Hall|].
  cbn [run_upserts]. apply IH.
  destruct row as [[[c s] d] a]. unfold insert_or_replace.
  now apply map_Forall_insert_2.
Qed.

(** X17.  [update_command_registry] removes no row and sets none
    inactive: a row is there after the call if it was before, it is as
    it was when the document does not declare its pair, and rows that
    are all active stay so.  What the document no longer declares stays
    registered. *)
Theorem update_command_registry_never_removes (times : nat -> string)
    (commands : RegistryDoc) (db : Db) :
  let db' := update_command_registry times commands db in
  (forall k, is_Some (command_registry db !! k) ->
             is_Some (command_registry db' !! k))
  /\ (forall k, k ∉ declared_pairs commands ->
                command_registry db' !! k = command_registry db !! k)
  /\ (map_Forall (fun _ e => is_active e = true) (command_registry db) ->
      map_Forall (fun _ e => is_active e = true) (command_registry db')).
Proof.
  intros db'. unfold db', update_command_registry.
  cbn [command_registry set_command_registry]. split; [|split].
  - intros k. apply run_upserts_stays.
  - intros k Hk. apply run_upserts_other. now rewrite registry_rows_keys.
  - apply run_upserts_active.
Qed.

Lemma overwrite_fold_absent (k : string * string)
    (rows : list (string * string * string * list string))
    (acc : option (string * string * bool)) :
  k ∉ map row_key rows -> fold_left (overwrite k) rows acc = acc.
Proof.
  revert acc. induction rows as [|r rows IH]; intros acc H; [reflexivity|].
  cbn [fold_left]. rewrite IH.
  - unfold overwrite. rewrite decide_False; [reflexivity|].
    intros Hk. apply H. rewrite <- Hk. apply list_elem_of_here.
  - intros Hk. apply H. now apply list_elem_of_further.
Qed.

Lemma overwrite_fold_unique (k : string * string)
    (rows : list (string * string * string * list string))
    (acc : option (string * string * bool)) (p : string * string * bool) :
  k ∈ map row_key rows ->
  (forall row, row ∈ rows -> row_key row = k -> row_payload row = p) ->
  fold_left (overwrite k) rows acc = Some p.
Proof.
  revert acc. induction rows as [|row rows IH]; intros acc Hex Hall.
  - now apply not_elem_of_nil in Hex.
  - cbn [fold_left].
    destruct (decide (k ∈ map row_key rows)) as [H | H].
    + apply IH; [exact H|]. intros r Hr. apply Hall.
      now apply list_elem_of_further.
    + assert (Hk : row_key row = k).
      { cbn [map] in Hex. apply elem_of_cons in Hex as [-> | Hex];
          [reflexivity|contradiction]. }
      rewrite overwrite_fold_absent by exact H.
      unfold overwrite. rewrite decide_True by exact Hk.
      f_equal. apply Hall; [apply list_elem_of_here|exact Hk].
Qed.

Lemma registry_rows_elem (doc : RegistryDoc)
    (row : string * string * string * list string) :
  row ∈ registry_rows doc <->
  exists cmd, cmd ∈ doc
    /\ (row = (cmd.1, "", cmd_description cmd.2, cmd_aliases cmd.2)
        \/ exists sub, sub ∈ cmd_subcommands cmd.2
             /\ row = (cmd.1, sub.1, sub_description sub.2, sub_aliases sub.2)).
Proof.
  unfold registry_rows. rewrite elem_of_flat_map.
  split; intros (cmd & Hcmd & H); exists cmd; (split; [exact Hcmd|]).
  - apply elem_of_cons in H as [-> | H]; [now left|].
    right. apply elem_of_map in H as (sub & -> & Hsub). now exists sub.
  - destruct H as [-> | (sub & Hsub & ->)]; [apply list_elem_of_here|].
    apply list_elem_of_further, elem_of_map. now exists sub.
Qed.

(** In a well-formed document a command has one entry and, in it, a
    subcommand has one. *)
Lemma doc_wf_entry (doc : RegistryDoc) (c : string) (info info' : CmdInfo) :
  doc_wf doc -> (c, info) ∈ doc -> (c, info') ∈ doc -> info' = info.
Proof.
  intros [Hnd _] H H'.
  pose proof (NoDup_fmap_eq fst doc _ _ Hnd H H' eq_refl) as E.
  now injection E.
Qed.

Lemma doc_wf_subs (doc : RegistryDoc) (c : string) (info : CmdInfo) :
  doc_wf doc -> (c, info) ∈ doc ->
  NoDup (map fst (cmd_subcommands info))
  /\ "" ∉ map fst (cmd_subcommands info).
Proof.
  intros [_ Hall] H. rewrite Forall_forall in Hall. apply (Hall _ H).
Qed.

(** What the rows of a well-formed document leave under the pair of a
    command and under the pair of a subcommand. *)
Lemma registry_payload_base (times : nat -> string) (doc : RegistryDoc)
    (db : Db) (c : string) (info : CmdInfo) :
  doc_wf doc -> (c, info) ∈ doc ->
  entry_payload
    <$> (command_registry (update_command_registry times doc db) !! (c, ""))
  = Some (cmd_description info, aliases_text (cmd_aliases info), true).
Proof.
  intros Hwf Hin. unfold update_command_registry.
  cbn [command_registry set_command_registry].
  rewrite run_upserts_payload. apply overwrite_fold_unique.
  - apply elem_of_map. exists (c, "", cmd_description info, cmd_aliases info).
    split; [reflexivity|]. apply registry_rows_elem. exists (c, info).
    split; [exact Hin|]. now left.
  - intros row ([c' info'] & Hcmd & Hrow)%registry_rows_elem Hkey.
    cbn [fst snd] in Hrow.
    destruct Hrow as [-> | ([s sub] & Hsub & ->)]; unfold row_key in Hkey;
      cbn [fst snd] in Hkey.
    + injection Hkey as ->.
      now rewrite (doc_wf_entry doc c info info' Hwf Hin Hcmd).
    + exfalso. injection Hkey as -> Hs. cbn [fst] in Hs. subst s.
      destruct (doc_wf_subs doc c info' Hwf Hcmd) as [_ Hno]. apply Hno.
      apply elem_of_map. now exists ("", sub).
Qed.

Lemma registry_payload_sub (times : nat -> string) (doc : RegistryDoc)
    (db : Db) (c : string) (info : CmdInfo) (s : string) (sub : SubInfo) :
  doc_wf doc -> (c, info) ∈ doc -> (s, sub) ∈ cmd_subcommands info ->
  entry_payload
    <$> (command_registry (update_command_registry times doc db) !! (c, s))
  = Some (sub_description sub, aliases_text (sub_aliases sub), true).
Proof.
  intros Hwf Hin Hsub. unfold update_command_registry.
  cbn [command_registry set_command_registry].
  destruct (doc_wf_subs doc c info Hwf Hin) as [Hnd Hno].
  rewrite run_upserts_payload. apply overwrite_fold_unique.
  - apply elem_of_map. exists (c, s, sub_description sub, sub_aliases sub).
    split; [reflexivity|]. apply registry_rows_elem. exists (c, info).
    split; [exact Hin|]. right. now exists (s, sub).
  - intros row ([c' info'] & Hcmd & Hrow)%registry_rows_elem Hkey.
    cbn [fst snd] in Hrow.
    destruct Hrow as [-> | ([s' sub'] & Hsub' & ->)]; unfold row_key in Hkey;
      cbn [fst snd] in Hkey; injection Hkey as -> Hs.
    + exfalso. subst s. apply Hno. apply elem_of_map. now exists ("", sub).
    + cbn [fst] in Hs. subst s'.
      rewrite (doc_wf_entry doc c info info' Hwf Hin Hcmd) in Hsub'.
      pose proof (NoDup_fmap_eq fst _ _ _ Hnd Hsub Hsub' eq_refl) as E.
      injection E as <-. reflexivity.
Qed.

(** X18.  After [update_command_registry] with a well-formed document,
    the registry holds for every command of the document, under the
    empty subcommand, its description and the JSON text of its aliases,
    and the same for every subcommand, all active. *)
Theorem update_command_registry_lookup (times : nat -> string)
    (doc : RegistryDoc) (db : Db) (c : string) (info : CmdInfo) :
  doc_wf doc -> (c, info) ∈ doc ->
  let db' := update_command_registry times doc db in
  entry_payload <$> (command_registry db' !! (c, ""))
  = Some (cmd_description info, aliases_text (cmd_aliases info), true)
  /\ forall s sub,
       (s, sub) ∈ cmd_subcommands info ->
       entry_payload <$> (command_registry db' !! (c, s))
       = Some (sub_description sub, aliases_text (sub_aliases sub), true).
Proof.
  intros Hwf Hin db'. split.
  - now apply registry_payload_base.
  - intros s sub Hsub.
    exact (registry_payload_sub times doc db c info s sub Hwf Hin Hsub).
Qed.

Lemma update_command_registry_lookup_witness :
  let db' :=
    update_command_registry (fun _ => "2026-01-01 10:00:00") mod_doc
      trivia_db in
  entry_payload <$> (command_registry db' !! ("mod", ""))
  = Some ("Moderation", aliases_text ["m"], true)
  /\ forall s sub,
       (s, sub) ∈ [("ban", {| sub_description := "Ban a member";
                              sub_aliases := ["b"] |})] ->
       entry_payload <$> (command_registry db' !! ("mod", s))
       = Some (sub_description sub, aliases_text (sub_aliases sub), true).
Proof.
  apply (update_command_registry_lookup (fun _ => "2026-01-01 10:00:00")
           mod_doc trivia_db "mod"
           {| cmd_description := "Moderation"; cmd_aliases := ["m"];
              cmd_subcommands :=
                [("ban", {| sub_description := "Ban a member";
                            sub_aliases := ["b"] |})] |}).
  - compute_done.
  - apply list_elem_of_here.
Defined.

Lemma joined_payload (db : Db) (r : TestResult) (d a : string) (act : bool) :
  entry_payload <$> (command_registry db !! (command r, subcommand r))
  = Some (d, a, act) ->
  joined db r
  = Latest (command r) (subcommand r) (status r) (tested_at r) (notes r)
      (error_output r) (execution_time_ms r) (Some d) (Some a).
Proof.
  unfold joined. destruct (command_registry db !! _) as [e|]; [|discriminate].
  unfold entry_payload. simpl. now intros [= <- <- _].
Qed.

(** X19.  After [update_command_registry] with a well-formed document,
    every record of [get_all_test_results] that comes from a stored
    result of a pair the document declares carries the description and
    the aliases the document gives for the pair. *)
Theorem update_then_results (eng : Engine) (times : nat -> string)
    (doc : RegistryDoc) (db : Db) (file : DocFile) (c : string)
    (info : CmdInfo) (m : Merged) :
  doc_wf doc -> (c, info) ∈ doc ->
  m ∈ get_all_test_results eng (update_command_registry times doc db) file ->
  is_tested m = true -> m_command m = c ->
  (m_subcommand m = Some "" ->
   exists st t n e ms,
     m = Latest c "" st t n e ms (Some (cmd_description info))
           (Some (aliases_text (cmd_aliases info))))
  /\ (forall s sub,
        (s, sub) ∈ cmd_subcommands info -> m_subcommand m = Some s ->
        exists st t n e ms,
          m = Latest c s st t n e ms (Some (sub_description sub))
                (Some (aliases_text (sub_aliases sub)))).
Proof.
  intros Hwf Hin Hm Ht Hc.
  assert (Hq : m ∈ tested (get_all_test_results eng
                             (update_command_registry times doc db) file))
    by now apply list_elem_of_filter.
  rewrite tested_results in Hq. apply elem_of_map in Hq as (r & -> & _).
  cbn [joined m_command m_subcommand] in Hc |- *. split.
  - intros [= Hs].
    pose proof (registry_payload_base times doc db c info Hwf Hin) as Hp.
    rewrite <- Hc, <- Hs in Hp. apply joined_payload in Hp.
    rewrite Hp, Hc, Hs. now eexists _, _, _, _, _.
  - intros s sub Hsub [= Hs].
    pose proof (registry_payload_sub times doc db c info s sub Hwf Hin Hsub)
      as Hp.
    rewrite <- Hc, <- Hs in Hp. apply joined_payload in Hp.
    rewrite Hp, Hc, Hs. now eexists _, _, _, _, _.
Qed.

Lemma update_then_results_witness :
  let m :=
    Latest "trivia" "" "failed" "2026-01-01 10:00:05" (Some "") "" 0
      (Some "Trivia game") (Some (aliases_text ["t"])) in
  (m_subcommand m = Some "" ->
   exists st t n e ms,
     m = Latest "trivia" "" st t n e ms (Some (cmd_description trivia_info))
           (Some (aliases_text (cmd_aliases trivia_info))))
  /\ (forall s sub,
        (s, sub) ∈ cmd_subcommands trivia_info -> m_subcommand m = Some s ->
        exists st t n e ms,
          m = Latest "trivia" s st t n e ms (Some (sub_description sub))
                (Some (aliases_text (sub_aliases sub)))).
Proof.
  apply (update_then_results rowid_engine (fun _ => "2026-01-01 11:00:00")
           trivia_doc trivia_db DocMissing "trivia" trivia_info).
  - compute_done.
  - apply list_elem_of_here.
  - vm_compute. apply list_elem_of_here.
  - reflexivity.
  - reflexivity.
Defined.

(** In a document that gives a command a subcommand of the empty name
    the row of the subcommand takes the place of the row of the
    command. *)
Example empty_subcommand_takes_the_row :
  description
    <$> (command_registry
           (update_command_registry (fun _ => "2026-01-01 11:00:00")
              trailing_comma_doc empty_db) !! ("trivia", ""))
  = Some "".
Proof. vm_compute. reflexivity. Qed.

(** ** Migration, result by result *)











(** ** The backup on start *)

Lemma latest_of_spec (first : string * BackupFile)
    (rest : list (string * BackupFile)) :
  latest_of first rest ∈ first :: rest
  /\ forall p, p ∈ first :: rest ->
               (st_mtime p.2 <= st_mtime (latest_of first rest).2)%N.
Proof.
  unfold latest_of. revert first. induction rest as [|q rest IH]; intros first.
  - simpl. split; [apply list_elem_of_here|].
    intros p ->%list_elem_of_singleton. lia.
  - cbn [fold_left].
    destruct (IH (if (st_mtime first.2 <? st_mtime q.2)%N then q else first))
      as [Hin Hmax].
    split.
    + apply elem_of_cons in Hin as [-> | Hin].
      * destruct (_ <? _)%N; [apply list_elem_of_further|];
          apply list_elem_of_here.
      * now do 2 apply list_elem_of_further.
    + intros p Hp.
      set (best := if (st_mtime first.2 <? st_mtime q.2)%N then q else first)
        in *.
      assert (Hbest : (st_mtime first.2 <= st_mtime best.2
                       /\ st_mtime q.2 <= st_mtime best.2)%N).
      { unfold best.
        destruct (N.ltb_spec (st_mtime first.2) (st_mtime q.2)); lia. }
      pose proof (Hmax _ (list_elem_of_here _ _)) as H0.
      apply elem_of_cons in Hp as [-> | Hp]; [lia|].
      apply elem_of_cons in Hp as [-> | Hp]; [lia|].
      apply Hmax. now apply list_elem_of_further.
Qed.

(** The latest backup is a file of the directory that none is stamped
    after. *)
Lemma get_latest_backup_spec (fromtimestamp : N -> Z) (w : World) :
  match _get_latest_backup fromtimestamp w with
  | None => backups w = ∅
  | Some t =>
      exists name f,
        backups w !! name = Some f /\ t = fromtimestamp (st_mtime f)
        /\ forall n' f', backups w !! n' = Some f' ->
                         (st_mtime f' <= st_mtime f)%N
  end.
Proof.
  unfold _get_latest_backup.
  destruct (map_to_list (backups w)) as [|first rest] eqn:E.
  - now apply map_to_list_empty_iff.
  - destruct (latest_of_spec first rest) as [Hin Hmax]. rewrite <- E in Hin.
    destruct (latest_of first rest) as [name f] eqn:El.
    exists name, f. split; [now apply elem_of_map_to_list|].
    split; [reflexivity|]. intros n' f' Hf'.
    apply (Hmax (n', f')). rewrite <- E. now apply elem_of_map_to_list.
Qed.

(** X22.  [_auto_backup] leaves everything as it is when the file of the
    backups directory that is stamped latest is at most 24 hours old by
    the clock of the machine. *)
Theorem auto_backup_skips_recent (fromtimestamp : N -> Z) (now : Z)
    (timestamp : string) (mtime : N) (w : World) (name : string)
    (f : BackupFile) :
  backups w !! name = Some f ->
  (forall n' f', backups w !! n' = Some f' -> (st_mtime f' <= st_mtime f)%N) ->
  (now - fromtimestamp (st_mtime f) <= hours_24)%Z ->
  _auto_backup fromtimestamp now timestamp mtime w = w.
Proof.
  intros Hf Hmax Hrecent. unfold _auto_backup.
  pose proof (get_latest_backup_spec fromtimestamp w) as H.
  destruct (_get_latest_backup fromtimestamp w) as [t|].
  - destruct H as (n & g & Hg & -> & Hg').
    assert (st_mtime g = st_mtime f) as ->.
    { apply N.le_antisymm; [eapply Hmax|eapply Hg']; eassumption. }
    destruct (Z.ltb_spec hours_24 (now - fromtimestamp (st_mtime f)));
      [lia|reflexivity].
  - rewrite H in Hf. now rewrite lookup_empty in Hf.
Qed.

Lemma auto_backup_skips_recent_witness :
  _auto_backup (fun t => Z.of_N t * 1000000)%Z (1010 * 1000000)%Z
    "20260101_101650" 1010 ten_backups_world
  = ten_backups_world.
Proof.
  apply (auto_backup_skips_recent _ _ _ _ _
           "test_data_manual_20260101_100010.db.gz"
           {| st_mtime := 1010; data := Gz (Bytes "db") |}).
  - vm_compute. reflexivity.
  - intros n' f' H.
    apply (map_Forall_lookup_1 (fun _ g => (st_mtime g <= 1010)%N)
             (backups ten_backups_world) n' f'); [compute_done|exact H].
  - vm_compute. discriminate.
Defined.

(** X23.  [_auto_backup] on a directory that holds no backup, or only
    files more than 24 hours old by the clock of the machine, takes a
    backup tagged [auto]: when the new file is stamped after all of
    them, the directory then holds it with the packed store, and the
    store is as it was. *)
Theorem auto_backup_writes_stale (fromtimestamp : N -> Z) (now : Z)
    (timestamp : string) (mtime : N) (w : World) :
  (forall n f, backups w !! n = Some f ->
               (hours_24 < now - fromtimestamp (st_mtime f))%Z
               /\ (st_mtime f < mtime)%N) ->
  let w' := _auto_backup fromtimestamp now timestamp mtime w in
  backups w' !! backup_name "auto" timestamp
  = Some {| st_mtime := mtime; data := Gz (store w) |}
  /\ store w' = store w
  /\ size (backups w') <= 10.
Proof.
  intros Hstale w'.
  assert (E : w' = (create_backup "auto" timestamp mtime w).1).
  { unfold w', _auto_backup.
    pose proof (get_latest_backup_spec fromtimestamp w) as H.
    destruct (_get_latest_backup fromtimestamp w) as [t|]; [|reflexivity].
    destruct H as (n & g & Hg & -> & _). apply Hstale in Hg as [Hg _].
    destruct (Z.ltb_spec hours_24 (now - fromtimestamp (st_mtime g)));
      [reflexivity|lia]. }
  rewrite E, create_backup_written.
  set (name := backup_name "auto" timestamp).
  set (file := {| st_mtime := mtime; data := Gz (store w) |}).
  split; [|split].
  - apply kept_if_few_rivals.
    + cbn [backups set_backups]. apply lookup_insert_eq.
    + cbn [backups set_backups]. rewrite filter_none; [simpl; lia|].
      intros [n g] Hin%elem_of_map_to_list [Hn Hle]. simpl in Hn, Hle.
      rewrite lookup_insert_ne in Hin by congruence.
      apply Hstale in Hin as [_ Hlt]. lia.
  - reflexivity.
  - rewrite cleanup_size. lia.
Qed.

(** The directory of ten backups, two days later. *)
Lemma auto_backup_writes_stale_witness :
  let w' :=
    _auto_backup (fun t => Z.of_N t * 1000000)%Z 173801000000%Z
      "20260103_100001" 173801 ten_backups_world in
  backups w' !! backup_name "auto" "20260103_100001"
  = Some {| st_mtime := 173801; data := Gz (store ten_backups_world) |}
  /\ store w' = store ten_backups_world
  /\ size (backups w') <= 10.
Proof.
  apply (auto_backup_writes_stale (fun t => Z.of_N t * 1000000)%Z
           173801000000%Z "20260103_100001" 173801 ten_backups_world).
  intros n f H.
  apply (map_Forall_lookup_1
           (fun _ g => (hours_24 < 173801000000 - Z.of_N (st_mtime g) * 1000000)%Z
                       /\ (st_mtime g < 173801)%N)
           (backups ten_backups_world) n f); [compute_done|exact H].
Defined.

(** ** Pruning with any [keep] *)

(** X24.  [_cleanup_old_backups(keep)] leaves the store and every file
    it does not unlink as they are; with [keep] at least 1 it leaves
    the [keep] files stamped latest, or all when there are fewer, and
    no file it unlinks is stamped after one it leaves; with [keep = 0]
    it unlinks nothing. *)
Theorem cleanup_old_backups_keep (keep : nat) (w : World) :
  let w' := _cleanup_old_backups keep w in
  store w' = store w /\ others w' = others w
  /\ (forall n f, backups w' !! n = Some f -> backups w !! n = Some f)
  /\ size (backups w')
     = match keep with
       | O => size (backups w)
       | S _ => min keep (size (backups w))
       end
  /\ (forall kept deleted f f',
        backups w' !! kept = Some f -> backups w !! deleted = Some f' ->
        backups w' !! deleted = None -> (st_mtime f' <= st_mtime f)%N).
Proof.
  intros w'. split; [reflexivity|]. split; [reflexivity|].
  destruct keep as [|k].
  - assert (E : backups w' = backups w).
    { unfold w', _cleanup_old_backups, to_unlink, all_but_last.
      cbn [backups set_backups]. now destruct (bool_decide _). }
    rewrite E. split; [auto|]. split; [reflexivity|]. congruence.
  - split; [|split].
    + intros n f. unfold w'. rewrite cleanup_lookup.
      now destruct (decide _).
    + apply cleanup_size.
    + apply cleanup_oldest_first.
Qed.

(** ** Restoring a file that is no gzip stream *)

(** X25.  [restore_backup] of a file that exists and does not begin
    as a gzip stream leaves the store file empty: it was opened for
    writing before the first read.  An empty file reads as an empty
    stream, and the call returns [True]; other bytes raise
    [BadGzipFile].  What the store held is in the safety backup, which
    the directory holds when it was stamped after the files that were
    there. *)
Theorem restore_backup_not_gzip (path b timestamp : string) (mtime : N)
    (w : World) :
  others w !! path = Some (Bytes b) ->
  gzip_magic b = false ->
  (forall n f, backups w !! n = Some f -> (st_mtime f < mtime)%N) ->
  let r := restore_backup (Elsewhere path) timestamp mtime w in
  r.2 = (if decide (b = "") then Returned true else Raised BadGzipFile)
  /\ store r.1 = Bytes ""
  /\ backups r.1 !! backup_name "pre_restore" timestamp
     = Some {| st_mtime := mtime; data := Gz (store w) |}.
Proof.
  intros Hfile _ Hold r. unfold r, restore_backup.
  unfold path_exists. cbn [read_file]. rewrite Hfile. cbn [negb].
  assert (E : others (create_backup "pre_restore" timestamp mtime w).1
              = others w) by reflexivity.
  rewrite E, Hfile.
  assert (Hkept : backups (create_backup "pre_restore" timestamp mtime w).1
                    !! backup_name "pre_restore" timestamp
                  = Some {| st_mtime := mtime; data := Gz (store w) |}).
  { rewrite create_backup_written. apply kept_if_few_rivals.
    - cbn [backups set_backups]. apply lookup_insert_eq.
    - cbn [backups set_backups]. rewrite filter_none; [simpl; lia|].
      intros [n g] Hin%elem_of_map_to_list [Hn Hle]. simpl in Hn, Hle.
      rewrite lookup_insert_ne in Hin by congruence.
      apply Hold in Hin. lia. }
  destruct b as [|c b]; cbn [gunzip fst snd store set_store backups].
  - rewrite decide_True by reflexivity. repeat split. exact Hkept.
  - rewrite decide_False by discriminate. repeat split. exact Hkept.
Qed.

Lemma restore_backup_not_gzip_witness :
  let r :=
    restore_backup (Elsewhere "old/test_data.db") "20260101_100000" 1000
      plain_copy_world in
  r.2 = Raised BadGzipFile
  /\ store r.1 = Bytes ""
  /\ backups r.1 !! backup_name "pre_restore" "20260101_100000"
     = Some {| st_mtime := 1000; data := Gz (store plain_copy_world) |}.
Proof.
  apply (restore_backup_not_gzip "old/test_data.db" "old db"
           "20260101_100000" 1000 plain_copy_world).
  - reflexivity.
  - reflexivity.
  - intros n f H. simpl in H. now rewrite lookup_empty in H.
Defined.

(** An empty file is restored, with success, as an empty store. *)
Example restore_empty_file :
  let w :=
    {| store := Bytes "db"; backups := ∅;
       others := {[ "old/test_data.db.gz" := Bytes "" ]} |} in
  let r :=
    restore_backup (Elsewhere "old/test_data.db.gz") "20260101_100000" 1000 w in
  r.2 = Returned true /\ store r.1 = Bytes "".
Proof. vm_compute. split; reflexivity. Qed.

(** A gzip stream that is cut short: what was read before the
    exception stays in the store file. *)
Example restore_truncated_file :
  let w :=
    {| store := Bytes "db"; backups := ∅;
       others := {[ "old/test_data.db.gz" := Broken "old" EOFError ]} |} in
  let r :=
    restore_backup (Elsewhere "old/test_data.db.gz") "20260101_100000" 1000 w in
  r.2 = Raised EOFError /\ store r.1 = Bytes "old".
Proof. vm_compute. split; reflexivity. Qed.


(** ** Undoing a restore *)

(** A backup that is stamped after every other file of the directory
    is restored, whatever the safety backup of the restore. *)
Lemma restore_latest_backup (name timestamp : string) (mtime : N)
    (file : BackupFile) (image : content) (w : World) :
  backups w !! name = Some file -> data file = Gz image ->
  (forall n g, backups w !! n = Some g -> n <> name ->
               (st_mtime g < st_mtime file)%N) ->
  name <> backup_name "pre_restore" timestamp ->
  restore_backup (InBackups name) timestamp mtime w
  = (set_store image (create_backup "pre_restore" timestamp mtime w).1,
     Returned true).
Proof.
  intros Hfile Hdata Hold Hne.
  apply restore_backup_unpacks.
  - unfold path_exists, read_file. now rewrite Hfile.
  - rewrite create_backup_written. unfold read_file.
    rewrite (kept_if_few_rivals 9 _ name file); [simpl; congruence| |].
    + cbn [backups set_backups]. now rewrite lookup_insert_ne by congruence.
    + cbn [backups set_backups].
      set (P := backup_name "pre_restore" timestamp) in *.
      set (dir := <[P := _]> (backups w)).
      enough (length (filter (rival name file) (map_to_list dir)) <= 1) by lia.
      apply (one_key_short _ P).
      * eapply sublist_NoDup; [apply (NoDup_fst_map_to_list dir)|].
        apply (fmap_sublist fst), sublist_filter; apply _.
      * intros [n g] [[Hn Hle] Hx]%list_elem_of_filter. simpl in *.
        apply elem_of_map_to_list in Hx.
        destruct (decide (n = P)) as [-> | HnP]; [reflexivity|].
        unfold dir in Hx. rewrite lookup_insert_ne in Hx by congruence.
        specialize (Hold n g Hx Hn). lia.
Qed.

(** X26.  A restore can be undone.  [restore_backup] of a packed file
    from outside the backups directory, taken when its safety backup is
    stamped after every file of the directory, returns [True] and puts
    what the file packs in the store; and [restore_backup] of that
    safety backup then returns [True] and puts back what the store
    held. *)
Theorem restore_backup_undone (path timestamp1 timestamp2 : string)
    (mtime1 mtime2 : N) (image : content) (w : World) :
  others w !! path = Some (Gz image) ->
  (forall n f, backups w !! n = Some f -> (st_mtime f < mtime1)%N) ->
  backup_name "pre_restore" timestamp1
  <> backup_name "pre_restore" timestamp2 ->
  let r1 := restore_backup (Elsewhere path) timestamp1 mtime1 w in
  let r2 := restore_backup (InBackups (backup_name "pre_restore" timestamp1))
              timestamp2 mtime2 r1.1 in
  r1.2 = Returned true /\ store r1.1 = image
  /\ r2.2 = Returned true /\ store r2.1 = store w.
Proof.
  intros Hfile Hold Hne r1 r2.
  set (P1 := backup_name "pre_restore" timestamp1) in *.
  set (saved := {| st_mtime := mtime1; data := Gz (store w) |}).
  set (w1 := (create_backup "pre_restore" timestamp1 mtime1 w).1).
  assert (E1 : r1 = (set_store image w1, Returned true)).
  { unfold r1. apply restore_backup_unpacks.
    - unfold path_exists. cbn [read_file]. now rewrite Hfile.
    - exact Hfile. }
  assert (Hsaved : backups w1 !! P1 = Some saved).
  { unfold w1. rewrite create_backup_written. fold P1.
    apply kept_if_few_rivals.
    - cbn [backups set_backups]. apply lookup_insert_eq.
    - cbn [backups set_backups]. rewrite filter_none; [simpl; lia|].
      intros [n g] Hin%elem_of_map_to_list [Hn Hle]. simpl in Hn, Hle.
      rewrite lookup_insert_ne in Hin by congruence.
      apply Hold in Hin. lia. }
  assert (Hothers : forall n g, backups w1 !! n = Some g -> n <> P1 ->
                                (st_mtime g < mtime1)%N).
  { unfold w1. rewrite create_backup_written. fold P1. intros n g Hg Hn.
    rewrite cleanup_lookup in Hg. cbn [backups set_backups] in Hg.
    destruct (decide (n ∈ _)); [discriminate|].
    rewrite lookup_insert_ne in Hg by congruence. now apply Hold in Hg. }
  assert (E2 : r2 = (set_store (store w)
                       (create_backup "pre_restore" timestamp2 mtime2
                          (set_store image w1)).1,
                     Returned true)).
  { unfold r2. rewrite E1. cbn [fst].
    apply (restore_latest_backup P1 timestamp2 mtime2 saved (store w));
      [exact Hsaved|reflexivity|exact Hothers|exact Hne]. }
  rewrite E1, E2. repeat split.
Qed.

Lemma restore_backup_undone_witness :
  let r1 :=
    restore_backup (Elsewhere "old/test_data.db.gz") "20260101_100000" 1000
      packed_copy_world in
  let r2 :=
    restore_backup (InBackups (backup_name "pre_restore" "20260101_100000"))
      "20260101_100500" 1300 r1.1 in
  r1.2 = Returned true /\ store r1.1 = Bytes "old db"
  /\ r2.2 = Returned true /\ store r2.1 = store packed_copy_world.
Proof.
  apply (restore_backup_undone "old/test_data.db.gz" "20260101_100000"
           "20260101_100500" 1000 1300 (Bytes "old db") packed_copy_world).
  - reflexivity.
  - intros n f H. simpl in H. now rewrite lookup_empty in H.
  - compute_done.
Defined.


(** ** Old reports *)

Lemma latest_report_first_total (a b : string * N) :
  HTMLReportGenerator.latest_report_first a b = true
  \/ HTMLReportGenerator.latest_report_first b a = true.
Proof.
  unfold HTMLReportGenerator.latest_report_first. rewrite !N.leb_le. lia.
Qed.

Lemma latest_report_first_trans (a b c : string * N) :
  HTMLReportGenerator.latest_report_first a b = true ->
  HTMLReportGenerator.latest_report_first b c = true ->
  HTMLReportGenerator.latest_report_first a c = true.
Proof.
  unfold HTMLReportGenerator.latest_report_first. rewrite !N.leb_le. lia.
Qed.

Lemma remove_some_lookup (removable : string -> bool)
    (files : list (string * N)) (dir : gmap string N) (p : string) :
  fold_left
    (fun dir file => if removable file.1 then delete file.1 dir else dir)
    files dir !! p
  = if decide (p ∈ map fst files /\ removable p = true) then None
    else dir !! p.
Proof.
  revert dir. induction files as [|[q t] files IH]; intros dir.
  - cbn [fold_left map]. rewrite decide_False; [reflexivity|].
    intros [H _]. now apply not_elem_of_nil in H.
  - cbn [fold_left map fst]. rewrite IH.
    destruct (decide (p ∈ map fst files /\ removable p = true))
      as [[H1 H2] | H].
    + rewrite decide_True; [reflexivity|].
      split; [now apply list_elem_of_further|exact H2].
    + destruct (decide (q = p)) as [-> | Hne].
      * destruct (removable p) eqn:Hr.
        -- rewrite lookup_delete_eq, decide_True; [reflexivity|].
           split; [apply list_elem_of_here|reflexivity].
        -- rewrite decide_False; [reflexivity|]. intros [_ ?]. discriminate.
      * assert (E : (if removable q then delete q dir else dir) !! p
                    = dir !! p).
        { destruct (removable q); [now apply lookup_delete_ne|reflexivity]. }
        rewrite E, decide_False; [reflexivity|].
        intros [[? | H1]%elem_of_cons H2]; [congruence|].
        apply H. now split.
Qed.

Lemma remove_all_size (removable : string -> bool)
    (files : list (string * N)) (dir : gmap string N) :
  NoDup (map fst files) ->
  (forall q, q ∈ files -> is_Some (dir !! q.1) /\ removable q.1 = true) ->
  size (fold_left
          (fun dir file => if removable file.1 then delete file.1 dir else dir)
          files dir)
  = size dir - length files.
Proof.
  revert dir. induction files as [|[q t] files IH]; intros dir Hnd Hall.
  - simpl. lia.
  - cbn [map fst] in Hnd. apply NoDup_cons in Hnd as [Hq Hnd].
    destruct (Hall (q, t) (list_elem_of_here _ _)) as [Hsome Hrem].
    cbn [fold_left fst] in *. rewrite Hrem, IH.
    + rewrite map_size_delete_Some by exact Hsome. simpl. lia.
    + exact Hnd.
    + intros [q' t'] Hin. destruct (Hall _ (list_elem_of_further _ _ _ Hin))
        as [Hs Hr]. split; [|exact Hr]. cbn [fst] in *.
      rewrite lookup_delete_ne; [exact Hs|].
      intros ->. apply Hq. apply elem_of_map. now exists (q', t').
Qed.

(** X27.  [_cleanup_old_reports] changes no report it leaves, and
    leaves all when there are at most [max_reports]; a report it removes is
    one [os.remove] did not refuse, with at least [max_reports] others
    no older than it; and when [os.remove] refuses none, the
    [max_reports] latest are left, or all if there are fewer. *)
Theorem cleanup_old_reports_keeps_latest (max_reports : nat)
    (removable : string -> bool) (reports : gmap string N) :
  let left :=
    HTMLReportGenerator._cleanup_old_reports max_reports removable reports in
  (forall p t, left !! p = Some t -> reports !! p = Some t)
  /\ (size reports <= max_reports -> left = reports)
  /\ (forall p t,
        reports !! p = Some t -> left !! p = None ->
        removable p = true
        /\ max_reports
           <= length (filter (no_older p t) (map_to_list reports)))
  /\ ((forall p, removable p = true) ->
      size left = min max_reports (size reports)).
Proof.
  intros left. unfold left, HTMLReportGenerator._cleanup_old_reports. cbv zeta.
  rewrite length_map_to_list.
  case_bool_decide as Hsize.
  { split; [auto|]. split; [auto|]. split; [congruence|]. intros _. lia. }
  set (sorted := sort_by HTMLReportGenerator.latest_report_first
                   (map_to_list reports)).
  assert (Hperm : sorted ≡ₚ map_to_list reports) by apply sort_by_perm.
  assert (Hlen : length sorted = size reports)
    by now rewrite Hperm, length_map_to_list.
  assert (Hs : StronglySorted
                 (le_prop HTMLReportGenerator.latest_report_first) sorted)
    by (apply sort_by_sorted;
        [apply latest_report_first_total|apply latest_report_first_trans]).
  assert (Hnd : NoDup (map fst sorted))
    by (rewrite Hperm; apply NoDup_fst_map_to_list).
  split; [|split; [|split]].
  - intros p t. rewrite remove_some_lookup. now destruct (decide _).
  - lia.
  - intros p t Hp. rewrite remove_some_lookup.
    destruct (decide _) as [[Hin Hrem] | _]; [|congruence]. intros _.
    split; [exact Hrem|].
    apply elem_of_map in Hin as ([p' t'] & Heq & Hin). cbn [fst] in Heq.
    subst p'.
    assert (t' = t) as ->.
    { assert (H : (p, t') ∈ sorted).
      { rewrite <- (take_drop max_reports sorted). apply elem_of_app.
        now right. }
      rewrite Hperm in H. apply elem_of_map_to_list in H. congruence. }
    rewrite <- (Permutation_length
                  (filter_Permutation (no_older p t) _ _ Hperm)).
    rewrite <- (take_drop max_reports sorted) in Hs, Hnd |- *.
    rewrite map_app in Hnd. apply NoDup_app in Hnd as (_ & Hdisj & _).
    rewrite filter_app, length_app, (filter_all (no_older p t) (take _ _)).
    + rewrite length_take. lia.
    + intros x Hx. split.
      * intros Hname. apply (Hdisj p).
        -- apply elem_of_map. now exists x.
        -- apply elem_of_map. now exists (p, t).
      * pose proof (sorted_app_le _ _ _ _ _ Hs Hx Hin) as Hle.
        unfold le_prop, HTMLReportGenerator.latest_report_first in Hle.
        cbn [snd] in Hle.
        now apply N.leb_le in Hle.
  - intros Hall. rewrite remove_all_size.
    + rewrite length_drop. lia.
    + rewrite <- (take_drop max_reports sorted), map_app in Hnd.
      apply NoDup_app in Hnd. tauto.
    + intros [q t] Hq. split; [|apply Hall]. cbn [fst].
      assert (H : (q, t) ∈ sorted).
      { rewrite <- (take_drop max_reports sorted). apply elem_of_app.
        now right. }
      rewrite Hperm in H. apply elem_of_map_to_list in H. eauto.
Qed.

Lemma cleanup_old_reports_keeps_latest_witness :
  size (HTMLReportGenerator._cleanup_old_reports 5 (fun _ => true)
          seven_reports) = 5
  /\ HTMLReportGenerator._cleanup_old_reports 5 (fun _ => true) seven_reports
     !! "test_results/report_20260101_100100.html" = None.
Proof.
  destruct (cleanup_old_reports_keeps_latest 5 (fun _ => true) seven_reports)
    as (_ & _ & _ & Hsize).
  split; [rewrite Hsize by reflexivity; reflexivity|].
  vm_compute. reflexivity.
Defined.

(** ** A list of names that ends in a comma *)

Lemma split_not_nil (sep : ascii) (s : string) :
  CommandExtractor.split sep s <> [].
Proof.
  destruct s as [|c s]; simpl; [discriminate|].
  destruct (Ascii.eqb c sep); [discriminate|].
  now destruct (CommandExtractor.split sep s).
Qed.

Lemma split_app (sep : ascii) (a b : string) :
  CommandExtractor.split sep (a +:+ String sep b)
  = CommandExtractor.split sep a ++ CommandExtractor.split sep b.
Proof.
  induction a as [|c a IH].
  - change (EmptyString +:+ String sep b) with (String sep b).
    cbn [CommandExtractor.split app]. now rewrite Ascii.eqb_refl.
  - change (String c a +:+ String sep b) with (String c (a +:+ String sep b)).
    cbn [CommandExtractor.split]. rewrite IH.
    destruct (Ascii.eqb c sep); [reflexivity|].
    pose proof (split_not_nil sep a).
    now destruct (CommandExtractor.split sep a).
Qed.

Lemma space_not_comma (c : ascii) :
  CommandExtractor.is_space c = true -> Ascii.eqb c "," = false.
Proof.
  intros H. destruct (Ascii.eqb_spec c ","); [|reflexivity]. now subst.
Qed.

Lemma split_blank (s : string) : blank s -> CommandExtractor.split "," s = [s].
Proof.
  unfold blank. induction s as [|c s IH]; [reflexivity|].
  cbn [list_ascii_of_string forallb CommandExtractor.split].
  intros [Hc Hs]%andb_true_iff. now rewrite (space_not_comma c Hc), IH.
Qed.

Lemma lstrip_blank (s : string) :
  blank s -> CommandExtractor.lstrip CommandExtractor.is_space s = EmptyString.
Proof.
  unfold blank. induction s as [|c s IH]; [reflexivity|].
  cbn [list_ascii_of_string forallb CommandExtractor.lstrip].
  intros [Hc Hs]%andb_true_iff. now rewrite Hc, IH.
Qed.

Lemma strip_blank (s : string) :
  blank s -> CommandExtractor.strip CommandExtractor.is_space s = EmptyString.
Proof. intros H. unfold CommandExtractor.strip. now rewrite lstrip_blank. Qed.

Lemma collapse_blank (r : bool) (s : string) :
  blank s -> blank (CommandExtractor.collapse r s).
Proof.
  unfold blank. revert r. induction s as [|c s IH]; intros r; [reflexivity|].
  cbn [list_ascii_of_string forallb CommandExtractor.collapse].
  intros [Hc Hs]%andb_true_iff. rewrite Hc.
  destruct r; [now apply IH|].
  cbn [list_ascii_of_string forallb]. now rewrite IH.
Qed.

Lemma collapse_app (r : bool) (a b : string) :
  CommandExtractor.collapse r (a +:+ String "," b)
  = CommandExtractor.collapse r a
    +:+ String "," (CommandExtractor.collapse false b).
Proof.
  revert r. induction a as [|c a IH]; intros r; [reflexivity|].
  change (String c a +:+ String "," b) with (String c (a +:+ String "," b)).
  cbn [CommandExtractor.collapse].
  destruct (CommandExtractor.is_space c); [destruct r|]; now rewrite IH.
Qed.

(** X28.  A list of names that ends in a comma, followed by white space
    at most: the single-file parser takes the empty name for its last
    subcommand, where the module parser drops what follows the comma.
    The list of the single-file parser is never empty. *)
Theorem trailing_comma_names (subcmds_text rest : string) :
  blank rest ->
  CommandExtractor.subcommands (subcmds_text +:+ String "," rest)
  = CommandExtractor.subcommands subcmds_text ++ [EmptyString]
  /\ CommandExtractor.subcmd_names (subcmds_text +:+ String "," rest)
     = CommandExtractor.subcmd_names subcmds_text
  /\ CommandExtractor.subcommands subcmds_text <> [].
Proof.
  intros Hrest. split; [|split].
  - unfold CommandExtractor.subcommands.
    rewrite split_app, map_app, (split_blank rest Hrest).
    cbn [map]. now rewrite (strip_blank rest Hrest).
  - unfold CommandExtractor.subcmd_names.
    rewrite collapse_app, split_app, filter_app.
    pose proof (collapse_blank false rest Hrest) as Hb.
    rewrite (split_blank _ Hb), filter_cons_False, filter_nil, app_nil_r;
      [reflexivity|].
    intros H. apply H. now apply strip_blank.
  - unfold CommandExtractor.subcommands.
    pose proof (split_not_nil "," subcmds_text).
    now destruct (CommandExtractor.split "," subcmds_text).
Qed.

Lemma trailing_comma_names_witness :
  CommandExtractor.subcommands two_names_text
  = CommandExtractor.subcommands "add, remove" ++ [EmptyString]
  /\ CommandExtractor.subcmd_names two_names_text
     = CommandExtractor.subcmd_names "add, remove"
  /\ CommandExtractor.subcommands "add, remove" <> [].
Proof.
  apply (trailing_comma_names "add, remove" (String (ascii_of_N 10) "    ")).
  reflexivity.
Defined.

(** The two lists of that text. *)
Example names_of_two_names_text :
  CommandExtractor.subcommands two_names_text = ["add"; "remove"; ""]
  /\ CommandExtractor.subcmd_names two_names_text = ["add"; "remove"].
Proof. split; vm_compute; reflexivity. Qed.
